(** * Bacon-Shor stabilizer tracking: a shallow embedding and its properties

    The development follows the two Python sources of the repository:

    - [Visulization_tool/BaconShorViz_Interactive.py], the refined program
      (class [Stabilizer], class [BaconShorCode] with the geometry-aware
      [adjust_stabilizers] and [simplify_stabilizers]);
    - [Visulization_tool/BaconShorViz_Initial.py], the prototype, whose class
      [Stabilizer] is the same and whose [adjust_stabilizers] pairs any two
      anti-commuting generators.

    Python values are modelled as follows.

    - A qubit id is a Python [int]: [Z].
    - The operator stored for a qubit is one of the objects the program ever
      stores in a [qubits_ops] dictionary: ['X'], ['Z'] (results of
      [get_measurement_type]), ['Y'] (written by [multiply]) and [None] (the
      third result of [get_measurement_type]).
    - A [dict] is an association list in insertion order with pairwise
      distinct keys; [d.get], [del d[q]] and [d[q] = v] are written out and
      keep the insertion order the way Python does.
    - A [set] of stabilizers is a list without two members equal by
      [__eq__]; its iteration order is not fixed by Python (it depends on
      hash values), so every iteration over a set goes through an
      [IterOrder], an arbitrary function returning a permutation of the
      members.
    - Exceptions ([IndexError], [ValueError]) are explicit in the type
      [outcome]. *)

From Stdlib Require Import String.
From Stdlib Require Import List ZArith Lia Bool Arith PeanoNat Permutation.
From Stdlib Require DecimalString.
Import ListNotations.

(** ** Exceptions and the outcome monad *)

Inductive exn : Type := IndexError | ValueError.

Inductive outcome (A : Type) : Type :=
| Ok (a : A)
| Raise (e : exn)
| OutOfFuel.

Arguments Ok {A} a.
Arguments Raise {A} e.
Arguments OutOfFuel {A}.

Definition bind {A B : Type} (c : outcome A) (k : A -> outcome B) : outcome B :=
  match c with
  | Ok a => k a
  | Raise e => Raise e
  | OutOfFuel => OutOfFuel
  end.

Notation "x <- c ;; k" := (bind c (fun x => k))
  (at level 61, c at next level, right associativity).

Fixpoint mapM {A B : Type} (f : A -> outcome B) (l : list A) : outcome (list B) :=
  match l with
  | [] => Ok []
  | a :: l' => b <- f a ;; bs <- mapM f l' ;; Ok (b :: bs)
  end.

Fixpoint foldM {A S : Type} (f : S -> A -> outcome S) (l : list A) (s : S) : outcome S :=
  match l with
  | [] => Ok s
  | a :: l' => s' <- f s a ;; foldM f l' s'
  end.

(** ** Operators and dictionaries *)

Inductive op : Type := PX | PY | PZ | PNone.

Definition op_eqb (a b : op) : bool :=
  match a, b with
  | PX, PX | PY, PY | PZ, PZ | PNone, PNone => true
  | _, _ => false
  end.

Definition dict : Type := list (Z * op).

Definition keys (d : dict) : list Z := map fst d.
Definition values (d : dict) : list op := map snd d.

(** [d.get(q)]: [None] stands for the default ['I'] of the source. *)
Fixpoint dict_get (d : dict) (q : Z) : option op :=
  match d with
  | [] => None
  | (k, v) :: d' => if (k =? q)%Z then Some v else dict_get d' q
  end.

(** [del d[q]] *)
Fixpoint dict_del (d : dict) (q : Z) : dict :=
  match d with
  | [] => []
  | (k, v) :: d' => if (k =? q)%Z then d' else (k, v) :: dict_del d' q
  end.

(** [d[q] = v]: an existing key keeps its place, a new key goes last. *)
Fixpoint dict_set (d : dict) (q : Z) (v : op) : dict :=
  match d with
  | [] => [(q, v)]
  | (k, w) :: d' => if (k =? q)%Z then (k, v) :: d' else (k, w) :: dict_set d' q v
  end.

(** The invariant of a Python dictionary. *)
Definition wf_dict (d : dict) : Prop := NoDup (keys d).

(** ** class Stabilizer *)

Module Stabilizer.

(** An object of the class holds the single field [qubits_ops]. *)
Definition t : Type := dict.

(** The argument of [commutes_with]: [{'qubits': [...], 'type': ...}]. *)
Record measurement : Type := { m_qubits : list Z; m_type : op }.

Definition count_anti (self : t) (m : measurement) : nat :=
  fold_left
    (fun anti_commuting_qubits q =>
       match dict_get self q with
       | Some op_stab =>
           if negb (op_eqb op_stab (m_type m))
           then S anti_commuting_qubits else anti_commuting_qubits
       | None => anti_commuting_qubits
       end)
    (m_qubits m) 0.

Definition commutes_with (self : t) (m : measurement) : bool :=
  (count_anti self m mod 2 =? 0)%nat.

Definition multiply_entry (new_qubits_ops : dict) (e : Z * op) : dict :=
  let (q, o) := e in
  match dict_get new_qubits_ops q with
  | Some cur =>
      if op_eqb cur o then dict_del new_qubits_ops q
      else dict_set new_qubits_ops q PY
  | None => dict_set new_qubits_ops q o
  end.

Definition multiply (self other : t) : t :=
  fold_left multiply_entry other self.

Definition is_trivial (self : t) : bool := (length self =? 0)%nat.

(** [__eq__]: equality of dictionaries, whatever the insertion order. *)
Definition eq (self other : t) : bool :=
  (length self =? length other)%nat
  && forallb (fun e : Z * op =>
                match dict_get other (fst e) with
                | Some w => op_eqb (snd e) w
                | None => false
                end) self.

(** [set(a.qubits_ops.items()).issubset(set(b.qubits_ops.items()))] *)
Definition items_subset (a b : t) : bool :=
  forallb (fun e : Z * op =>
             match dict_get b (fst e) with
             | Some w => op_eqb (snd e) w
             | None => false
             end) a.

End Stabilizer.

Definition stabilizer : Type := Stabilizer.t.

(** ** Sets of stabilizers *)

Definition pyset : Type := list stabilizer.

(** [x in s]: membership is decided by [__eq__] ([__hash__] agrees with
    it). *)
Definition set_mem (x : stabilizer) (s : pyset) : bool :=
  existsb (Stabilizer.eq x) s.

(** [s.add(x)]: nothing changes when an equal member is present. *)
Definition set_add (s : pyset) (x : stabilizer) : pyset :=
  if set_mem x s then s else s ++ [x].

(** [s.discard(x)]: the member equal to [x] leaves, if there is one. *)
Definition set_discard (s : pyset) (x : stabilizer) : pyset :=
  filter (fun y => negb (Stabilizer.eq x y)) s.

(** [list.remove(x)]: drops the first member equal to [x], raises
    [ValueError] when there is none. *)
Fixpoint list_remove (l : list stabilizer) (x : stabilizer) : outcome (list stabilizer) :=
  match l with
  | [] => Raise ValueError
  | y :: l' =>
      if Stabilizer.eq y x then Ok l'
      else r <- list_remove l' x ;; Ok (y :: r)
  end.

(** The order in which Python enumerates a set: any function that returns
    the members in some order.  Every [for ... in <set>], the comprehension
    over the generator set, [sorted(<set>)] and [|=] enumerate through it;
    the statements below hold for every such function unless they name one. *)
Record IterOrder : Type := {
  iter : list stabilizer -> list stabilizer;
  iter_perm : forall l, Permutation (iter l) l
}.

(** Members in the order they entered the set. *)
Definition insertion_order : IterOrder :=
  {| iter := fun l => l; iter_perm := @Permutation_refl stabilizer |}.

(** Members last-in first. *)
Definition reverse_order : IterOrder :=
  {| iter := @rev stabilizer;
     iter_perm := fun l => Permutation_sym (Permutation_rev l) |}.

(** [s |= other] *)
Definition set_union (it : IterOrder) (s other : pyset) : pyset :=
  fold_left set_add (iter it other) s.

(** Two sets with the same members (by [__eq__]). *)
Definition set_eqb (s1 s2 : pyset) : bool :=
  forallb (fun x => set_mem x s2) s1 && forallb (fun x => set_mem x s1) s2.

(** [sorted(l, key=lambda s: len(s.qubits_ops))]: Python's sort is stable. *)
Fixpoint insert_by_weight (x : stabilizer) (l : list stabilizer) : list stabilizer :=
  match l with
  | [] => [x]
  | y :: l' =>
      if (length x <=? length y)%nat then x :: y :: l'
      else y :: insert_by_weight x l'
  end.

Definition sorted_by_weight (l : list stabilizer) : list stabilizer :=
  fold_right insert_by_weight [] l.

(** ** The lattice

    [self.grid = np.arange(1, num_qubits + 1).reshape((rows + 1, cols + 1))]:
    the entry at row [i], column [j] is [1 + i * (cols + 1) + j]. *)

Definition grid (rows cols : nat) : list (list Z) :=
  map (fun i => map (fun j => (1 + Z.of_nat i * Z.of_nat (S cols) + Z.of_nat j)%Z)
                    (seq 0 (S cols)))
      (seq 0 (S rows)).

(** [np.argwhere(g == q)]: the positions holding [q], in row-major order. *)
Definition argwhere_row (i : nat) (row : list Z) (q : Z) : list (nat * nat) :=
  map (fun jv : nat * Z => (i, fst jv))
      (filter (fun jv : nat * Z => (snd jv =? q)%Z) (combine (seq 0 (length row)) row)).

Definition argwhere (g : list (list Z)) (q : Z) : list (nat * nat) :=
  flat_map (fun ir : nat * list Z => argwhere_row (fst ir) (snd ir) q)
           (combine (seq 0 (length g)) g).

Definition abs_diff (a b : nat) : Z := Z.abs (Z.of_nat a - Z.of_nat b).

Definition msg_not_in_grid : String.string := "Qubit does not exist in the grid."%string.
Definition msg_not_adjacent : String.string := "Qubits are not adjacent."%string.

(** The mutable state of a [BaconShorCode] object that the step functions
    read or write (the fields used only for drawing and for the click
    session are left out). *)
Record BaconShorCode : Type := {
  rows : nat;
  cols : nat;
  stabilizer_generators : pyset;
  time_step : nat;
  current_measurements : list (Z * Z);
  measurements_history : list (list (Z * Z))
}.

(** [BaconShorCode(rows, cols)] *)
Definition init (rows cols : nat) : BaconShorCode :=
  {| rows := rows; cols := cols; stabilizer_generators := [];
     time_step := 0; current_measurements := []; measurements_history := [] |}.

Definition with_generators (self : BaconShorCode) (g : pyset) : BaconShorCode :=
  {| rows := rows self; cols := cols self; stabilizer_generators := g;
     time_step := time_step self;
     current_measurements := current_measurements self;
     measurements_history := measurements_history self |}.

(** [self.time_step += 1] *)
Definition tick (self : BaconShorCode) : BaconShorCode :=
  {| rows := rows self; cols := cols self;
     stabilizer_generators := stabilizer_generators self;
     time_step := S (time_step self);
     current_measurements := current_measurements self;
     measurements_history := measurements_history self |}.

Definition self_grid (self : BaconShorCode) : list (list Z) :=
  grid (rows self) (cols self).

Definition is_valid_measurement (self : BaconShorCode) (qubit_pair : Z * Z)
  : bool * String.string :=
  let (q1, q2) := qubit_pair in
  match argwhere (self_grid self) q1, argwhere (self_grid self) q2 with
  | pos1 :: _, pos2 :: _ =>
      let row_diff := abs_diff (fst pos1) (fst pos2) in
      let col_diff := abs_diff (snd pos1) (snd pos2) in
      if ((row_diff =? 1)%Z && (col_diff =? 0)%Z) || ((row_diff =? 0)%Z && (col_diff =? 1)%Z)
      then (true, String.EmptyString)
      else (false, msg_not_adjacent)
  | _, _ => (false, msg_not_in_grid)
  end.

Definition get_measurement_type (self : BaconShorCode) (qubit_pair : Z * Z)
  : outcome op :=
  let (q1, q2) := qubit_pair in
  match argwhere (self_grid self) q1 with
  | [] => Raise IndexError
  | pos1 :: _ =>
      match argwhere (self_grid self) q2 with
      | [] => Raise IndexError
      | pos2 :: _ =>
          if (abs_diff (fst pos1) (fst pos2) =? 1)%Z && (snd pos1 =? snd pos2)%nat
          then Ok PX
          else if (abs_diff (snd pos1) (snd pos2) =? 1)%Z && (fst pos1 =? fst pos2)%nat
          then Ok PZ
          else Ok PNone
      end
  end.

Definition get_qubit_position (self : BaconShorCode) (qubit : Z) : outcome (nat * nat) :=
  match argwhere (self_grid self) qubit with
  | [] => Raise ValueError
  | pos :: _ => Ok pos
  end.

(** [{'qubits': list(meas_stab.qubits_ops.keys()),
      'type': list(meas_stab.qubits_ops.values())[0]}] *)
Definition measurement_of (meas_stab : stabilizer) : outcome Stabilizer.measurement :=
  match values meas_stab with
  | [] => Raise IndexError
  | ty :: _ => Ok {| Stabilizer.m_qubits := keys meas_stab; Stabilizer.m_type := ty |}
  end.

(** [list(stab.qubits_ops.values())[0]] *)
Definition first_value (stab : stabilizer) : outcome op :=
  match values stab with
  | [] => Raise IndexError
  | ty :: _ => Ok ty
  end.

(** The list comprehension that collects the generators not commuting with
    [meas_stab]; the measurement dictionary is built once per generator
    visited, so nothing is raised over an empty set. *)
Definition anti_commuting (it : IterOrder) (gens : pyset) (meas_stab : stabilizer)
  : outcome (list stabilizer) :=
  match iter it gens with
  | [] => Ok []
  | l =>
      m <- measurement_of meas_stab ;;
      Ok (filter (fun stab => negb (Stabilizer.commutes_with stab m)
                              && negb (Stabilizer.eq stab meas_stab)) l)
  end.

(** [update_stabilizers], first loop: one stabilizer per measurement, both
    qubits carrying the derived type.  [{q: meas_type for q in meas}] has one
    entry when the two ids coincide. *)
Definition meas_stab_of (self : BaconShorCode) (meas : Z * Z) : outcome stabilizer :=
  meas_type <- get_measurement_type self meas ;;
  Ok (dict_set (dict_set [] (fst meas) meas_type) (snd meas) meas_type).

(** [run_time_step], the validation loop: the accepted pairs in order, and
    the printed reports ([Invalid measurement ...]) in order. *)
Fixpoint validate (self : BaconShorCode) (measurements : list (Z * Z))
  : list (Z * Z) * list ((Z * Z) * String.string) :=
  match measurements with
  | [] => ([], [])
  | qubit_pair :: rest =>
      let (valid_measurements, reports) := validate self rest in
      let (valid, msg) := is_valid_measurement self qubit_pair in
      if valid then (qubit_pair :: valid_measurements, reports)
      else (valid_measurements, (qubit_pair, msg) :: reports)
  end.

(** ** BaconShorViz_Interactive.py: the refined program *)

Module Interactive.

(** The inner loop of [simplify_stabilizers]: [stab] is multiplied by
    every accepted generator whose items it contains when visited. *)
Definition reduce_by (it : IterOrder) (simplified_stabilizers : pyset)
           (stab : stabilizer) : stabilizer :=
  fold_left
    (fun stab simple_stab =>
       if Stabilizer.items_subset simple_stab stab
       then Stabilizer.multiply stab simple_stab else stab)
    (iter it simplified_stabilizers) stab.

Definition simplify_entry (it : IterOrder) (simplified_stabilizers : pyset)
           (stab : stabilizer) : pyset :=
  let stab' := reduce_by it simplified_stabilizers stab in
  if negb (Stabilizer.is_trivial stab')
  then set_add simplified_stabilizers stab'
  else simplified_stabilizers.

(** The new value of [self.stabilizer_generators]. *)
Definition simplify (it : IterOrder) (gens : pyset) : pyset :=
  fold_left (simplify_entry it) (sorted_by_weight (iter it gens)) [].

Definition simplify_stabilizers (it : IterOrder) (self : BaconShorCode)
  : BaconShorCode :=
  with_generators self (simplify it (stabilizer_generators self)).

(** [{self.get_qubit_position(q)[k] for q in stab.qubits_ops}] *)
Definition positions (self : BaconShorCode) (k : nat * nat -> nat)
           (stab : stabilizer) : outcome (list nat) :=
  mapM (fun q => pos <- get_qubit_position self q ;; Ok (k pos)) (keys stab).

(** [len(s1.union(s2))] *)
Definition union_size (s1 s2 : list nat) : nat :=
  length (nodup Nat.eq_dec (s1 ++ s2)).

(** The geometric test guarding a combination: for type Z the columns, for
    type X the rows covered by both stabilizers, at most two of them. *)
Definition span_ok (self : BaconShorCode) (stab_type : op)
           (stab1 stab2 : stabilizer) : outcome bool :=
  match stab_type with
  | PZ =>
      cols1 <- positions self snd stab1 ;;
      cols2 <- positions self snd stab2 ;;
      Ok (union_size cols1 cols2 <=? 2)%nat
  | PX =>
      rows1 <- positions self fst stab1 ;;
      rows2 <- positions self fst stab2 ;;
      Ok (union_size rows1 rows2 <=? 2)%nat
  | _ => Ok false
  end.

(** The inner [for stab2 in anti_commuting_stabs_list[i+1:]]: the first
    partner of [stab1] that passes the tests. *)
Fixpoint scan_partner (self : BaconShorCode) (stab1 : stabilizer) (stab_type : op)
         (rest : list stabilizer) : outcome (option stabilizer) :=
  match rest with
  | [] => Ok None
  | stab2 :: rest' =>
      ty2 <- first_value stab2 ;;
      if op_eqb stab_type ty2 then
        ok <- span_ok self stab_type stab1 stab2 ;;
        if ok then Ok (Some stab2) else scan_partner self stab1 stab_type rest'
      else scan_partner self stab1 stab_type rest'
  end.

(** The outer [for i, stab1 in enumerate(anti_commuting_stabs_list)]: the
    first pair that is combined in this pass, if any. *)
Fixpoint scan_pairs (self : BaconShorCode) (l : list stabilizer)
  : outcome (option (stabilizer * stabilizer)) :=
  match l with
  | [] => Ok None
  | stab1 :: rest =>
      stab_type <- first_value stab1 ;;
      found <- scan_partner self stab1 stab_type rest ;;
      match found with
      | Some stab2 => Ok (Some (stab1, stab2))
      | None => scan_pairs self rest
      end
  end.

(** The body of the combination: both stabilizers leave the generator set
    and the working list, their product joins the set when it is not
    trivial and the working list when it still anti-commutes. *)
Definition combine (gens : pyset) (anti_commuting_stabs : list stabilizer)
           (meas_stab stab1 stab2 : stabilizer)
  : outcome (pyset * list stabilizer) :=
  let gens := set_discard (set_discard gens stab1) stab2 in
  acs <- list_remove anti_commuting_stabs stab1 ;;
  acs <- list_remove acs stab2 ;;
  let combined_stab := Stabilizer.multiply stab1 stab2 in
  if negb (Stabilizer.is_trivial combined_stab) then
    let gens := set_add gens combined_stab in
    m <- measurement_of meas_stab ;;
    if negb (Stabilizer.commutes_with combined_stab m)
    then Ok (gens, acs ++ [combined_stab])
    else Ok (gens, acs)
  else Ok (gens, acs).

(** [while changed:]; one unit of fuel per pass. *)
Fixpoint resolve (fuel : nat) (self : BaconShorCode) (meas_stab : stabilizer)
         (gens : pyset) (anti_commuting_stabs : list stabilizer)
  : outcome (pyset * list stabilizer) :=
  match fuel with
  | O => OutOfFuel
  | S fuel' =>
      found <- scan_pairs self anti_commuting_stabs ;;
      match found with
      | None => Ok (gens, anti_commuting_stabs)
      | Some (stab1, stab2) =>
          st <- combine gens anti_commuting_stabs meas_stab stab1 stab2 ;;
          resolve fuel' self meas_stab (fst st) (snd st)
      end
  end.

(** The body of [for meas_stab in measurement_stabilizers], after the
    working list is built: the restart loop, then the members left in the
    working list are discarded.  The loop is run with
    [S (length anti_commuting_stabs)] passes, which is enough (see
    [resolve_fuel_irrelevant]). *)
Definition resolve_and_discard (self : BaconShorCode) (gens : pyset)
           (meas_stab : stabilizer) (anti_commuting_stabs : list stabilizer)
  : outcome pyset :=
  st <- resolve (S (length anti_commuting_stabs)) self meas_stab gens
                anti_commuting_stabs ;;
  Ok (fold_left set_discard (snd st) (fst st)).

Definition adjust_one (it : IterOrder) (self : BaconShorCode) (gens : pyset)
           (meas_stab : stabilizer) : outcome pyset :=
  acs <- anti_commuting it gens meas_stab ;;
  resolve_and_discard self gens meas_stab acs.

Definition adjust (it : IterOrder) (self : BaconShorCode) (gens : pyset)
           (measurement_stabilizers : list stabilizer) : outcome pyset :=
  foldM (adjust_one it self) measurement_stabilizers gens.

Definition adjust_stabilizers (it : IterOrder) (self : BaconShorCode)
           (measurement_stabilizers : list stabilizer) : outcome BaconShorCode :=
  gens <- adjust it self (stabilizer_generators self) measurement_stabilizers ;;
  Ok (with_generators self gens).

Definition update_stabilizers (it : IterOrder) (self : BaconShorCode)
           (measurements : list (Z * Z)) : outcome BaconShorCode :=
  measurement_stabilizers <- mapM (meas_stab_of self) measurements ;;
  let new_stabilizers := fold_left set_add measurement_stabilizers [] in
  if (time_step self =? 1)%nat then
    Ok (with_generators self new_stabilizers)
  else
    let self := with_generators self
                  (set_union it (stabilizer_generators self) new_stabilizers) in
    self <- adjust_stabilizers it self measurement_stabilizers ;;
    Ok (simplify_stabilizers it self).

(** [run_time_step]: the printed reports, and the state after the step
    unless an exception escapes. *)
Definition run_time_step (it : IterOrder) (self : BaconShorCode)
           (measurements : list (Z * Z))
  : list ((Z * Z) * string) * outcome BaconShorCode :=
  let self := tick self in
  let (valid_measurements, reports) := validate self measurements in
  (reports,
   self <- update_stabilizers it self valid_measurements ;;
   Ok {| rows := rows self; cols := cols self;
         stabilizer_generators := stabilizer_generators self;
         time_step := time_step self;
         current_measurements := valid_measurements;
         measurements_history := measurements_history self ++ [valid_measurements] |}).

(** A schedule of batches, one call of [run_time_step] each. *)
Definition run (it : IterOrder) (self : BaconShorCode)
           (schedule : list (list (Z * Z))) : outcome BaconShorCode :=
  foldM (fun self batch => snd (run_time_step it self batch)) schedule self.

(** The generator set after a schedule. *)
Definition generators_after (it : IterOrder) (self : BaconShorCode)
           (schedule : list (list (Z * Z))) : outcome pyset :=
  self <- run it self schedule ;; Ok (stabilizer_generators self).

End Interactive.

(** ** BaconShorViz_Initial.py: the prototype *)

Module Initial.

(** [stab1 = l.pop(); stab2 = l.pop()] on a list of at least two. *)
Definition pop2 (l : list stabilizer)
  : option (stabilizer * stabilizer * list stabilizer) :=
  match rev l with
  | stab1 :: stab2 :: r => Some (stab1, stab2, rev r)
  | _ => None
  end.

(** [while len(anti_commuting_stabs) >= 2:]; one unit of fuel per pass. *)
Fixpoint resolve (fuel : nat) (it : IterOrder) (meas_stab : stabilizer)
         (gens : pyset) (anti_commuting_stabs : list stabilizer)
  : outcome (pyset * list stabilizer) :=
  match fuel with
  | O => OutOfFuel
  | S fuel' =>
      match pop2 anti_commuting_stabs with
      | None => Ok (gens, anti_commuting_stabs)
      | Some (stab1, stab2, _) =>
          let combined_stab := Stabilizer.multiply stab1 stab2 in
          let gens := set_discard (set_discard gens stab1) stab2 in
          let gens := if negb (Stabilizer.is_trivial combined_stab)
                      then set_add gens combined_stab else gens in
          acs <- anti_commuting it gens meas_stab ;;
          resolve fuel' it meas_stab gens acs
      end
  end.

(** The body of [for meas_stab in measurement_stabilizers].  Every pass
    discards two members of the generator set and adds at most one, so
    [S (length gens)] passes are enough (see
    [prototype_adjust_one_terminates]). *)
Definition adjust_one (it : IterOrder) (gens : pyset) (meas_stab : stabilizer)
  : outcome pyset :=
  acs <- anti_commuting it gens meas_stab ;;
  st <- resolve (S (length gens)) it meas_stab gens acs ;;
  match snd st with
  | [stab] => Ok (set_discard (fst st) stab)
  | _ => Ok (fst st)
  end.

Definition adjust (it : IterOrder) (gens : pyset)
           (measurement_stabilizers : list stabilizer) : outcome pyset :=
  foldM (adjust_one it) measurement_stabilizers gens.

Definition adjust_stabilizers (it : IterOrder) (self : BaconShorCode)
           (measurement_stabilizers : list stabilizer) : outcome BaconShorCode :=
  gens <- adjust it (stabilizer_generators self) measurement_stabilizers ;;
  Ok (with_generators self gens).

Definition update_stabilizers (it : IterOrder) (self : BaconShorCode)
           (measurements : list (Z * Z)) : outcome BaconShorCode :=
  measurement_stabilizers <- mapM (meas_stab_of self) measurements ;;
  let new_stabilizers := fold_left set_add measurement_stabilizers [] in
  if (time_step self =? 1)%nat then
    Ok (with_generators self new_stabilizers)
  else
    let self := with_generators self
                  (set_union it (stabilizer_generators self) new_stabilizers) in
    adjust_stabilizers it self measurement_stabilizers.

(** [run_time_step] of the prototype: no simplification pass, and no
    history of the batches is kept. *)
Definition run_time_step (it : IterOrder) (self : BaconShorCode)
           (measurements : list (Z * Z))
  : list ((Z * Z) * string) * outcome BaconShorCode :=
  let self := tick self in
  let (valid_measurements, reports) := validate self measurements in
  (reports,
   self <- update_stabilizers it self valid_measurements ;;
   Ok {| rows := rows self; cols := cols self;
         stabilizer_generators := stabilizer_generators self;
         time_step := time_step self;
         current_measurements := valid_measurements;
         measurements_history := measurements_history self |}).

Definition run (it : IterOrder) (self : BaconShorCode)
           (schedule : list (list (Z * Z))) : outcome BaconShorCode :=
  foldM (fun self batch => snd (run_time_step it self batch)) schedule self.

Definition generators_after (it : IterOrder) (self : BaconShorCode)
           (schedule : list (list (Z * Z))) : outcome pyset :=
  self <- run it self schedule ;; Ok (stabilizer_generators self).

End Initial.

(** ** Printing, hashing and drawing

    The parts of [Stabilizer.__str__], [Stabilizer.__hash__] and [draw_grid]
    (refined program) that compute: the text of a stabilizer, the value that
    is hashed, the face colour of a generator, the cells it shades and the
    colour of a measured edge.  The calls into matplotlib are not modelled. *)

(** [f"{op}"] for the objects a dictionary can hold. *)
Definition op_name (o : op) : string :=
  match o with
  | PX => "X"
  | PY => "Y"
  | PZ => "Z"
  | PNone => "None"
  end.

(** [f"{q}"]: the decimal digits of an [int], a minus sign first below
    zero. *)
Definition int_str (q : Z) : string :=
  DecimalString.NilZero.string_of_int (Z.to_int q).

(** [sorted(d.items())]: tuples are ordered by their first component, the
    key; the keys of a dictionary differ, so no two operators are ever
    compared. *)
Fixpoint insert_item (e : Z * op) (l : list (Z * op)) : list (Z * op) :=
  match l with
  | [] => [e]
  | x :: l' =>
      if (fst e <=? fst x)%Z then e :: x :: l'
      else x :: insert_item e l'
  end.

Definition sorted_items (d : dict) : list (Z * op) :=
  fold_right insert_item [] d.

(** [Stabilizer.__str__] *)
Definition __str__ (self : stabilizer) : string :=
  String.concat " "
    (map (fun e : Z * op => (op_name (snd e) ++ int_str (fst e))%string)
         (sorted_items self)).

(** [Stabilizer.__hash__]: [hash(frozenset(self.qubits_ops.items()))].  The
    hash of a frozenset is a function of its elements alone; [hash_items]
    stands for it, taking the elements in increasing key order. *)
Definition __hash__ (hash_items : list (Z * op) -> Z) (self : stabilizer) : Z :=
  hash_items (sorted_items self).

(** [self.grid[i, j]] for an index inside the array. *)
Definition grid_at (self : BaconShorCode) (i j : nat) : Z :=
  nth j (nth i (self_grid self) []) 0%Z.

(** [set(stab.qubits_ops.values()) == {o}] *)
Definition values_are (stab : stabilizer) (o : op) : bool :=
  match values stab with
  | [] => false
  | vs => forallb (op_eqb o) vs
  end.

(** [draw_grid]: the face colour chosen for a generator. *)
Definition generator_color (stab : stabilizer) : string :=
  if values_are stab PX then "lightblue"
  else if values_are stab PZ then "lightpink"
  else "lightgreen".

(** [draw_grid]: the lower left corners [(x, y)] of the unit squares shaded
    for a generator, in the order they are added. *)
Definition shaded_cells (self : BaconShorCode) (stab : stabilizer)
  : list (nat * nat) :=
  let stab_qubits := keys stab in
  flat_map
    (fun i =>
       flat_map
         (fun j =>
            let cell_qubits :=
              [grid_at self i j; grid_at self i (S j);
               grid_at self (S i) j; grid_at self (S i) (S j)] in
            if forallb (fun q => existsb (Z.eqb q) stab_qubits) cell_qubits
            then [(j, rows self - i - 1)] else [])
         (seq 0 (cols self)))
    (seq 0 (rows self)).

(** [draw_grid]: the rectangles added for the generator set, each with its
    face colour. *)
Definition draw_generators (it : IterOrder) (self : BaconShorCode)
  : list ((nat * nat) * string) :=
  flat_map
    (fun stab => map (fun xy => (xy, generator_color stab)) (shaded_cells self stab))
    (iter it (stabilizer_generators self)).

(** [draw_grid]: the colour of the line drawn for a measured pair. *)
Definition edge_color (self : BaconShorCode) (qubit_pair : Z * Z) : outcome string :=
  meas_type <- get_measurement_type self qubit_pair ;;
  Ok (if op_eqb meas_type PX then "blue" else "red")%string.

(** ** The click session of the refined program *)

Module Session.

(** [normalize_edge]: [tuple(sorted(edge))] *)
Definition normalize_edge (edge : Z * Z) : Z * Z :=
  let (a, b) := edge in
  if (b <? a)%Z then (b, a) else (a, b).

(** [on_click]: the edges whose midpoints are compared with the click, in
    the order of the two nested loops (for every vertex the edge to its
    right, then the edge below it). *)
Definition edge_candidates (self : BaconShorCode) : list (Z * Z) :=
  flat_map
    (fun i =>
       flat_map
         (fun j =>
            let q1 := grid_at self i j in
            (if (j <? cols self)%nat then [(q1, grid_at self i (S j))] else [])
            ++ (if (i <? rows self)%nat then [(q1, grid_at self (S i) j)] else []))
         (seq 0 (S (cols self))))
    (seq 0 (S (rows self))).

Definition edge_eqb (e1 e2 : Z * Z) : bool :=
  (fst e1 =? fst e2)%Z && (snd e1 =? snd e2)%Z.

(** [self.selected_edges.remove(norm_edge)], called when the edge is in the
    list: the first occurrence leaves. *)
Fixpoint remove_edge (l : list (Z * Z)) (e : Z * Z) : list (Z * Z) :=
  match l with
  | [] => []
  | x :: l' => if edge_eqb x e then l' else x :: remove_edge l' e
  end.

(** [on_click], after the search: [closest_edge] is the candidate whose
    midpoint is nearest to the click; [None] stands for a click outside the
    axes (the early [return]) and for a search in which nothing was nearer
    than infinity.  The search itself compares floating-point distances and
    is not modelled.  The result is the new value of
    [self.selected_edges]. *)
Definition on_click (selected_edges : list (Z * Z)) (closest_edge : option (Z * Z))
  : list (Z * Z) :=
  match closest_edge with
  | None => selected_edges
  | Some edge =>
      let norm_edge := normalize_edge edge in
      if existsb (edge_eqb norm_edge) selected_edges
      then remove_edge selected_edges norm_edge
      else selected_edges ++ [norm_edge]
  end.

(** [start_interactive_session]: the selection starts empty, every click
    goes through [on_click], and closing the window runs the time step on
    the selected edges. *)
Definition start_interactive_session (it : IterOrder) (self : BaconShorCode)
           (clicks : list (option (Z * Z)))
  : list ((Z * Z) * string) * outcome BaconShorCode :=
  let selected_edges := fold_left on_click clicks [] in
  Interactive.run_time_step it self selected_edges.

End Session.

(** ** Notions used in the statements *)

(** The product of two single-qubit entries as [multiply] computes it;
    [None] is the identity. *)
Definition op_mul (a b : option op) : option op :=
  match a, b with
  | None, x => x
  | x, None => x
  | Some u, Some v => if op_eqb u v then None else Some PY
  end.

(** Whether qubit [q] is counted by [commutes_with] against type [ty]. *)
Definition anti_bit (self : stabilizer) (ty : op) (q : Z) : bool :=
  match dict_get self q with
  | Some op_stab => negb (op_eqb op_stab ty)
  | None => false
  end.

(** Every stored operator is ['X'] or ['Z']. *)
Definition xz_only (s : stabilizer) : Prop :=
  Forall (fun e : Z * op => snd e = PX \/ snd e = PZ) s.

(** [self.num_qubits] *)
Definition num_qubits (self : BaconShorCode) : Z :=
  Z.of_nat (S (rows self)) * Z.of_nat (S (cols self)).

(** The valid qubit ids of the lattice are [1 .. num_qubits]. *)
Definition in_grid (self : BaconShorCode) (q : Z) : bool :=
  (1 <=? q)%Z && (q <=? num_qubits self)%Z.

(** Row and column of a valid id under the row-major numbering. *)
Definition coordinate_of (self : BaconShorCode) (q : Z) : nat * nat :=
  (Z.to_nat ((q - 1) / Z.of_nat (S (cols self))),
   Z.to_nat ((q - 1) mod Z.of_nat (S (cols self)))).

(** Lattice adjacency: both ids valid and at Manhattan distance one. *)
Definition is_adjacent (self : BaconShorCode) (a b : Z) : bool :=
  in_grid self a && in_grid self b
  && (abs_diff (fst (coordinate_of self a)) (fst (coordinate_of self b))
      + abs_diff (snd (coordinate_of self a)) (snd (coordinate_of self b)) =? 1)%Z.

(** The pairs of a batch that the validation accepts, and the reports for
    the others, as the specification words them. *)
Definition accepted (self : BaconShorCode) (batch : list (Z * Z)) : list (Z * Z) :=
  filter (fun p => is_adjacent self (fst p) (snd p)) batch.

Definition rejection_reason (self : BaconShorCode) (p : Z * Z) : string :=
  if in_grid self (fst p) && in_grid self (snd p)
  then msg_not_adjacent else msg_not_in_grid.

Definition rejected (self : BaconShorCode) (batch : list (Z * Z))
  : list ((Z * Z) * string) :=
  map (fun p => (p, rejection_reason self p))
      (filter (fun p => negb (is_adjacent self (fst p) (snd p))) batch).

(** A run that ended, normally or with an exception, within its fuel. *)
Definition terminated {A : Type} (o : outcome A) : bool :=
  match o with
  | OutOfFuel => false
  | _ => true
  end.

(** The term of an accepted pair: both qubits carry X for a vertical edge
    (same column) and Z for a horizontal one. *)
Definition measurement_term (self : BaconShorCode) (p : Z * Z) : stabilizer :=
  let ty := if (snd (coordinate_of self (fst p)) =? snd (coordinate_of self (snd p)))%nat
            then PX else PZ in
  [(fst p, ty); (snd p, ty)].

(** No qubit occurs twice in the batch. *)
Definition non_overlapping (batch : list (Z * Z)) : Prop :=
  NoDup (flat_map (fun p : Z * Z => [fst p; snd p]) batch).

(** No member equals (by [__eq__]) a member that entered the set before it. *)
Definition set_nodup (s : pyset) : Prop :=
  ForallOrdPairs (fun old new => Stabilizer.eq new old = false) s.

Definition all_wf (s : pyset) : Prop := Forall wf_dict s.

Definition all_nontrivial (s : pyset) : Prop :=
  Forall (fun g => Stabilizer.is_trivial g = false) s.

(** [big]'s items are a strict superset of [small]'s items. *)
Definition strict_superset (big small : stabilizer) : bool :=
  Stabilizer.items_subset small big && negb (Stabilizer.items_subset big small).

(** No member's items contain the items of a member that comes before it
    in the list. *)
Definition earlier_not_within (s : pyset) : Prop :=
  ForallOrdPairs (fun earlier later => Stabilizer.items_subset earlier later = false) s.

(** No member's items contain the items of another member. *)
Definition antichain (s : pyset) : Prop :=
  ForallOrdPairs (fun x y => Stabilizer.items_subset x y = false
                             /\ Stabilizer.items_subset y x = false) s.

(** What holds of every generator set a completed step leaves. *)
Definition simplified_ok (s : pyset) : Prop :=
  set_nodup s /\ all_nontrivial s /\ all_wf s /\ earlier_not_within s.

(** Two outcomes that agree up to the order of the resulting set. *)
Definition out_perm (o1 o2 : outcome pyset) : Prop :=
  match o1, o2 with
  | Ok a, Ok b => Permutation a b
  | Raise e, Raise e' => e = e'
  | OutOfFuel, OutOfFuel => True
  | _, _ => False
  end.

(** No two members are equal, whichever of the two is asked. *)
Definition distinct (l : pyset) : Prop :=
  ForallOrdPairs (fun x y => Stabilizer.eq x y = false /\ Stabilizer.eq y x = false) l.

(** [antichain], decided. *)
Fixpoint antichainb (l : pyset) : bool :=
  match l with
  | [] => true
  | x :: l' =>
      forallb (fun y => negb (Stabilizer.items_subset x y)
                        && negb (Stabilizer.items_subset y x)) l'
      && antichainb l'
  end.

(** [distinct], decided. *)
Fixpoint distinctb (l : pyset) : bool :=
  match l with
  | [] => true
  | x :: l' =>
      forallb (fun y => negb (Stabilizer.eq x y) && negb (Stabilizer.eq y x)) l'
      && distinctb l'
  end.

(** A stabilizer the program can hold as a generator: a well-formed,
    non-empty dictionary over qubits of the lattice. *)
Definition stab_ok (self : BaconShorCode) (g : stabilizer) : Prop :=
  wf_dict g /\ Stabilizer.is_trivial g = false
  /\ Forall (fun q => in_grid self q = true) (keys g).

Definition gens_ok (self : BaconShorCode) (s : list stabilizer) : Prop :=
  Forall (stab_ok self) s.

(** The result of the search of a click: nothing, or one of the edges the
    search goes through. *)
Definition click_on (self : BaconShorCode) (closest_edge : option (Z * Z)) : Prop :=
  match closest_edge with
  | None => True
  | Some edge => In edge (Session.edge_candidates self)
  end.

(** How many of the clicks fell on the edge [e] (in either orientation). *)
Definition count_clicks (e : Z * Z) (clicks : list (option (Z * Z))) : nat :=
  length (filter (fun c : option (Z * Z) =>
                    match c with
                    | Some edge => Session.edge_eqb (Session.normalize_edge edge) e
                    | None => false
                    end) clicks).

(** Every stored operator is [ty]. *)
Definition uniform (ty : op) (s : stabilizer) : Prop :=
  Forall (fun e : Z * op => snd e = ty) s.

(** A stabilizer of a single type: all X or all Z. *)
Definition single_type (s : stabilizer) : Prop := uniform PX s \/ uniform PZ s.

(** The qubits of [t] on which [s] acts as well. *)
Definition common_qubits (s t : stabilizer) : list Z :=
  filter (fun q => existsb (Z.eqb q) (keys s)) (keys t).

(** Two pairs with a qubit in common. *)
Definition share_qubit (p p' : Z * Z) : bool :=
  (fst p =? fst p')%Z || (fst p =? snd p')%Z
  || (snd p =? fst p')%Z || (snd p =? snd p')%Z.

(** A generator of the refined program: a well-formed, non-empty
    dictionary over qubits of the lattice, of a single type. *)
Definition typed_ok (self : BaconShorCode) (g : stabilizer) : Prop :=
  stab_ok self g /\ single_type g.

Definition gens_typed (self : BaconShorCode) (s : list stabilizer) : Prop :=
  Forall (typed_ok self) s.

(** Every member commutes with the measurement [m]. *)
Definition all_commute (m : Stabilizer.measurement) (s : list stabilizer) : Prop :=
  Forall (fun g => Stabilizer.commutes_with g m = true) s.

(** The stabilizers obtained from the members of [s] by [multiply]. *)
Inductive generated_by (s : list stabilizer) : stabilizer -> Prop :=
| generated_member (g : stabilizer) : In g s -> generated_by s g
| generated_product (a b : stabilizer) :
    generated_by s a -> generated_by s b ->
    generated_by s (Stabilizer.multiply a b).

(** The working list of the resolver covers the generators that do not
    commute with the measurement [m]: each of them equals a member of the
    list. *)
Definition covers (m : Stabilizer.measurement) (gens : pyset) (acs : list stabilizer)
  : Prop :=
  forall g, In g gens -> Stabilizer.commutes_with g m = false ->
            exists a, In a acs /\ Stabilizer.eq a g = true.

(** A list of items whose keys increase strictly. *)
Fixpoint increasing (l : list (Z * op)) : Prop :=
  match l with
  | [] => True
  | e :: l' => Forall (fun x => (fst e < fst x)%Z) l' /\ increasing l'
  end.

(** The four qubits at the corners of the cell with upper left vertex at
    row [i], column [j]. *)
Definition cell_corners (self : BaconShorCode) (i j : nat) : list Z :=
  [grid_at self i j; grid_at self i (S j);
   grid_at self (S i) j; grid_at self (S i) (S j)].

(** Generators of a single type over an even number of qubits of the
    lattice. *)
Definition gens_paired (self : BaconShorCode) (s : list stabilizer) : Prop :=
  Forall (fun g => typed_ok self g /\ Nat.even (length g) = true) s.

(** The term of the pair [p] commutes with the measurement of every accepted
    pair of the batch. *)
Definition commutes_with_batch (self : BaconShorCode) (batch : list (Z * Z))
           (p : Z * Z) : Prop :=
  forall p' m,
    In p' (accepted self batch) ->
    measurement_of (measurement_term self p') = Ok m ->
    Stabilizer.commutes_with (measurement_term self p) m = true.

(** * Properties *)

(** ** Dictionaries *)

Lemma op_eqb_eq (a b : op) : op_eqb a b = true <-> a = b.
Proof. destruct a, b; simpl; split; congruence. Qed.

Lemma op_eqb_refl (a : op) : op_eqb a a = true.
Proof. now destruct a. Qed.

Lemma dict_get_none (d : dict) (q : Z) :
  dict_get d q = None <-> ~ In q (keys d).
Proof.
  induction d as [|[k v] d IH]; simpl.
  - tauto.
  - destruct (Z.eqb_spec k q) as [->|Hne].
    + split; [discriminate | intros H; exfalso; apply H; now left].
    + rewrite IH. split; intros H; [intros [E|E]; [congruence | tauto] | tauto].
Qed.

Lemma dict_get_some_in (d : dict) (q : Z) (v : op) :
  dict_get d q = Some v -> In (q, v) d.
Proof.
  induction d as [|[k w] d IH]; simpl; [discriminate|].
  destruct (Z.eqb_spec k q) as [->|Hne].
  - intros [= ->]. now left.
  - intros H. right. auto.
Qed.

Lemma dict_in_get (d : dict) (q : Z) (v : op) :
  wf_dict d -> In (q, v) d -> dict_get d q = Some v.
Proof.
  unfold wf_dict. induction d as [|[k w] d IH]; simpl; [tauto|].
  intros Hnd [E|Hin].
  - injection E as -> ->. now rewrite Z.eqb_refl.
  - inversion Hnd as [|? ? Hk Hd]; subst.
    destruct (Z.eqb_spec k q) as [->|Hne].
    + exfalso. apply Hk. change q with (fst (q, v)). now apply in_map.
    + auto.
Qed.

Lemma dict_get_set_eq (d : dict) (q : Z) (v : op) :
  dict_get (dict_set d q v) q = Some v.
Proof.
  induction d as [|[k w] d IH]; simpl.
  - now rewrite Z.eqb_refl.
  - destruct (Z.eqb_spec k q) as [->|Hne]; simpl.
    + now rewrite Z.eqb_refl.
    + destruct (Z.eqb_spec k q); [contradiction | exact IH].
Qed.

Lemma dict_get_set_neq (d : dict) (q q' : Z) (v : op) :
  q <> q' -> dict_get (dict_set d q v) q' = dict_get d q'.
Proof.
  intros Hne. induction d as [|[k w] d IH]; simpl.
  - destruct (Z.eqb_spec q q'); [contradiction | reflexivity].
  - destruct (Z.eqb_spec k q) as [->|Hkq]; simpl.
    + destruct (Z.eqb_spec q q'); [contradiction | reflexivity].
    + now rewrite IH.
Qed.

Lemma keys_dict_del_incl (d : dict) (q : Z) : incl (keys (dict_del d q)) (keys d).
Proof.
  induction d as [|[k w] d IH]; simpl.
  - apply incl_refl.
  - destruct (k =? q)%Z; simpl.
    + apply incl_tl, incl_refl.
    + intros x [<-|Hx]; [now left | right; now apply IH].
Qed.

Lemma wf_dict_del (d : dict) (q : Z) : wf_dict d -> wf_dict (dict_del d q).
Proof.
  unfold wf_dict. induction d as [|[k w] d IH]; simpl; [auto|].
  intros Hnd. inversion Hnd as [|? ? Hk Hd]; subst.
  destruct (k =? q)%Z; simpl; [assumption|].
  constructor; [|auto].
  intros Hin. apply Hk. now apply (keys_dict_del_incl d q).
Qed.

Lemma dict_get_del_eq (d : dict) (q : Z) :
  wf_dict d -> dict_get (dict_del d q) q = None.
Proof.
  unfold wf_dict. induction d as [|[k w] d IH]; simpl; [auto|].
  intros Hnd. inversion Hnd as [|? ? Hk Hd]; subst.
  destruct (Z.eqb_spec k q) as [->|Hne]; simpl.
  - now apply dict_get_none.
  - destruct (Z.eqb_spec k q); [contradiction | auto].
Qed.

Lemma dict_get_del_neq (d : dict) (q q' : Z) :
  q <> q' -> dict_get (dict_del d q) q' = dict_get d q'.
Proof.
  intros Hne. induction d as [|[k w] d IH]; simpl; [reflexivity|].
  destruct (Z.eqb_spec k q) as [->|Hkq]; simpl.
  - destruct (Z.eqb_spec q q'); [contradiction | reflexivity].
  - now rewrite IH.
Qed.

Lemma keys_dict_set (d : dict) (q : Z) (v : op) :
  keys (dict_set d q v) =
  match dict_get d q with Some _ => keys d | None => keys d ++ [q] end.
Proof.
  induction d as [|[k w] d IH]; simpl; [reflexivity|].
  destruct (Z.eqb_spec k q) as [->|Hne]; simpl; [reflexivity|].
  rewrite IH. now destruct (dict_get d q).
Qed.

Lemma wf_dict_set (d : dict) (q : Z) (v : op) : wf_dict d -> wf_dict (dict_set d q v).
Proof.
  unfold wf_dict. intros Hnd. rewrite keys_dict_set.
  destruct (dict_get d q) eqn:E; [assumption|].
  apply dict_get_none in E.
  apply NoDup_rev in Hnd. rewrite <- (rev_involutive (keys d ++ [q])).
  apply NoDup_rev. rewrite rev_app_distr. simpl.
  constructor; [now rewrite <- in_rev | assumption].
Qed.

Lemma wf_dict_tail (e : Z * op) (d : dict) : wf_dict (e :: d) -> wf_dict d.
Proof. unfold wf_dict. simpl. now inversion 1. Qed.

(** ** Multiplication *)

Lemma wf_multiply_entry (d : dict) (e : Z * op) :
  wf_dict d -> wf_dict (Stabilizer.multiply_entry d e).
Proof.
  intros H. destruct e as [q o]. unfold Stabilizer.multiply_entry.
  destruct (dict_get d q); [destruct (op_eqb o0 o)|];
    auto using wf_dict_del, wf_dict_set.
Qed.

Lemma wf_multiply (s t : stabilizer) :
  wf_dict s -> wf_dict (Stabilizer.multiply s t).
Proof.
  unfold Stabilizer.multiply. revert s.
  induction t as [|e t IH]; simpl; intros s Hs; [assumption|].
  apply IH. now apply wf_multiply_entry.
Qed.

Lemma dict_get_multiply_entry (d : dict) (k : Z) (o : op) (q : Z) :
  wf_dict d ->
  dict_get (Stabilizer.multiply_entry d (k, o)) q =
  if (k =? q)%Z then op_mul (dict_get d q) (Some o) else dict_get d q.
Proof.
  intros Hd. unfold Stabilizer.multiply_entry.
  destruct (Z.eqb_spec k q) as [->|Hne].
  - destruct (dict_get d q) as [cur|] eqn:E; simpl.
    + destruct (op_eqb cur o).
      * now apply dict_get_del_eq.
      * apply dict_get_set_eq.
    + apply dict_get_set_eq.
  - destruct (dict_get d k) as [cur|]; [destruct (op_eqb cur o)|].
    + now apply dict_get_del_neq.
    + now apply dict_get_set_neq.
    + now apply dict_get_set_neq.
Qed.

(** The entry of a product is the product of the entries. *)
Lemma dict_get_multiply (s t : stabilizer) (q : Z) :
  wf_dict s -> wf_dict t ->
  dict_get (Stabilizer.multiply s t) q = op_mul (dict_get s q) (dict_get t q).
Proof.
  unfold Stabilizer.multiply. revert s.
  induction t as [|[k o] t IH]; intros s Hs Ht; cbn [fold_left].
  - now destruct (dict_get s q).
  - rewrite IH; [| now apply wf_multiply_entry | now apply wf_dict_tail in Ht].
    rewrite dict_get_multiply_entry by assumption.
    destruct (Z.eqb_spec k q) as [->|Hne];
      [|simpl; destruct (Z.eqb_spec k q); [contradiction | reflexivity]].
    assert (Hn : dict_get t q = None).
    { apply dict_get_none. unfold wf_dict in Ht. simpl in Ht. now inversion Ht. }
    simpl. rewrite Z.eqb_refl, Hn. now destruct (op_mul (dict_get s q) (Some o)).
Qed.

(** ** Equality of stabilizers *)

Lemma forallb_items_spec (a b : stabilizer) :
  forallb (fun e : Z * op =>
             match dict_get b (fst e) with
             | Some w => op_eqb (snd e) w
             | None => false
             end) a = true
  <-> (forall k v, In (k, v) a -> dict_get b k = Some v).
Proof.
  rewrite forallb_forall. split.
  - intros H k v Hin. specialize (H _ Hin). simpl in H.
    destruct (dict_get b k) as [w|]; [|discriminate].
    apply op_eqb_eq in H. now subst.
  - intros H [k v] Hin. simpl. rewrite (H _ _ Hin). apply op_eqb_refl.
Qed.

Lemma items_subset_spec (a b : stabilizer) :
  Stabilizer.items_subset a b = true
  <-> (forall k v, In (k, v) a -> dict_get b k = Some v).
Proof. apply forallb_items_spec. Qed.

Lemma items_incl_keys (a b : stabilizer) :
  (forall k v, In (k, v) a -> dict_get b k = Some v) -> incl (keys a) (keys b).
Proof.
  intros H k Hk. unfold keys in Hk. apply in_map_iff in Hk.
  destruct Hk as [[k' v] [<- Hin]]. simpl.
  destruct (in_dec Z.eq_dec k' (keys b)) as [|Hn]; [assumption|].
  apply dict_get_none in Hn. rewrite (H _ _ Hin) in Hn. discriminate.
Qed.

Lemma length_keys (d : dict) : length (keys d) = length d.
Proof. apply length_map. Qed.

(** [__eq__] holds exactly when both dictionaries map every qubit alike. *)
Lemma stabilizer_eq_spec (s t : stabilizer) :
  wf_dict s -> wf_dict t ->
  (Stabilizer.eq s t = true <-> forall q, dict_get s q = dict_get t q).
Proof.
  intros Hs Ht. unfold Stabilizer.eq.
  rewrite andb_true_iff, Nat.eqb_eq, forallb_items_spec. split.
  - intros [Hlen Hsub] q.
    destruct (dict_get s q) as [v|] eqn:E.
    + symmetry. apply Hsub. now apply dict_get_some_in.
    + symmetry. apply dict_get_none. apply dict_get_none in E.
      intros Hin. apply E.
      assert (Hincl : incl (keys t) (keys s)).
      { apply NoDup_length_incl;
          [exact Hs | rewrite !length_keys; lia | now apply items_incl_keys]. }
      now apply Hincl.
  - intros H. split.
    + assert (Hst : incl (keys s) (keys t)).
      { intros k Hk. destruct (in_dec Z.eq_dec k (keys t)) as [|Hn]; [assumption|].
        exfalso. apply dict_get_none in Hn. rewrite <- H in Hn.
        apply dict_get_none in Hn. contradiction. }
      assert (Hts : incl (keys t) (keys s)).
      { intros k Hk. destruct (in_dec Z.eq_dec k (keys s)) as [|Hn]; [assumption|].
        exfalso. apply dict_get_none in Hn. rewrite H in Hn.
        apply dict_get_none in Hn. contradiction. }
      rewrite <- !length_keys.
      apply Nat.le_antisymm; now apply NoDup_incl_length.
    + intros k v Hin. rewrite <- H. now apply dict_in_get.
Qed.

Lemma is_trivial_spec (s : stabilizer) :
  Stabilizer.is_trivial s = true <-> s = [].
Proof.
  unfold Stabilizer.is_trivial. rewrite Nat.eqb_eq.
  destruct s; simpl; split; intros; try reflexivity; discriminate.
Qed.

Lemma dict_get_all_none (s : stabilizer) :
  (forall q, dict_get s q = None) -> s = [].
Proof.
  destruct s as [|[k v] s]; [reflexivity|].
  intros H. specialize (H k). simpl in H. rewrite Z.eqb_refl in H. discriminate.
Qed.

Lemma op_mul_comm (a b : option op) : op_mul a b = op_mul b a.
Proof. destruct a as [[]|], b as [[]|]; reflexivity. Qed.

Lemma op_mul_self (a : option op) : op_mul a a = None.
Proof. destruct a as [[]|]; reflexivity. Qed.

Ltac solve_wf :=
  unfold wf_dict; simpl;
  repeat (constructor; [simpl; intuition discriminate|]); constructor.

(** C5: [multiply] is commutative up to [__eq__] (equality of the
    qubit-to-symbol mappings) and every term is its own inverse:
    [s.multiply(t) == t.multiply(s)] and [s.multiply(s)] is trivial, for all
    dictionaries [s] and [t]. *)
Theorem multiply_commutative_self_inverse (s t : stabilizer) :
  wf_dict s -> wf_dict t ->
  Stabilizer.eq (Stabilizer.multiply s t) (Stabilizer.multiply t s) = true
  /\ Stabilizer.is_trivial (Stabilizer.multiply s s) = true.
Proof.
  intros Hs Ht. split.
  - apply stabilizer_eq_spec; try now apply wf_multiply.
    intros q. rewrite !dict_get_multiply by assumption. apply op_mul_comm.
  - apply is_trivial_spec, dict_get_all_none. intros q.
    rewrite dict_get_multiply by assumption. apply op_mul_self.
Qed.

Lemma multiply_commutative_self_inverse_witness :
  Stabilizer.eq
    (Stabilizer.multiply [(1, PX); (2, PZ); (7, PY)]%Z [(2, PX); (3, PZ); (7, PY)]%Z)
    (Stabilizer.multiply [(2, PX); (3, PZ); (7, PY)]%Z [(1, PX); (2, PZ); (7, PY)]%Z)
  = true
  /\ Stabilizer.is_trivial
       (Stabilizer.multiply [(1, PX); (2, PZ); (7, PY)]%Z [(1, PX); (2, PZ); (7, PY)]%Z)
     = true.
Proof.
  apply (multiply_commutative_self_inverse
           [(1, PX); (2, PZ); (7, PY)]%Z [(2, PX); (3, PZ); (7, PY)]%Z); solve_wf.
Defined.

(** ** Commutation *)

Lemma even_mod2 (n : nat) : (n mod 2 =? 0)%nat = Nat.even n.
Proof.
  pose proof (Nat.div_mod_eq n 2) as H.
  pose proof (Nat.mod_upper_bound n 2 ltac:(lia)) as Hb.
  rewrite H at 2. rewrite Nat.add_comm, Nat.even_add_mul_2.
  destruct (n mod 2) as [|[|r]]; simpl; [reflexivity | reflexivity | lia].
Qed.

Lemma count_anti_filter (self : stabilizer) (m : Stabilizer.measurement) :
  Stabilizer.count_anti self m =
  length (filter (anti_bit self (Stabilizer.m_type m)) (Stabilizer.m_qubits m)).
Proof.
  unfold Stabilizer.count_anti.
  set (f := fun (n : nat) (q : Z) => _).
  assert (H : forall l n,
             fold_left f l n =
             (n + length (filter (anti_bit self (Stabilizer.m_type m)) l))%nat).
  { induction l as [|q l IH]; intros n; simpl; [lia|].
    rewrite IH. unfold f, anti_bit.
    destruct (dict_get self q) as [o|]; [|lia].
    destruct (negb (op_eqb o (Stabilizer.m_type m))); simpl; lia. }
  now rewrite H.
Qed.

Lemma commutes_with_even (self : stabilizer) (m : Stabilizer.measurement) :
  Stabilizer.commutes_with self m =
  Nat.even (length (filter (anti_bit self (Stabilizer.m_type m))
                           (Stabilizer.m_qubits m))).
Proof.
  unfold Stabilizer.commutes_with. now rewrite even_mod2, count_anti_filter.
Qed.

Lemma even_filter_xor (f g h : Z -> bool) (l : list Z) :
  (forall q, h q = xorb (f q) (g q)) ->
  Nat.even (length (filter h l)) =
  Bool.eqb (Nat.even (length (filter f l))) (Nat.even (length (filter g l))).
Proof.
  intros Hh. induction l as [|q l IH]; [reflexivity|].
  simpl. rewrite Hh.
  destruct (f q), (g q); cbn [xorb length];
    rewrite ?Nat.even_succ, <- ?Nat.negb_even, IH;
    destruct (Nat.even (length (filter f l))), (Nat.even (length (filter g l)));
    reflexivity.
Qed.

Lemma xz_only_get (s : stabilizer) (q : Z) (o : op) :
  xz_only s -> dict_get s q = Some o -> o = PX \/ o = PZ.
Proof.
  intros H E. apply dict_get_some_in in E.
  unfold xz_only in H. rewrite Forall_forall in H. exact (H _ E).
Qed.

(** On operands over ['X'] and ['Z'] the counted bit of a product is the
    exclusive or of the counted bits. *)
Lemma anti_bit_multiply (s t : stabilizer) (ty : op) (q : Z) :
  wf_dict s -> wf_dict t -> xz_only s -> xz_only t -> ty = PX \/ ty = PZ ->
  anti_bit (Stabilizer.multiply s t) ty q = xorb (anti_bit s ty q) (anti_bit t ty q).
Proof.
  intros Hs Ht Xs Xt Hty. unfold anti_bit.
  rewrite dict_get_multiply by assumption.
  destruct (dict_get s q) as [a|] eqn:Ea; destruct (dict_get t q) as [b|] eqn:Eb.
  - destruct (xz_only_get _ _ _ Xs Ea) as [-> | ->],
             (xz_only_get _ _ _ Xt Eb) as [-> | ->], Hty as [-> | ->]; reflexivity.
  - simpl. now rewrite xorb_false_r.
  - reflexivity.
  - reflexivity.
Qed.

(** C2, amended to operands over ['X'] and ['Z']: when two such terms both
    commute with a measurement of type X or Z, so does their product. *)
Theorem commutant_closed_xz (s t : stabilizer) (Q : list Z) (ty : op) :
  wf_dict s -> wf_dict t -> xz_only s -> xz_only t -> ty = PX \/ ty = PZ ->
  let m := {| Stabilizer.m_qubits := Q; Stabilizer.m_type := ty |} in
  Stabilizer.commutes_with s m = true ->
  Stabilizer.commutes_with t m = true ->
  Stabilizer.commutes_with (Stabilizer.multiply s t) m = true.
Proof.
  intros Hs Ht Xs Xt Hty m. rewrite !commutes_with_even. simpl.
  intros Es Et.
  rewrite (even_filter_xor (anti_bit s ty) (anti_bit t ty)).
  - now rewrite Es, Et.
  - intros q. now apply anti_bit_multiply.
Qed.

Ltac solve_xz :=
  unfold xz_only; repeat (constructor; [simpl; auto|]); constructor.

Lemma commutant_closed_xz_witness :
  Stabilizer.commutes_with
    (Stabilizer.multiply [(1, PX); (6, PX)]%Z [(1, PZ); (2, PZ); (6, PZ); (7, PZ)]%Z)
    {| Stabilizer.m_qubits := [1; 6]%Z; Stabilizer.m_type := PZ |} = true.
Proof.
  apply (commutant_closed_xz
           [(1, PX); (6, PX)]%Z [(1, PZ); (2, PZ); (6, PZ); (7, PZ)]%Z [1; 6]%Z PZ);
    try solve_wf; try solve_xz; auto; reflexivity.
Defined.

(** C2 as stated fails once an operand holds ['Y']: both terms commute with
    the Z measurement on qubits 1 and 2, their product does not. *)
Lemma commutant_not_closed_with_Y :
  Stabilizer.commutes_with [(1, PX); (2, PX)]%Z
    {| Stabilizer.m_qubits := [1; 2]%Z; Stabilizer.m_type := PZ |} = true
  /\ Stabilizer.commutes_with [(1, PY); (2, PX)]%Z
       {| Stabilizer.m_qubits := [1; 2]%Z; Stabilizer.m_type := PZ |} = true
  /\ Stabilizer.commutes_with
       (Stabilizer.multiply [(1, PX); (2, PX)]%Z [(1, PY); (2, PX)]%Z)
       {| Stabilizer.m_qubits := [1; 2]%Z; Stabilizer.m_type := PZ |} = false.
Proof. repeat split. Qed.

(** ** The lattice *)

Lemma combine_seq_map {A : Type} (f : nat -> A) (a n : nat) :
  combine (seq a n) (map f (seq a n)) = map (fun i => (i, f i)) (seq a n).
Proof.
  revert a. induction n as [|n IH]; intros a; simpl; [reflexivity|].
  now rewrite IH.
Qed.

Ltac zbool :=
  repeat match goal with
         | |- context [(?a <=? ?b)%Z] => destruct (Z.leb_spec a b)
         | |- context [(?a <? ?b)%Z] => destruct (Z.ltb_spec a b)
         | |- context [(?a =? ?b)%Z] => destruct (Z.eqb_spec a b)
         end;
  cbn [andb orb negb app].

Lemma argwhere_row_affine (i : nat) (base : Z) (n : nat) (q : Z) :
  argwhere_row i (map (fun j => (base + Z.of_nat j)%Z) (seq 0 n)) q =
  if (base <=? q)%Z && (q <? base + Z.of_nat n)%Z
  then [(i, Z.to_nat (q - base))] else [].
Proof.
  unfold argwhere_row. rewrite length_map, length_seq, combine_seq_map.
  assert (H : forall n a,
             map (fun jv : nat * Z => (i, fst jv))
               (filter (fun jv : nat * Z => (snd jv =? q)%Z)
                  (map (fun j => (j, (base + Z.of_nat j)%Z)) (seq a n))) =
             if (base + Z.of_nat a <=? q)%Z && (q <? base + Z.of_nat a + Z.of_nat n)%Z
             then [(i, Z.to_nat (q - base))] else []).
  { clear n. induction n as [|n IH]; intros a.
    - cbn [seq map filter]. zbool; try reflexivity; lia.
    - cbn [seq map filter snd]. 
      destruct (Z.eqb_spec (base + Z.of_nat a) q) as [E|E].
      + cbn [map fst]. rewrite IH. zbool; try lia.
        do 2 f_equal. lia.
      + rewrite IH. zbool; try reflexivity; lia. }
  rewrite H. now rewrite Z.add_0_r.
Qed.

(** [np.argwhere(self.grid == q)] finds a valid id at its row-major
    coordinates and finds nothing for any other integer. *)
Lemma argwhere_grid (self : BaconShorCode) (q : Z) :
  argwhere (self_grid self) q =
  if in_grid self q then [coordinate_of self q] else [].
Proof.
  unfold argwhere, self_grid, grid, in_grid, num_qubits, coordinate_of.
  set (C := Z.of_nat (S (cols self))).
  assert (HC : (0 < C)%Z) by (unfold C; lia).
  rewrite length_map, length_seq, combine_seq_map.
  rewrite flat_map_concat_map, map_map. cbn [fst snd].
  rewrite <- flat_map_concat_map.
  set (R := fun i : nat => argwhere_row i _ q).
  assert (HR : forall i, R i =
                 if (1 + Z.of_nat i * C <=? q)%Z && (q <? 1 + Z.of_nat i * C + C)%Z
                 then [(i, Z.to_nat (q - (1 + Z.of_nat i * C)))] else []).
  { intros i. unfold R. now rewrite argwhere_row_affine. }
  clearbody R.
  assert (H : forall n a,
             flat_map R (seq a n) =
             if (1 + Z.of_nat a * C <=? q)%Z && (q <=? (Z.of_nat a + Z.of_nat n) * C)%Z
             then [(Z.to_nat ((q - 1) / C), Z.to_nat ((q - 1) mod C))] else []).
  { induction n as [|n IH]; intros a.
    - cbn [seq flat_map]. zbool; try reflexivity; lia.
    - cbn [seq flat_map]. rewrite IH, HR.
      destruct (Z.leb_spec (1 + Z.of_nat a * C) q) as [L1|L1];
        destruct (Z.ltb_spec q (1 + Z.of_nat a * C + C)) as [L2|L2]; cbn [andb].
      + (* q lies in row a *)
        assert (Hd : ((q - 1) / C = Z.of_nat a)%Z).
        { symmetry.
          apply (Z.div_unique_pos (q - 1) C (Z.of_nat a) (q - 1 - Z.of_nat a * C)); lia. }
        assert (Hm : ((q - 1) mod C = q - (1 + Z.of_nat a * C))%Z).
        { symmetry. apply (Z.mod_unique_pos (q - 1) C (Z.of_nat a)); lia. }
        rewrite Hd, Hm, Nat2Z.id. zbool; try reflexivity; lia.
      + zbool; try reflexivity; nia.
      + zbool; try reflexivity; nia.
      + lia. }
  rewrite H. zbool; try reflexivity; lia.
Qed.

Lemma abs_diff_sym (a b : nat) : abs_diff a b = abs_diff b a.
Proof. unfold abs_diff. lia. Qed.

Lemma abs_diff_nonneg (a b : nat) : (0 <= abs_diff a b)%Z.
Proof. unfold abs_diff. lia. Qed.

Lemma abs_diff_0 (a b : nat) : abs_diff a b = 0%Z <-> a = b.
Proof. unfold abs_diff. lia. Qed.

(** What [is_valid_measurement] answers, in terms of the lattice. *)
Lemma is_valid_measurement_spec (self : BaconShorCode) (a b : Z) :
  is_valid_measurement self (a, b) =
  if in_grid self a && in_grid self b
  then if is_adjacent self a b then (true, EmptyString) else (false, msg_not_adjacent)
  else (false, msg_not_in_grid).
Proof.
  unfold is_valid_measurement, is_adjacent. rewrite !argwhere_grid.
  destruct (in_grid self a), (in_grid self b); cbn [andb]; try reflexivity.
  pose proof (abs_diff_nonneg (fst (coordinate_of self a)) (fst (coordinate_of self b))).
  pose proof (abs_diff_nonneg (snd (coordinate_of self a)) (snd (coordinate_of self b))).
  zbool; try reflexivity; lia.
Qed.

Lemma get_measurement_type_in_grid (self : BaconShorCode) (a b : Z) :
  in_grid self a = true -> in_grid self b = true ->
  get_measurement_type self (a, b) =
  if (abs_diff (fst (coordinate_of self a)) (fst (coordinate_of self b)) =? 1)%Z
     && (snd (coordinate_of self a) =? snd (coordinate_of self b))%nat
  then Ok PX
  else if (abs_diff (snd (coordinate_of self a)) (snd (coordinate_of self b)) =? 1)%Z
          && (fst (coordinate_of self a) =? fst (coordinate_of self b))%nat
  then Ok PZ
  else Ok PNone.
Proof.
  intros Ha Hb. unfold get_measurement_type. rewrite !argwhere_grid, Ha, Hb.
  reflexivity.
Qed.

Lemma get_measurement_type_sym (self : BaconShorCode) (a b : Z) :
  get_measurement_type self (a, b) = get_measurement_type self (b, a).
Proof.
  unfold get_measurement_type. rewrite !argwhere_grid.
  destruct (in_grid self a), (in_grid self b); try reflexivity.
  rewrite (abs_diff_sym (fst (coordinate_of self a))),
          (abs_diff_sym (snd (coordinate_of self a))),
          (Nat.eqb_sym (fst (coordinate_of self a))),
          (Nat.eqb_sym (snd (coordinate_of self a))).
  reflexivity.
Qed.

(** C7: the edge type of a pair of qubit ids of the lattice does not depend
    on the order of the pair; it is [None] exactly when the pair is not
    adjacent; it is X for a vertical neighbour (one row apart, same column)
    and Z for a horizontal neighbour (one column apart, same row), hence
    never [None] for an adjacent pair. *)
Theorem edge_type_spec (self : BaconShorCode) (a b : Z) :
  in_grid self a = true -> in_grid self b = true ->
  let (r1, c1) := coordinate_of self a in
  let (r2, c2) := coordinate_of self b in
  get_measurement_type self (a, b) = get_measurement_type self (b, a)
  /\ (get_measurement_type self (a, b) = Ok PNone <-> is_adjacent self a b = false)
  /\ (abs_diff r1 r2 = 1%Z /\ c1 = c2 -> get_measurement_type self (a, b) = Ok PX)
  /\ (abs_diff c1 c2 = 1%Z /\ r1 = r2 -> get_measurement_type self (a, b) = Ok PZ)
  /\ (is_adjacent self a b = true ->
      get_measurement_type self (a, b) = Ok PX
      \/ get_measurement_type self (a, b) = Ok PZ).
Proof.
  intros Ha Hb.
  pose proof (get_measurement_type_in_grid self a b Ha Hb) as E.
  pose proof (get_measurement_type_sym self a b) as Hsym.
  unfold is_adjacent. rewrite Ha, Hb. cbn [andb].
  destruct (coordinate_of self a) as [r1 c1], (coordinate_of self b) as [r2 c2].
  cbn [fst snd] in *.
  pose proof (abs_diff_nonneg r1 r2). pose proof (abs_diff_nonneg c1 c2).
  pose proof (abs_diff_0 r1 r2). pose proof (abs_diff_0 c1 c2).
  split; [exact Hsym|]. rewrite E. clear E Hsym.
  destruct (Z.eqb_spec (abs_diff r1 r2) 1), (Nat.eqb_spec c1 c2),
           (Z.eqb_spec (abs_diff c1 c2) 1), (Nat.eqb_spec r1 r2),
           (Z.eqb_spec (abs_diff r1 r2 + abs_diff c1 c2) 1);
    cbn [andb]; repeat split; intros; try discriminate; try tauto; try lia;
    auto.
Qed.

Lemma edge_type_spec_witness :
  get_measurement_type (init 4 4) (1, 6)%Z = Ok PX
  /\ get_measurement_type (init 4 4) (6, 1)%Z = Ok PX.
Proof.
  pose proof (edge_type_spec (init 4 4) 1 6 eq_refl eq_refl) as H.
  cbn [coordinate_of] in H.
  destruct H as (Hsym & _ & HX & _).
  rewrite <- Hsym. split; apply HX; split; reflexivity.
Defined.

(** ** Validation of a batch *)

Lemma is_adjacent_in_grid (self : BaconShorCode) (a b : Z) :
  is_adjacent self a b = true -> in_grid self a && in_grid self b = true.
Proof.
  unfold is_adjacent. destruct (in_grid self a && in_grid self b); [reflexivity|].
  discriminate.
Qed.

Lemma validate_spec (self : BaconShorCode) (batch : list (Z * Z)) :
  validate self batch = (accepted self batch, rejected self batch).
Proof.
  induction batch as [|[a b] batch IH]; [reflexivity|].
  cbn [validate]. rewrite IH, is_valid_measurement_spec.
  unfold accepted, rejected. cbn [filter map fst snd].
  destruct (is_adjacent self a b) eqn:Eadj.
  - rewrite (is_adjacent_in_grid _ _ _ Eadj). reflexivity.
  - cbn [negb map].
    change (rejection_reason self (a, b))
      with (if in_grid self a && in_grid self b
            then msg_not_adjacent else msg_not_in_grid).
    destruct (in_grid self a && in_grid self b); reflexivity.
Qed.

Lemma accepted_idempotent (self : BaconShorCode) (batch : list (Z * Z)) :
  accepted self (accepted self batch) = accepted self batch.
Proof.
  unfold accepted. induction batch as [|p batch IH]; [reflexivity|].
  cbn [filter]. destruct (is_adjacent self (fst p) (snd p)) eqn:E; [|exact IH].
  cbn [filter]. now rewrite E, IH.
Qed.

(** C9: every pair of a batch is rejected with the out-of-range reason when
    an id is not a qubit of the lattice, rejected with the not-adjacent
    reason when both are qubits that are not neighbours, and accepted
    otherwise; the step goes on after a rejection, the rejected pairs are
    reported and take no part in the update, and the update is the one of
    the accepted pairs alone. *)
Theorem run_time_step_validation (it : IterOrder) (self : BaconShorCode)
        (batch : list (Z * Z)) :
  (forall a b,
      is_valid_measurement (tick self) (a, b) =
      if negb (in_grid self a && in_grid self b) then (false, msg_not_in_grid)
      else if negb (is_adjacent self a b) then (false, msg_not_adjacent)
      else (true, EmptyString))
  /\ fst (Interactive.run_time_step it self batch) = rejected self batch
  /\ snd (Interactive.run_time_step it self batch) =
     (self' <- Interactive.update_stabilizers it (tick self) (accepted self batch) ;;
      Ok {| rows := rows self'; cols := cols self';
            stabilizer_generators := stabilizer_generators self';
            time_step := time_step self';
            current_measurements := accepted self batch;
            measurements_history :=
              measurements_history self' ++ [accepted self batch] |})
  /\ snd (Interactive.run_time_step it self batch) =
     snd (Interactive.run_time_step it self (accepted self batch)).
Proof.
  assert (Hv : forall l, validate (tick self) l = (accepted self l, rejected self l)).
  { intros l. exact (validate_spec (tick self) l). }
  split; [|split; [|split]].
  - intros a b. rewrite is_valid_measurement_spec.
    change (in_grid (tick self)) with (in_grid self).
    change (is_adjacent (tick self)) with (is_adjacent self).
    destruct (in_grid self a && in_grid self b), (is_adjacent self a b); reflexivity.
  - unfold Interactive.run_time_step. now rewrite Hv.
  - unfold Interactive.run_time_step. now rewrite Hv.
  - unfold Interactive.run_time_step.
    rewrite !Hv, accepted_idempotent. reflexivity.
Qed.

(** ** Termination of the refined resolver *)

Lemma list_remove_length (l l' : list stabilizer) (x : stabilizer) :
  list_remove l x = Ok l' -> length l = S (length l').
Proof.
  revert l'. induction l as [|y l IH]; intros l'; cbn [list_remove]; [discriminate|].
  destruct (Stabilizer.eq y x).
  - intros [= <-]. reflexivity.
  - destruct (list_remove l x) as [r| |]; cbn [bind]; try discriminate.
    intros [= <-]. cbn [length]. now rewrite (IH r).
Qed.

Lemma combine_shrinks (gens : pyset) (acs : list stabilizer)
      (meas_stab stab1 stab2 : stabilizer) (gens' : pyset) (acs' : list stabilizer) :
  Interactive.combine gens acs meas_stab stab1 stab2 = Ok (gens', acs') ->
  length acs' < length acs /\ length acs <= length acs' + 2.
Proof.
  unfold Interactive.combine.
  destruct (list_remove acs stab1) as [a1| |] eqn:E1; cbn [bind]; try discriminate.
  destruct (list_remove a1 stab2) as [a2| |] eqn:E2; cbn [bind]; try discriminate.
  apply list_remove_length in E1, E2.
  destruct (negb (Stabilizer.is_trivial (Stabilizer.multiply stab1 stab2))).
  - destruct (measurement_of meas_stab) as [m| |]; cbn [bind]; try discriminate.
    destruct (negb (Stabilizer.commutes_with (Stabilizer.multiply stab1 stab2) m));
      intros [= <- <-]; rewrite ?length_app; cbn [length]; lia.
  - intros [= <- <-]. lia.
Qed.

Lemma bind_terminated {A B : Type} (c : outcome A) (k : A -> outcome B) :
  terminated c = true -> (forall a, terminated (k a) = true) ->
  terminated (x <- c ;; k x) = true.
Proof. destruct c; cbn [bind terminated]; auto. Qed.

Lemma mapM_terminated {A B : Type} (f : A -> outcome B) (l : list A) :
  (forall a, terminated (f a) = true) -> terminated (mapM f l) = true.
Proof.
  intros Hf. induction l as [|a l IH]; [reflexivity|].
  cbn [mapM]. apply bind_terminated; [apply Hf|]. intros b.
  apply bind_terminated; [exact IH|]. reflexivity.
Qed.

Lemma first_value_terminated (stab : stabilizer) :
  terminated (first_value stab) = true.
Proof. unfold first_value. now destruct (values stab). Qed.

Lemma measurement_of_terminated (stab : stabilizer) :
  terminated (measurement_of stab) = true.
Proof. unfold measurement_of. now destruct (values stab). Qed.

Lemma list_remove_terminated (l : list stabilizer) (x : stabilizer) :
  terminated (list_remove l x) = true.
Proof.
  induction l as [|y l IH]; [reflexivity|]. cbn [list_remove].
  destruct (Stabilizer.eq y x); [reflexivity|].
  apply bind_terminated; [exact IH | reflexivity].
Qed.

Lemma positions_terminated (self : BaconShorCode) (k : nat * nat -> nat)
      (stab : stabilizer) :
  terminated (Interactive.positions self k stab) = true.
Proof.
  apply mapM_terminated. intros q. apply bind_terminated; [|reflexivity].
  unfold get_qubit_position. now destruct (argwhere _ _).
Qed.

Lemma span_ok_terminated (self : BaconShorCode) (ty : op) (s1 s2 : stabilizer) :
  terminated (Interactive.span_ok self ty s1 s2) = true.
Proof.
  destruct ty; cbn [Interactive.span_ok]; try reflexivity;
    (apply bind_terminated; [apply positions_terminated|]; intros ?;
     apply bind_terminated; [apply positions_terminated|]; reflexivity).
Qed.

Lemma scan_partner_terminated (self : BaconShorCode) (stab1 : stabilizer) (ty : op)
      (rest : list stabilizer) :
  terminated (Interactive.scan_partner self stab1 ty rest) = true.
Proof.
  induction rest as [|stab2 rest IH]; [reflexivity|].
  cbn [Interactive.scan_partner].
  apply bind_terminated; [apply first_value_terminated|]. intros ty2.
  destruct (op_eqb ty ty2); [|exact IH].
  apply bind_terminated; [apply span_ok_terminated|]. intros [|]; [reflexivity|exact IH].
Qed.

Lemma scan_pairs_terminated (self : BaconShorCode) (l : list stabilizer) :
  terminated (Interactive.scan_pairs self l) = true.
Proof.
  induction l as [|stab1 rest IH]; [reflexivity|].
  cbn [Interactive.scan_pairs].
  apply bind_terminated; [apply first_value_terminated|]. intros ty.
  apply bind_terminated; [apply scan_partner_terminated|].
  intros [stab2|]; [reflexivity | exact IH].
Qed.

Lemma combine_terminated (gens : pyset) (acs : list stabilizer)
      (meas_stab stab1 stab2 : stabilizer) :
  terminated (Interactive.combine gens acs meas_stab stab1 stab2) = true.
Proof.
  unfold Interactive.combine.
  apply bind_terminated; [apply list_remove_terminated|]. intros a1.
  apply bind_terminated; [apply list_remove_terminated|]. intros a2.
  destruct (negb _); [|reflexivity].
  apply bind_terminated; [apply measurement_of_terminated|]. intros m.
  now destruct (negb _).
Qed.

Lemma anti_commuting_terminated (it : IterOrder) (gens : pyset) (meas_stab : stabilizer) :
  terminated (anti_commuting it gens meas_stab) = true.
Proof.
  unfold anti_commuting. destruct (iter it gens); [reflexivity|].
  apply bind_terminated; [apply measurement_of_terminated | reflexivity].
Qed.

Lemma resolve_fuel_irrelevant (self : BaconShorCode) (meas_stab : stabilizer) :
  forall fuel1 fuel2 gens acs,
    length acs < fuel1 -> length acs < fuel2 ->
    Interactive.resolve fuel1 self meas_stab gens acs =
    Interactive.resolve fuel2 self meas_stab gens acs
    /\ terminated (Interactive.resolve fuel1 self meas_stab gens acs) = true.
Proof.
  induction fuel1 as [|fuel1 IH]; intros fuel2 gens acs H1 H2; [lia|].
  destruct fuel2 as [|fuel2]; [lia|].
  cbn [Interactive.resolve].
  pose proof (scan_pairs_terminated self acs) as T1.
  destruct (Interactive.scan_pairs self acs) as [[[stab1 stab2]|]| |];
    cbn [bind]; try (split; reflexivity); try discriminate.
  pose proof (combine_terminated gens acs meas_stab stab1 stab2) as T2.
  destruct (Interactive.combine gens acs meas_stab stab1 stab2)
    as [[gens' acs']| |] eqn:E; cbn [bind fst snd];
    try (split; reflexivity); try discriminate.
  apply combine_shrinks in E. apply IH; lia.
Qed.

Lemma foldM_terminated {A S : Type} (f : S -> A -> outcome S) (l : list A) :
  (forall s a, terminated (f s a) = true) ->
  forall s, terminated (foldM f l s) = true.
Proof.
  intros Hf. induction l as [|a l IH]; intros s; [reflexivity|].
  cbn [foldM]. specialize (Hf s a).
  destruct (f s a); cbn [bind]; auto.
Qed.

Lemma adjust_one_terminated (it : IterOrder) (self : BaconShorCode)
      (gens : pyset) (meas_stab : stabilizer) :
  terminated (Interactive.adjust_one it self gens meas_stab) = true.
Proof.
  unfold Interactive.adjust_one, Interactive.resolve_and_discard.
  pose proof (anti_commuting_terminated it gens meas_stab) as T0.
  destruct (anti_commuting it gens meas_stab) as [acs| |] eqn:E; cbn [bind];
    try reflexivity; try discriminate.
  destruct (resolve_fuel_irrelevant self meas_stab (S (length acs)) (S (length acs))
              gens acs ltac:(lia) ltac:(lia)) as [_ T].
  destruct (Interactive.resolve _ _ _ _ _); cbn [bind]; auto.
Qed.

(** C10: the anti-commutation resolution ends on every generator set and
    every list of measurement terms.  A pass that combines two members of
    the working list leaves it strictly shorter (two removed, at most one
    appended); the restart loop therefore ends within
    [S (length working_list)] passes, further fuel changes nothing, and
    [adjust_stabilizers] as a whole never runs out of fuel. *)
Theorem adjust_stabilizers_terminates (it : IterOrder) (self : BaconShorCode)
        (measurement_stabilizers : list stabilizer)
        (meas_stab : stabilizer) (gens : pyset) (acs : list stabilizer)
        (extra : nat) :
  match Interactive.scan_pairs self acs with
  | Ok (Some (stab1, stab2)) =>
      match Interactive.combine gens acs meas_stab stab1 stab2 with
      | Ok (_, acs') => length acs' < length acs /\ length acs <= length acs' + 2
      | _ => True
      end
  | _ => True
  end
  /\ Interactive.resolve (S (length acs) + extra) self meas_stab gens acs =
     Interactive.resolve (S (length acs)) self meas_stab gens acs
  /\ terminated (Interactive.resolve (S (length acs)) self meas_stab gens acs) = true
  /\ terminated (Interactive.adjust_stabilizers it self measurement_stabilizers) = true.
Proof.
  split; [|split; [|split]].
  - destruct (Interactive.scan_pairs self acs) as [[[stab1 stab2]|]| |]; try exact I.
    destruct (Interactive.combine gens acs meas_stab stab1 stab2)
      as [[gens' acs']| |] eqn:E; try exact I.
    now apply combine_shrinks in E.
  - apply resolve_fuel_irrelevant; lia.
  - apply (resolve_fuel_irrelevant self meas_stab (S (length acs)) (S (length acs)));
      lia.
  - unfold Interactive.adjust_stabilizers, Interactive.adjust.
    pose proof (foldM_terminated (Interactive.adjust_one it self)
                  measurement_stabilizers (adjust_one_terminated it self)
                  (stabilizer_generators self)) as T.
    destruct (foldM _ _ _); cbn [bind]; auto.
Qed.

(** ** Sets built by [add] *)

Lemma set_mem_app (x : stabilizer) (s1 s2 : pyset) :
  set_mem x (s1 ++ s2) = set_mem x s1 || set_mem x s2.
Proof. unfold set_mem. apply existsb_app. Qed.

Lemma set_mem_false (x : stabilizer) (s : pyset) :
  set_mem x s = false <-> Forall (fun old => Stabilizer.eq x old = false) s.
Proof.
  unfold set_mem. induction s as [|y s IH]; cbn [existsb].
  - split; [constructor | reflexivity].
  - rewrite orb_false_iff, IH. split.
    + intros [H1 H2]. now constructor.
    + intros H. inversion H; subst. now split.
Qed.

Lemma ForallOrdPairs_snoc {A : Type} (R : A -> A -> Prop) (l : list A) (x : A) :
  ForallOrdPairs R l -> Forall (fun y => R y x) l -> ForallOrdPairs R (l ++ [x]).
Proof.
  induction 1 as [|a l Ha Hl IH]; intros Hx; cbn [app].
  - constructor; constructor.
  - inversion Hx; subst. constructor; [|auto].
    apply Forall_app. split; [assumption | now constructor].
Qed.

Lemma set_add_nodup (s : pyset) (x : stabilizer) :
  set_nodup s -> set_nodup (set_add s x).
Proof.
  unfold set_add, set_nodup. intros H.
  destruct (set_mem x s) eqn:E; [assumption|].
  apply ForallOrdPairs_snoc; [assumption|]. now apply set_mem_false.
Qed.

Lemma fold_set_add_nodup (l : list stabilizer) (s : pyset) :
  set_nodup s -> set_nodup (fold_left set_add l s).
Proof.
  revert s. induction l as [|x l IH]; intros s H; cbn [fold_left]; [assumption|].
  apply IH. now apply set_add_nodup.
Qed.

Lemma set_add_in (s : pyset) (x g : stabilizer) :
  In g (set_add s x) -> In g s \/ g = x.
Proof.
  unfold set_add. destruct (set_mem x s); [now left|].
  intros H. apply in_app_or in H. destruct H as [H|[H|[]]]; auto.
Qed.

Lemma fold_set_add_in (l : list stabilizer) (s : pyset) (g : stabilizer) :
  In g (fold_left set_add l s) -> In g s \/ In g l.
Proof.
  revert s. induction l as [|x l IH]; intros s H; cbn [fold_left] in H; [now left|].
  apply IH in H. destruct H as [H|H]; [|right; now right].
  apply set_add_in in H. destruct H as [H| ->]; [now left | right; now left].
Qed.

Lemma stabilizer_eq_refl (s : stabilizer) : wf_dict s -> Stabilizer.eq s s = true.
Proof. intros H. now apply stabilizer_eq_spec. Qed.

Lemma stabilizer_eq_sym (s t : stabilizer) :
  wf_dict s -> wf_dict t -> Stabilizer.eq s t = Stabilizer.eq t s.
Proof.
  intros Hs Ht. apply eq_true_iff_eq.
  rewrite !stabilizer_eq_spec by assumption. split; intros H q; now rewrite H.
Qed.

Lemma set_mem_set_add (x y : stabilizer) (s : pyset) :
  set_mem x s = true -> set_mem x (set_add s y) = true.
Proof.
  intros H. unfold set_add. destruct (set_mem y s); [assumption|].
  now rewrite set_mem_app, H.
Qed.

Lemma set_mem_set_add_same (x : stabilizer) (s : pyset) :
  wf_dict x -> set_mem x (set_add s x) = true.
Proof.
  intros Hx. unfold set_add. destruct (set_mem x s) eqn:E; [assumption|].
  rewrite set_mem_app. cbn [set_mem existsb].
  now rewrite (stabilizer_eq_refl x Hx), orb_true_r.
Qed.

Lemma fold_set_add_mem_keep (l : list stabilizer) (s : pyset) (x : stabilizer) :
  set_mem x s = true -> set_mem x (fold_left set_add l s) = true.
Proof.
  revert s. induction l as [|y l IH]; intros s H; cbn [fold_left]; [assumption|].
  apply IH. now apply set_mem_set_add.
Qed.

Lemma fold_set_add_mem (l : list stabilizer) (s : pyset) (x : stabilizer) :
  wf_dict x -> In x l -> set_mem x (fold_left set_add l s) = true.
Proof.
  intros Hx. revert s. induction l as [|y l IH]; intros s Hin; [destruct Hin|].
  cbn [fold_left]. destruct Hin as [E|Hin].
  - subst y. apply fold_set_add_mem_keep. now apply set_mem_set_add_same.
  - now apply IH.
Qed.

(** Adding members that are new and pairwise different appends them. *)
Lemma fold_set_add_fresh (l : list stabilizer) (s : pyset) :
  Forall (fun x => set_mem x s = false) l -> set_nodup l ->
  fold_left set_add l s = s ++ l.
Proof.
  revert s. induction l as [|x l IH]; intros s Hs Hl; cbn [fold_left].
  - now rewrite app_nil_r.
  - inversion Hs as [|? ? Hx Hs']; subst. inversion Hl as [|? ? Hxl Hl']; subst.
    unfold set_add at 2. rewrite Hx. rewrite IH; [now rewrite <- app_assoc| |assumption].
    rewrite Forall_forall in *. intros y Hy.
    rewrite set_mem_app, (Hs' y Hy). cbn [set_mem existsb orb].
    now rewrite (Hxl y Hy).
Qed.

(** ** The first time step *)

Lemma is_adjacent_distinct (self : BaconShorCode) (a b : Z) :
  is_adjacent self a b = true -> a <> b.
Proof.
  unfold is_adjacent. intros H E. subst b.
  apply andb_true_iff in H. destruct H as [_ H].
  unfold abs_diff in H. rewrite !Z.sub_diag in H. discriminate.
Qed.

Lemma meas_stab_of_adjacent (self : BaconShorCode) (p : Z * Z) :
  is_adjacent self (fst p) (snd p) = true ->
  meas_stab_of self p = Ok (measurement_term self p).
Proof.
  destruct p as [a b]. cbn [fst snd]. intros Hadj.
  pose proof (is_adjacent_distinct self a b Hadj) as Hne.
  pose proof (is_adjacent_in_grid self a b Hadj) as Hin.
  apply andb_true_iff in Hin. destruct Hin as [Ha Hb].
  unfold meas_stab_of, measurement_term.
  rewrite (get_measurement_type_in_grid self a b Ha Hb). cbn [fst snd].
  unfold is_adjacent in Hadj. rewrite Ha, Hb in Hadj. cbn [andb] in Hadj.
  destruct (coordinate_of self a) as [r1 c1], (coordinate_of self b) as [r2 c2].
  cbn [fst snd] in *.
  pose proof (abs_diff_nonneg r1 r2). pose proof (abs_diff_nonneg c1 c2).
  pose proof (abs_diff_0 r1 r2). pose proof (abs_diff_0 c1 c2).
  apply Z.eqb_eq in Hadj.
  assert (Hset : forall ty, dict_set (dict_set [] a ty) b ty = [(a, ty); (b, ty)]).
  { intros ty. cbn [dict_set]. destruct (Z.eqb_spec a b); [contradiction|reflexivity]. }
  destruct (Nat.eqb_spec c1 c2) as [Ec|Ec].
  - assert (E1 : (abs_diff r1 r2 =? 1)%Z = true) by (apply Z.eqb_eq; lia).
    rewrite E1. cbn [andb bind]. now rewrite Hset.
  - rewrite andb_false_r.
    assert (E1 : (abs_diff c1 c2 =? 1)%Z = true) by (apply Z.eqb_eq; lia).
    assert (E2 : (r1 =? r2)%nat = true) by (apply Nat.eqb_eq; lia).
    rewrite E1, E2. cbn [andb bind]. now rewrite Hset.
Qed.

Lemma mapM_meas_stab_of (self : BaconShorCode) (batch : list (Z * Z)) :
  Forall (fun p => is_adjacent self (fst p) (snd p) = true) batch ->
  mapM (meas_stab_of self) batch = Ok (map (measurement_term self) batch).
Proof.
  induction 1 as [|p batch Hp _ IH]; [reflexivity|].
  cbn [mapM map]. rewrite (meas_stab_of_adjacent self p Hp). cbn [bind].
  now rewrite IH.
Qed.

Lemma accepted_all (self : BaconShorCode) (batch : list (Z * Z)) :
  Forall (fun p => is_adjacent self (fst p) (snd p) = true) batch ->
  accepted self batch = batch.
Proof.
  unfold accepted. induction 1 as [|p batch Hp _ IH]; [reflexivity|].
  cbn [filter]. now rewrite Hp, IH.
Qed.

Lemma measurement_term_wf (self : BaconShorCode) (p : Z * Z) :
  is_adjacent self (fst p) (snd p) = true -> wf_dict (measurement_term self p).
Proof.
  intros H. apply is_adjacent_distinct in H.
  unfold measurement_term, wf_dict. cbn [keys map fst].
  constructor; [|constructor; [intros []|constructor]].
  intros [E|[]]. congruence.
Qed.

Lemma measurement_term_eq_overlap (self : BaconShorCode) (p p' : Z * Z) :
  Stabilizer.eq (measurement_term self p) (measurement_term self p') = true ->
  fst p = fst p' \/ fst p = snd p'.
Proof.
  unfold Stabilizer.eq, measurement_term. cbn [length forallb fst snd dict_get].
  rewrite Nat.eqb_refl. cbn [andb].
  destruct (Z.eqb_spec (fst p') (fst p)); [now left|].
  destruct (Z.eqb_spec (snd p') (fst p)); [now right|].
  discriminate.
Qed.

Lemma non_overlapping_terms (self : BaconShorCode) (batch : list (Z * Z)) :
  non_overlapping batch -> set_nodup (map (measurement_term self) batch).
Proof.
  unfold non_overlapping, set_nodup.
  induction batch as [|p batch IH]; intros Hnd; cbn [map]; [constructor|].
  cbn [flat_map app] in Hnd.
  inversion Hnd as [|? ? H1 Hnd1]; subst. inversion Hnd1 as [|? ? H2 Hnd2]; subst.
  constructor; [|now apply IH].
  apply Forall_forall. intros t Ht. apply in_map_iff in Ht.
  destruct Ht as [p' [<- Hp']].
  destruct (Stabilizer.eq (measurement_term self p') (measurement_term self p)) eqn:E;
    [|reflexivity].
  exfalso. apply measurement_term_eq_overlap in E.
  assert (Hin : In (fst p') (flat_map (fun p : Z * Z => [fst p; snd p]) batch)).
  { apply in_flat_map. exists p'. split; [assumption | now left]. }
  destruct E as [E|E]; rewrite E in Hin.
  - apply H1. now right.
  - now apply H2.
Qed.

(** C8: the first call of [run_time_step] (the object has made no step yet)
    on a batch of valid pairs leaves as generator set exactly the terms built
    from the batch: every generator is the term of a pair, every pair's term
    is a member, no two members are equal, and for a non-overlapping batch
    the set is the list of the terms itself; the generators held before are
    dropped and neither the resolver nor the simplification runs. *)
Theorem bootstrap_exact (it : IterOrder) (self : BaconShorCode)
        (batch : list (Z * Z)) :
  time_step self = 0 ->
  Forall (fun p => is_adjacent self (fst p) (snd p) = true) batch ->
  exists gens,
    snd (Interactive.run_time_step it self batch) =
    Ok {| rows := rows self; cols := cols self;
          stabilizer_generators := gens;
          time_step := 1;
          current_measurements := batch;
          measurements_history := measurements_history self ++ [batch] |}
    /\ (forall g, In g gens -> In g (map (measurement_term self) batch))
    /\ (forall p, In p batch -> set_mem (measurement_term self p) gens = true)
    /\ set_nodup gens
    /\ (non_overlapping batch -> gens = map (measurement_term self) batch).
Proof.
  intros Hts Hvalid.
  exists (fold_left set_add (map (measurement_term self) batch) []).
  split; [|split; [|split; [|split]]].
  - unfold Interactive.run_time_step.
    rewrite (validate_spec (tick self) batch).
    change (accepted (tick self) batch) with (accepted self batch).
    rewrite (accepted_all self batch Hvalid).
    unfold Interactive.update_stabilizers.
    change (meas_stab_of (tick self)) with (meas_stab_of self).
    rewrite (mapM_meas_stab_of self batch Hvalid). cbn [bind].
    change (time_step (tick self)) with (S (time_step self)). rewrite Hts.
    cbn [Nat.eqb bind snd].
    unfold with_generators, tick.
    cbn [rows cols stabilizer_generators time_step measurements_history].
    now rewrite Hts.
  - intros g Hg. apply fold_set_add_in in Hg. destruct Hg as [[]|Hg]. exact Hg.
  - intros p Hp. apply fold_set_add_mem.
    + apply measurement_term_wf. rewrite Forall_forall in Hvalid. now apply Hvalid.
    + now apply in_map.
  - apply fold_set_add_nodup. constructor.
  - intros Hno. rewrite fold_set_add_fresh; [reflexivity| |].
    + apply Forall_forall. reflexivity.
    + now apply non_overlapping_terms.
Qed.

Ltac solve_nodup :=
  simpl; repeat (constructor; [simpl; intuition discriminate|]); constructor.

Lemma bootstrap_exact_witness :
  exists gens,
    snd (Interactive.run_time_step insertion_order (init 4 4)
           [(1, 2); (3, 4); (6, 7); (8, 9)]%Z) =
    Ok {| rows := 4; cols := 4;
          stabilizer_generators := gens;
          time_step := 1;
          current_measurements := [(1, 2); (3, 4); (6, 7); (8, 9)]%Z;
          measurements_history := [[(1, 2); (3, 4); (6, 7); (8, 9)]%Z] |}
    /\ gens = [[(1, PZ); (2, PZ)]; [(3, PZ); (4, PZ)];
               [(6, PZ); (7, PZ)]; [(8, PZ); (9, PZ)]]%Z.
Proof.
  destruct (bootstrap_exact insertion_order (init 4 4)
              [(1, 2); (3, 4); (6, 7); (8, 9)]%Z eq_refl)
    as (gens & Hrun & _ & _ & _ & Hexact).
  - repeat constructor.
  - exists gens. split; [exact Hrun|].
    rewrite Hexact; [reflexivity|]. unfold non_overlapping. solve_nodup.
Defined.

(** ** The simplification pass *)

Lemma sorted_by_weight_perm (l : list stabilizer) :
  Permutation (sorted_by_weight l) l.
Proof.
  assert (Hins : forall x l', Permutation (insert_by_weight x l') (x :: l')).
  { intros x l'. induction l' as [|y l' IH]; cbn [insert_by_weight]; [reflexivity|].
    destruct (length x <=? length y); [reflexivity|].
    rewrite IH. apply perm_swap. }
  induction l as [|x l IH]; cbn [sorted_by_weight fold_right]; [reflexivity|].
  rewrite Hins. now apply perm_skip.
Qed.

Lemma ForallOrdPairs_perm {A : Type} (R : A -> A -> Prop) (l l' : list A) :
  (forall x y, R x y -> R y x) ->
  Permutation l l' -> ForallOrdPairs R l -> ForallOrdPairs R l'.
Proof.
  intros Hsym. induction 1 as [|x l l' Hp IH|x y l|l l' l'' _ IH1 _ IH2]; intros H.
  - assumption.
  - inversion H; subst. constructor; [|auto].
    eapply Permutation_Forall; eassumption.
  - inversion H as [|? ? Hy Hxl]; subst. inversion Hy; subst.
    inversion Hxl; subst.
    constructor; [constructor; auto | constructor; assumption].
  - auto.
Qed.

Lemma antichain_perm (l l' : pyset) :
  Permutation l l' -> antichain l -> antichain l'.
Proof. apply ForallOrdPairs_perm. tauto. Qed.

Lemma all_nontrivial_perm (l l' : pyset) :
  Permutation l l' -> all_nontrivial l -> all_nontrivial l'.
Proof. intros Hp. apply (Permutation_Forall Hp). Qed.

Lemma eq_items_subset (a b : stabilizer) :
  Stabilizer.eq a b = true -> Stabilizer.items_subset a b = true.
Proof. unfold Stabilizer.eq. intros H. now apply andb_true_iff in H. Qed.

Lemma items_subset_same_length (a b : stabilizer) :
  Stabilizer.items_subset a b = true -> length a = length b ->
  Stabilizer.eq a b = true.
Proof.
  intros H E. unfold Stabilizer.eq. rewrite E, Nat.eqb_refl. exact H.
Qed.

(** One visit of the inner loop of [simplify_stabilizers]. *)
Lemma reduce_step_keeps (l : list stabilizer) (stab : stabilizer) :
  Forall (fun r => Stabilizer.items_subset r stab = false) l ->
  fold_left
    (fun stab simple_stab =>
       if Stabilizer.items_subset simple_stab stab
       then Stabilizer.multiply stab simple_stab else stab) l stab = stab.
Proof.
  induction 1 as [|r l Hr _ IH]; cbn [fold_left]; [reflexivity|].
  now rewrite Hr.
Qed.

Lemma reduce_by_keeps (it : IterOrder) (simplified : pyset) (stab : stabilizer) :
  Forall (fun r => Stabilizer.items_subset r stab = false) simplified ->
  Interactive.reduce_by it simplified stab = stab.
Proof.
  intros H. apply reduce_step_keeps.
  eapply Permutation_Forall; [|exact H]. symmetry. apply iter_perm.
Qed.

Lemma antichain_app_inv (acc : pyset) (x : stabilizer) (l : pyset) :
  antichain (acc ++ x :: l) ->
  Forall (fun r => Stabilizer.items_subset r x = false) acc
  /\ Forall (fun r => Stabilizer.items_subset x r = false) acc.
Proof.
  induction acc as [|a acc IH]; cbn [app]; intros H; [split; constructor|].
  inversion H as [|? ? Ha Hrest]; subst.
  destruct (IH Hrest) as [H1 H2].
  rewrite Forall_app in Ha. destruct Ha as [_ Ha]. inversion Ha as [|? ? [Hax Hxa] _]; subst.
  split; constructor; assumption.
Qed.

(** On a list of non-trivial terms none of which contains another, the pass
    accepts every term unchanged. *)
Lemma simplify_fold_antichain (it : IterOrder) (l acc : pyset) :
  antichain (acc ++ l) -> all_nontrivial l ->
  fold_left (Interactive.simplify_entry it) l acc = acc ++ l.
Proof.
  revert acc. induction l as [|x l IH]; intros acc Ha Hn; cbn [fold_left].
  - now rewrite app_nil_r.
  - inversion Hn as [|? ? Hx Hn']; subst.
    destruct (antichain_app_inv acc x l Ha) as [H1 H2].
    unfold Interactive.simplify_entry at 2.
    rewrite (reduce_by_keeps it acc x H1), Hx. cbn [negb].
    assert (Hmem : set_mem x acc = false).
    { apply set_mem_false. rewrite Forall_forall in *. intros r Hr.
      destruct (Stabilizer.eq x r) eqn:E; [|reflexivity].
      apply eq_items_subset in E. now rewrite (H2 r Hr) in E. }
    unfold set_add. rewrite Hmem.
    rewrite IH; [now rewrite <- app_assoc | now rewrite <- app_assoc | assumption].
Qed.

Lemma simplify_antichain (it : IterOrder) (gens : pyset) :
  antichain gens -> all_nontrivial gens ->
  Interactive.simplify it gens = sorted_by_weight (iter it gens).
Proof.
  intros Ha Hn. unfold Interactive.simplify.
  assert (Hp : Permutation gens (sorted_by_weight (iter it gens))).
  { symmetry. rewrite sorted_by_weight_perm. apply iter_perm. }
  apply (simplify_fold_antichain it _ []); cbn [app].
  - exact (antichain_perm _ _ Hp Ha).
  - exact (all_nontrivial_perm _ _ Hp Hn).
Qed.

Lemma simplify_antichain_perm (it : IterOrder) (gens : pyset) :
  antichain gens -> all_nontrivial gens ->
  Permutation (Interactive.simplify it gens) gens.
Proof.
  intros Ha Hn. rewrite (simplify_antichain it gens Ha Hn).
  rewrite sorted_by_weight_perm. apply iter_perm.
Qed.

Lemma simplify_entry_nontrivial (it : IterOrder) (simplified : pyset) (stab : stabilizer) :
  all_nontrivial simplified ->
  all_nontrivial (Interactive.simplify_entry it simplified stab).
Proof.
  intros H. unfold Interactive.simplify_entry.
  destruct (Stabilizer.is_trivial (Interactive.reduce_by it simplified stab)) eqn:E;
    cbn [negb]; [assumption|].
  unfold set_add. destruct (set_mem _ simplified); [assumption|].
  apply Forall_app. split; [assumption | now constructor].
Qed.

Lemma simplify_nontrivial (it : IterOrder) (gens : pyset) :
  all_nontrivial (Interactive.simplify it gens).
Proof.
  unfold Interactive.simplify.
  assert (H : forall l acc, all_nontrivial acc ->
                            all_nontrivial (fold_left (Interactive.simplify_entry it) l acc)).
  { induction l as [|x l IH]; intros acc Hacc; cbn [fold_left]; [assumption|].
    apply IH. now apply simplify_entry_nontrivial. }
  apply H. constructor.
Qed.

(** C3, amended: a second pass of [simplify] returns the same generator set
    as the first whenever the first pass leaves no generator whose items
    contain the items of another generator. *)
Theorem simplify_idempotent_on_antichain (it : IterOrder) (gens : pyset) :
  antichain (Interactive.simplify it gens) ->
  Permutation (Interactive.simplify it (Interactive.simplify it gens))
              (Interactive.simplify it gens).
Proof.
  intros Ha. apply simplify_antichain_perm; [exact Ha|]. apply simplify_nontrivial.
Qed.

Lemma Permutation_length_3_inv {A : Type} (a b c : A) (l : list A) :
  Permutation [a; b; c] l ->
  l = [a; b; c] \/ l = [a; c; b] \/ l = [b; a; c] \/
  l = [b; c; a] \/ l = [c; a; b] \/ l = [c; b; a].
Proof.
  intros H.
  assert (Hlen := Permutation_length H). 
  destruct l as [|x [|y [|z [|w l]]]]; try discriminate.
  assert (Hx : In x [a; b; c]) by (eapply Permutation_in; [symmetry; exact H | now left]).
  destruct Hx as [E|[E|[E|[]]]]; subst x.
  - apply Permutation_cons_inv in H. apply Permutation_length_2_inv in H.
    destruct H as [[= -> ->]|[= -> ->]]; auto.
  - assert (H' : Permutation [a; c] [y; z]).
    { apply (Permutation_cons_inv (a := b)). rewrite <- H. apply perm_swap. }
    apply Permutation_length_2_inv in H'.
    destruct H' as [[= -> ->]|[= -> ->]]; auto 7.
  - assert (H' : Permutation [a; b] [y; z]).
    { apply (Permutation_cons_inv (a := c)). rewrite <- H.
      transitivity [a; c; b]; [apply perm_swap | apply perm_skip, perm_swap]. }
    apply Permutation_length_2_inv in H'.
    destruct H' as [[= -> ->]|[= -> ->]]; auto 7.
Qed.

(** Case analysis on the order in which a set of at most three known
    members is enumerated: the innermost enumeration whose argument is
    closed is evaluated and replaced by each of its possible orders. *)
Ltac iter_step f Hf :=
  match goal with
  | |- context [f ?l] =>
      lazymatch l with
      | context [f] => fail
      | _ => idtac
      end;
      let v := eval vm_compute in l in
      let H := fresh "Hit" in
      pose proof (Permutation_sym (Hf v)) as H;
      change (f l) with (f v);
      lazymatch v with
      | nil => apply Permutation_nil in H
      | cons _ nil => apply Permutation_length_1_inv in H
      | cons _ (cons _ nil) =>
          apply Permutation_length_2_inv in H; destruct H as [H|H]
      | cons _ (cons _ (cons _ nil)) =>
          apply Permutation_length_3_inv in H;
          destruct H as [H|[H|[H|[H|[H|H]]]]]
      end;
      rewrite H; clear H
  end.

(** The set on which a second pass differs, whatever the iteration order:
    the first pass leaves [Z1 Z2], [Z5 Z6] and [Z1]; the second accepts [Z1]
    first and cuts [Z1 Z2] down to [Z2]. *)
Lemma simplify_twice_differs (it : IterOrder) :
  set_eqb
    (Interactive.simplify it
       (Interactive.simplify it
          [[(1, PZ); (2, PZ)]; [(5, PZ); (6, PZ)]; [(1, PZ); (5, PZ); (6, PZ)]]%Z))
    (Interactive.simplify it
       [[(1, PZ); (2, PZ)]; [(5, PZ); (6, PZ)]; [(1, PZ); (5, PZ); (6, PZ)]]%Z)
  = false.
Proof.
  destruct it as [f Hf].
  unfold Interactive.simplify, Interactive.simplify_entry, Interactive.reduce_by.
  cbn [iter].
  repeat (cbn [fold_left sorted_by_weight fold_right insert_by_weight length Nat.leb];
          iter_step f Hf);
    vm_compute; reflexivity.
Qed.

(** C3 as stated fails: on the three non-trivial terms [Z1 Z2], [Z5 Z6] and
    [Z1 Z5 Z6] the second pass returns a different generator set. *)
Lemma simplify_not_idempotent :
  Interactive.simplify insertion_order
    [[(1, PZ); (2, PZ)]; [(5, PZ); (6, PZ)]; [(1, PZ); (5, PZ); (6, PZ)]]%Z
  = [[(1, PZ); (2, PZ)]; [(5, PZ); (6, PZ)]; [(1, PZ)]]%Z
  /\ Interactive.simplify insertion_order
       (Interactive.simplify insertion_order
          [[(1, PZ); (2, PZ)]; [(5, PZ); (6, PZ)]; [(1, PZ); (5, PZ); (6, PZ)]]%Z)
     = [[(1, PZ)]; [(2, PZ)]; [(5, PZ); (6, PZ)]]%Z
  /\ set_eqb
       (Interactive.simplify insertion_order
          (Interactive.simplify insertion_order
             [[(1, PZ); (2, PZ)]; [(5, PZ); (6, PZ)]; [(1, PZ); (5, PZ); (6, PZ)]]%Z))
       (Interactive.simplify insertion_order
          [[(1, PZ); (2, PZ)]; [(5, PZ); (6, PZ)]; [(1, PZ); (5, PZ); (6, PZ)]]%Z)
     = false.
Proof. repeat split. Qed.

Lemma simplify_idempotent_on_antichain_witness :
  Permutation
    (Interactive.simplify insertion_order
       (Interactive.simplify insertion_order
          [[(1, PZ); (2, PZ)]; [(1, PZ); (2, PZ); (6, PZ); (7, PZ)]; [(1, PX); (6, PX)]]%Z))
    (Interactive.simplify insertion_order
       [[(1, PZ); (2, PZ)]; [(1, PZ); (2, PZ); (6, PZ); (7, PZ)]; [(1, PX); (6, PX)]]%Z).
Proof.
  apply (simplify_idempotent_on_antichain insertion_order
           [[(1, PZ); (2, PZ)]; [(1, PZ); (2, PZ); (6, PZ); (7, PZ)]; [(1, PX); (6, PX)]]%Z).
  vm_compute. repeat constructor.
Defined.

(** ** What the pass guarantees *)

Lemma op_mul_none_r (a : option op) : op_mul a None = a.
Proof. now destruct a. Qed.

Lemma multiply_subset_within (cur s r : stabilizer) :
  wf_dict cur -> wf_dict s ->
  Stabilizer.items_subset s cur = true ->
  Stabilizer.items_subset r (Stabilizer.multiply cur s) = true ->
  Stabilizer.items_subset r cur = true.
Proof.
  intros Hc Hs Hsub Hr. rewrite items_subset_spec in *.
  intros k v Hin. specialize (Hr k v Hin).
  rewrite dict_get_multiply in Hr by assumption.
  destruct (dict_get s k) as [w|] eqn:E.
  - apply dict_get_some_in in E. rewrite (Hsub k w E) in Hr. cbn [op_mul] in Hr.
    rewrite op_eqb_refl in Hr. discriminate.
  - now rewrite op_mul_none_r in Hr.
Qed.

Lemma multiply_subset_removes (cur s : stabilizer) :
  wf_dict cur -> wf_dict s -> Stabilizer.is_trivial s = false ->
  Stabilizer.items_subset s cur = true ->
  Stabilizer.items_subset s (Stabilizer.multiply cur s) = false.
Proof.
  intros Hc Hs Hn Hsub.
  destruct (Stabilizer.items_subset s (Stabilizer.multiply cur s)) eqn:E; [|reflexivity].
  exfalso. destruct s as [|[k v] s']; [discriminate|].
  rewrite items_subset_spec in *.
  specialize (E k v (or_introl eq_refl)). specialize (Hsub k v (or_introl eq_refl)).
  rewrite dict_get_multiply in E by assumption.
  rewrite Hsub in E. cbn [dict_get] in E. rewrite Z.eqb_refl in E.
  cbn [op_mul] in E. rewrite op_eqb_refl in E. discriminate.
Qed.

Lemma reduce_fold_not_within (l visited : list stabilizer) (cur : stabilizer) :
  wf_dict cur -> Forall wf_dict l -> all_nontrivial l ->
  Forall (fun r => Stabilizer.items_subset r cur = false) visited ->
  let final :=
    fold_left
      (fun stab simple_stab =>
         if Stabilizer.items_subset simple_stab stab
         then Stabilizer.multiply stab simple_stab else stab) l cur in
  wf_dict final
  /\ Forall (fun r => Stabilizer.items_subset r final = false) (visited ++ l).
Proof.
  revert visited cur. induction l as [|s l IH]; intros visited cur Hc Hl Hn Hv.
  - cbn [fold_left]. rewrite app_nil_r. now split.
  - inversion Hl as [|? ? Hs Hl']; subst. inversion Hn as [|? ? Hns Hn']; subst.
    cbn [fold_left].
    replace (visited ++ s :: l) with ((visited ++ [s]) ++ l)
      by (now rewrite <- app_assoc).
    destruct (Stabilizer.items_subset s cur) eqn:E.
    + apply IH; try assumption; [now apply wf_multiply|].
      apply Forall_app. split.
      * rewrite Forall_forall in *. intros r Hr.
        destruct (Stabilizer.items_subset r (Stabilizer.multiply cur s)) eqn:E';
          [|reflexivity].
        rewrite <- (Hv r Hr). symmetry.
        now apply (multiply_subset_within cur s r).
      * constructor; [|constructor]. now apply multiply_subset_removes.
    + apply IH; try assumption.
      apply Forall_app. split; [assumption | now constructor].
Qed.

(** After the inner loop no accepted generator lies within [stab]. *)
Lemma reduce_by_not_within (it : IterOrder) (simplified : pyset) (stab : stabilizer) :
  wf_dict stab -> all_wf simplified -> all_nontrivial simplified ->
  wf_dict (Interactive.reduce_by it simplified stab)
  /\ Forall (fun r => Stabilizer.items_subset r
                        (Interactive.reduce_by it simplified stab) = false)
            simplified.
Proof.
  intros Hs Hwf Hn. unfold Interactive.reduce_by.
  pose proof (iter_perm it simplified) as Hp.
  destruct (reduce_fold_not_within (iter it simplified) [] stab Hs) as [H1 H2].
  - eapply Permutation_Forall; [symmetry; exact Hp | exact Hwf].
  - eapply Permutation_Forall; [symmetry; exact Hp | exact Hn].
  - constructor.
  - split; [exact H1|]. cbn [app] in H2.
    eapply Permutation_Forall; [exact Hp | exact H2].
Qed.

Lemma simplify_entry_ok (it : IterOrder) (simplified : pyset) (stab : stabilizer) :
  wf_dict stab -> simplified_ok simplified ->
  simplified_ok (Interactive.simplify_entry it simplified stab).
Proof.
  intros Hs (Hnd & Hnt & Hwf & Hord).
  destruct (reduce_by_not_within it simplified stab Hs Hwf Hnt) as [Hw Hnot].
  unfold Interactive.simplify_entry.
  destruct (Stabilizer.is_trivial (Interactive.reduce_by it simplified stab)) eqn:E;
    cbn [negb]; [repeat split; assumption|].
  split; [now apply set_add_nodup|].
  unfold set_add.
  destruct (set_mem (Interactive.reduce_by it simplified stab) simplified);
    [repeat split; assumption|].
  split; [|split].
  - apply Forall_app. split; [assumption | now constructor].
  - apply Forall_app. split; [assumption | now constructor].
  - now apply ForallOrdPairs_snoc.
Qed.

Lemma simplify_ok (it : IterOrder) (gens : pyset) :
  all_wf gens -> simplified_ok (Interactive.simplify it gens).
Proof.
  intros Hwf. unfold Interactive.simplify.
  assert (HL : all_wf (sorted_by_weight (iter it gens))).
  { eapply Permutation_Forall; [|exact Hwf]. symmetry.
    rewrite sorted_by_weight_perm. apply iter_perm. }
  assert (H : forall l acc, all_wf l -> simplified_ok acc ->
                            simplified_ok (fold_left (Interactive.simplify_entry it) l acc)).
  { induction l as [|x l IH]; intros acc Hl Hacc; cbn [fold_left]; [assumption|].
    inversion Hl; subst. apply IH; [assumption|]. now apply simplify_entry_ok. }
  apply H; [assumption|]. repeat split; constructor.
Qed.

(** ** The invariant of a completed step *)

Lemma ForallOrdPairs_impl_in {A : Type} (R R' : A -> A -> Prop) (l : list A) :
  (forall x y, In x l -> In y l -> R x y -> R' x y) ->
  ForallOrdPairs R l -> ForallOrdPairs R' l.
Proof.
  intros Himp H. induction H as [|a l Ha Hl IH]; constructor.
  - rewrite Forall_forall in *. intros y Hy.
    apply Himp; [now left | now right | now apply Ha].
  - apply IH. intros x y Hx Hy. apply Himp; now right.
Qed.

Lemma accepted_adjacent (self : BaconShorCode) (batch : list (Z * Z)) :
  Forall (fun p => is_adjacent self (fst p) (snd p) = true) (accepted self batch).
Proof.
  unfold accepted. apply Forall_forall. intros p Hp.
  apply filter_In in Hp. tauto.
Qed.

Lemma measurement_terms_wf (self : BaconShorCode) (batch : list (Z * Z)) :
  Forall (fun p => is_adjacent self (fst p) (snd p) = true) batch ->
  all_wf (map (measurement_term self) batch).
Proof.
  intros H. apply Forall_forall. intros t Ht. apply in_map_iff in Ht.
  destruct Ht as [p [<- Hp]]. apply measurement_term_wf.
  rewrite Forall_forall in H. now apply H.
Qed.

Lemma bootstrap_ok (self : BaconShorCode) (batch : list (Z * Z)) :
  Forall (fun p => is_adjacent self (fst p) (snd p) = true) batch ->
  simplified_ok (fold_left set_add (map (measurement_term self) batch) []).
Proof.
  intros Hv. set (terms := map (measurement_term self) batch).
  pose proof (measurement_terms_wf self batch Hv) as Hwf. fold terms in Hwf.
  assert (Hin : forall g, In g (fold_left set_add terms []) -> In g terms).
  { intros g Hg. apply fold_set_add_in in Hg. now destruct Hg as [[]|Hg]. }
  assert (Hnd : set_nodup (fold_left set_add terms [])).
  { apply fold_set_add_nodup. constructor. }
  assert (Hlen : forall g, In g terms -> length g = 2).
  { intros g Hg. unfold terms in Hg. apply in_map_iff in Hg.
    now destruct Hg as [p [<- _]]. }
  assert (Hw : forall g, In g terms -> wf_dict g).
  { intros g Hg. unfold all_wf in Hwf. rewrite Forall_forall in Hwf. auto. }
  repeat split.
  - exact Hnd.
  - apply Forall_forall. intros g Hg. apply Hin, Hlen in Hg.
    unfold Stabilizer.is_trivial. now rewrite Hg.
  - apply Forall_forall. intros g Hg. auto.
  - refine (ForallOrdPairs_impl_in _ _ _ _ Hnd). intros old new Ho Hn Heq.
    destruct (Stabilizer.items_subset old new) eqn:E; [|reflexivity].
    apply items_subset_same_length in E;
      [|now rewrite (Hlen old), (Hlen new) by auto].
    rewrite stabilizer_eq_sym in E by auto. congruence.
Qed.

Lemma set_add_all_wf (s : pyset) (x : stabilizer) :
  all_wf s -> wf_dict x -> all_wf (set_add s x).
Proof.
  intros Hs Hx. unfold set_add. destruct (set_mem x s); [assumption|].
  apply Forall_app. split; [assumption | now constructor].
Qed.

Lemma set_discard_all_wf (s : pyset) (x : stabilizer) :
  all_wf s -> all_wf (set_discard s x).
Proof.
  intros Hs. apply Forall_forall. intros g Hg. apply filter_In in Hg.
  unfold all_wf in Hs. rewrite Forall_forall in Hs. now apply Hs.
Qed.

Lemma anti_commuting_incl (it : IterOrder) (gens : pyset) (meas_stab : stabilizer)
      (acs : list stabilizer) :
  anti_commuting it gens meas_stab = Ok acs -> incl acs gens.
Proof.
  unfold anti_commuting. pose proof (iter_perm it gens) as Hp.
  destruct (iter it gens) as [|g l] eqn:E.
  - intros [= <-]. intros x [].
  - destruct (measurement_of meas_stab) as [m| |]; cbn [bind]; try discriminate.
    intros [= <-]. intros x Hx.
    change (In x (filter (fun stab => negb (Stabilizer.commutes_with stab m)
                                      && negb (Stabilizer.eq stab meas_stab))
                         (g :: l))) in Hx.
    apply filter_In in Hx.
    eapply Permutation_in; [exact Hp | tauto].
Qed.

(** C4 as stated fails in its third part.  On the 5x5 lattice, with the
    members of a set enumerated in insertion order, the schedule
    [[(1,2),(6,7),(11,12),(16,17),(21,22)]], [[(1,6),(11,16)]],
    [[(11,12),(6,7),(16,21),(6,11)]], [[(16,17),(21,22)]] ends with the
    generator [Z1 Z2 Z6 Z7 Z11 Z12], accepted third, and the generator
    [Z6 Z7 Z11 Z12], left of [Z6 Z7 Z11 Z12 Z16 Z17 Z21 Z22] after it: the
    first is a strict superset of the second. *)
Lemma completed_step_strict_superset :
  Interactive.generators_after insertion_order (init 4 4)
    [[(1, 2); (6, 7); (11, 12); (16, 17); (21, 22)];
     [(1, 6); (11, 16)];
     [(11, 12); (6, 7); (16, 21); (6, 11)];
     [(16, 17); (21, 22)]]%Z
  = Ok [[(16, PZ); (17, PZ)]; [(21, PZ); (22, PZ)];
        [(1, PZ); (2, PZ); (6, PZ); (7, PZ); (11, PZ); (12, PZ)];
        [(6, PZ); (7, PZ); (11, PZ); (12, PZ)]]%Z
  /\ strict_superset
       [(1, PZ); (2, PZ); (6, PZ); (7, PZ); (11, PZ); (12, PZ)]%Z
       [(6, PZ); (7, PZ); (11, PZ); (12, PZ)]%Z = true.
Proof. split; vm_compute; reflexivity. Qed.

(** ** Independence of the enumeration order *)

Lemma filter_perm {A : Type} (f : A -> bool) (l l' : list A) :
  Permutation l l' -> Permutation (filter f l) (filter f l').
Proof.
  induction 1 as [|x l l' _ IH|x y l|l l' l'' _ IH1 _ IH2]; cbn [filter].
  - constructor.
  - destruct (f x); [now apply perm_skip | assumption].
  - destruct (f x), (f y); try reflexivity. apply perm_swap.
  - now transitivity (filter f l').
Qed.

Lemma existsb_perm {A : Type} (f : A -> bool) (l l' : list A) :
  Permutation l l' -> existsb f l = existsb f l'.
Proof.
  induction 1 as [|x l l' _ IH|x y l|l l' l'' _ IH1 _ IH2]; cbn [existsb].
  - reflexivity.
  - now rewrite IH.
  - destruct (f x), (f y); reflexivity.
  - congruence.
Qed.

Lemma forallb_perm {A : Type} (f : A -> bool) (l l' : list A) :
  Permutation l l' -> forallb f l = forallb f l'.
Proof.
  induction 1 as [|x l l' _ IH|x y l|l l' l'' _ IH1 _ IH2]; cbn [forallb].
  - reflexivity.
  - now rewrite IH.
  - destruct (f x), (f y); reflexivity.
  - congruence.
Qed.

Lemma set_mem_perm (x : stabilizer) (s s' : pyset) :
  Permutation s s' -> set_mem x s = set_mem x s'.
Proof. apply existsb_perm. Qed.

Lemma set_add_perm (s s' : pyset) (x : stabilizer) :
  Permutation s s' -> Permutation (set_add s x) (set_add s' x).
Proof.
  intros H. unfold set_add. rewrite (set_mem_perm x s s' H).
  destruct (set_mem x s'); [assumption | now apply Permutation_app_tail].
Qed.

Lemma set_discard_perm (s s' : pyset) (x : stabilizer) :
  Permutation s s' -> Permutation (set_discard s x) (set_discard s' x).
Proof. apply filter_perm. Qed.

Lemma fold_set_discard_perm (l : list stabilizer) (s s' : pyset) :
  Permutation s s' ->
  Permutation (fold_left set_discard l s) (fold_left set_discard l s').
Proof.
  revert s s'. induction l as [|x l IH]; intros s s' H; cbn [fold_left]; [assumption|].
  apply IH. now apply set_discard_perm.
Qed.

Lemma set_eqb_perm (a b e : pyset) :
  Permutation a b -> set_eqb a e = set_eqb b e.
Proof.
  intros H. unfold set_eqb. rewrite (forallb_perm _ a b H). f_equal.
  induction e as [|x e IH]; cbn [forallb]; [reflexivity|].
  now rewrite IH, (set_mem_perm x a b H).
Qed.

Lemma combine_perm (g G : pyset) (acs : list stabilizer)
      (meas_stab stab1 stab2 : stabilizer) :
  Permutation g G ->
  match Interactive.combine g acs meas_stab stab1 stab2,
        Interactive.combine G acs meas_stab stab1 stab2 with
  | Ok (g', a'), Ok (G', A') => Permutation g' G' /\ a' = A'
  | Raise e, Raise e' => e = e'
  | OutOfFuel, OutOfFuel => True
  | _, _ => False
  end.
Proof.
  intros H. unfold Interactive.combine.
  destruct (list_remove acs stab1) as [a1| |]; cbn [bind]; auto.
  destruct (list_remove a1 stab2) as [a2| |]; cbn [bind]; auto.
  pose proof (set_discard_perm _ _ stab2 (set_discard_perm _ _ stab1 H)) as Hd.
  destruct (negb (Stabilizer.is_trivial (Stabilizer.multiply stab1 stab2))).
  - destruct (measurement_of meas_stab) as [m| |]; cbn [bind]; auto.
    destruct (negb (Stabilizer.commutes_with (Stabilizer.multiply stab1 stab2) m));
      (split; [now apply set_add_perm | reflexivity]).
  - now split.
Qed.

Lemma resolve_perm (self : BaconShorCode) (meas_stab : stabilizer) :
  forall fuel g G acs,
    Permutation g G ->
    match Interactive.resolve fuel self meas_stab g acs,
          Interactive.resolve fuel self meas_stab G acs with
    | Ok (g', a'), Ok (G', A') => Permutation g' G' /\ a' = A'
    | Raise e, Raise e' => e = e'
    | OutOfFuel, OutOfFuel => True
    | _, _ => False
    end.
Proof.
  induction fuel as [|fuel IH]; intros g G acs H; cbn [Interactive.resolve]; [exact I|].
  destruct (Interactive.scan_pairs self acs) as [[[stab1 stab2]|]| |];
    cbn [bind]; auto.
  pose proof (combine_perm g G acs meas_stab stab1 stab2 H) as Hc.
  destruct (Interactive.combine g acs meas_stab stab1 stab2) as [[g1 a1]| |],
           (Interactive.combine G acs meas_stab stab1 stab2) as [[G1 A1]| |];
    cbn [bind fst snd]; try contradiction; auto.
  destruct Hc as [Hp ->]. now apply IH.
Qed.

Lemma resolve_and_discard_perm (self : BaconShorCode) (g G : pyset)
      (meas_stab : stabilizer) (acs : list stabilizer) :
  Permutation g G ->
  out_perm (Interactive.resolve_and_discard self g meas_stab acs)
           (Interactive.resolve_and_discard self G meas_stab acs).
Proof.
  intros H. unfold Interactive.resolve_and_discard.
  pose proof (resolve_perm self meas_stab (S (length acs)) g G acs H) as Hr.
  destruct (Interactive.resolve (S (length acs)) self meas_stab g acs) as [[g1 a1]| |],
           (Interactive.resolve (S (length acs)) self meas_stab G acs) as [[G1 A1]| |];
    cbn [bind fst snd out_perm]; try contradiction; auto.
  destruct Hr as [Hp ->]. now apply fold_set_discard_perm.
Qed.

(** The working list is the anti-commuting part of the set, in some order. *)
Lemma anti_commuting_perm (it : IterOrder) (g G : pyset) (meas_stab : stabilizer)
      (m : Stabilizer.measurement) :
  Permutation g G -> measurement_of meas_stab = Ok m ->
  exists acs,
    anti_commuting it g meas_stab = Ok acs
    /\ Permutation
         (filter (fun stab => negb (Stabilizer.commutes_with stab m)
                              && negb (Stabilizer.eq stab meas_stab)) G)
         acs.
Proof.
  intros H Hm. unfold anti_commuting. rewrite Hm. cbn [bind].
  pose proof (iter_perm it g) as Hp.
  set (f := fun stab => negb (Stabilizer.commutes_with stab m)
                        && negb (Stabilizer.eq stab meas_stab)).
  exists (filter f (iter it g)). split.
  - now destruct (iter it g).
  - apply filter_perm. symmetry. now transitivity g.
Qed.

(** One measurement of the resolver on a set known up to its order: the
    result is, up to order, the one computed on any listing of the set from
    some listing of its anti-commuting members. *)
Lemma adjust_one_perm (it : IterOrder) (self : BaconShorCode) (g G : pyset)
      (meas_stab : stabilizer) (m : Stabilizer.measurement) :
  Permutation g G -> measurement_of meas_stab = Ok m ->
  exists acs,
    Permutation
      (filter (fun stab => negb (Stabilizer.commutes_with stab m)
                           && negb (Stabilizer.eq stab meas_stab)) G)
      acs
    /\ out_perm (Interactive.adjust_one it self g meas_stab)
                (Interactive.resolve_and_discard self G meas_stab acs).
Proof.
  intros H Hm.
  destruct (anti_commuting_perm it g G meas_stab m H Hm) as (acs & Ha & Hp).
  exists acs. split; [exact Hp|].
  unfold Interactive.adjust_one. rewrite Ha. cbn [bind].
  now apply resolve_and_discard_perm.
Qed.

(** The resolver reads the object only through its grid. *)
Lemma mapM_ext {A B : Type} (f g : A -> outcome B) (l : list A) :
  (forall a, f a = g a) -> mapM f l = mapM g l.
Proof.
  intros H. induction l as [|a l IH]; [reflexivity|].
  cbn [mapM]. now rewrite H, IH.
Qed.

Lemma positions_grid (self self' : BaconShorCode) (k : nat * nat -> nat)
      (stab : stabilizer) :
  self_grid self = self_grid self' ->
  Interactive.positions self k stab = Interactive.positions self' k stab.
Proof.
  intros H. unfold Interactive.positions. apply mapM_ext. intros q.
  unfold get_qubit_position. now rewrite H.
Qed.

Lemma span_ok_grid (self self' : BaconShorCode) (ty : op) (s1 s2 : stabilizer) :
  self_grid self = self_grid self' ->
  Interactive.span_ok self ty s1 s2 = Interactive.span_ok self' ty s1 s2.
Proof.
  intros H. unfold Interactive.span_ok.
  destruct ty; try reflexivity;
    now rewrite (positions_grid self self' _ s1 H), (positions_grid self self' _ s2 H).
Qed.

Lemma scan_partner_grid (self self' : BaconShorCode) (stab1 : stabilizer) (ty : op)
      (rest : list stabilizer) :
  self_grid self = self_grid self' ->
  Interactive.scan_partner self stab1 ty rest =
  Interactive.scan_partner self' stab1 ty rest.
Proof.
  intros H. induction rest as [|stab2 rest IH]; [reflexivity|].
  cbn [Interactive.scan_partner].
  destruct (first_value stab2) as [ty2| |]; cbn [bind]; try reflexivity.
  destruct (op_eqb ty ty2); [|exact IH].
  rewrite (span_ok_grid self self' ty stab1 stab2 H).
  destruct (Interactive.span_ok self' ty stab1 stab2) as [[|]| |]; cbn [bind];
    try reflexivity. exact IH.
Qed.

Lemma scan_pairs_grid (self self' : BaconShorCode) (l : list stabilizer) :
  self_grid self = self_grid self' ->
  Interactive.scan_pairs self l = Interactive.scan_pairs self' l.
Proof.
  intros H. induction l as [|stab1 rest IH]; [reflexivity|].
  cbn [Interactive.scan_pairs].
  destruct (first_value stab1) as [ty| |]; cbn [bind]; try reflexivity.
  rewrite (scan_partner_grid self self' stab1 ty rest H).
  destruct (Interactive.scan_partner self' stab1 ty rest) as [[s|]| |]; cbn [bind];
    try reflexivity. exact IH.
Qed.

Lemma resolve_grid (self self' : BaconShorCode) (meas_stab : stabilizer) :
  self_grid self = self_grid self' ->
  forall fuel gens acs,
    Interactive.resolve fuel self meas_stab gens acs =
    Interactive.resolve fuel self' meas_stab gens acs.
Proof.
  intros H. induction fuel as [|fuel IH]; intros gens acs; [reflexivity|].
  cbn [Interactive.resolve]. rewrite (scan_pairs_grid self self' acs H).
  destruct (Interactive.scan_pairs self' acs) as [[[s1 s2]|]| |]; cbn [bind];
    try reflexivity.
  destruct (Interactive.combine gens acs meas_stab s1 s2) as [st| |]; cbn [bind];
    try reflexivity.
  apply IH.
Qed.

Lemma resolve_and_discard_grid (self self' : BaconShorCode) (gens : pyset)
      (meas_stab : stabilizer) (acs : list stabilizer) :
  self_grid self = self_grid self' ->
  Interactive.resolve_and_discard self gens meas_stab acs =
  Interactive.resolve_and_discard self' gens meas_stab acs.
Proof.
  intros H. unfold Interactive.resolve_and_discard.
  now rewrite (resolve_grid self self' meas_stab H).
Qed.

(** One measurement on the 5x5 lattice, on a set known up to its order. *)
Lemma adjust_one_5x5 (it : IterOrder) (self : BaconShorCode) (g G : pyset)
      (meas_stab : stabilizer) (m : Stabilizer.measurement) :
  self_grid self = self_grid (init 4 4) ->
  Permutation g G -> measurement_of meas_stab = Ok m ->
  exists acs,
    Permutation
      (filter (fun stab => negb (Stabilizer.commutes_with stab m)
                           && negb (Stabilizer.eq stab meas_stab)) G)
      acs
    /\ out_perm (Interactive.adjust_one it self g meas_stab)
                (Interactive.resolve_and_discard (init 4 4) G meas_stab acs).
Proof.
  intros Hg Hp Hm.
  destruct (adjust_one_perm it self g G meas_stab m Hp Hm) as (acs & Ha & Ho).
  exists acs. split; [exact Ha|].
  now rewrite <- (resolve_and_discard_grid self (init 4 4) G meas_stab acs Hg).
Qed.

Lemma antichainb_spec (l : pyset) : antichainb l = true -> antichain l.
Proof.
  induction l as [|x l IH]; cbn [antichainb]; intros H; [constructor|].
  apply andb_true_iff in H. destruct H as [H1 H2].
  constructor; [|now apply IH].
  rewrite forallb_forall in H1. apply Forall_forall. intros y Hy.
  specialize (H1 y Hy). apply andb_true_iff in H1.
  rewrite !negb_true_iff in H1. exact H1.
Qed.

Lemma distinctb_spec (l : pyset) : distinctb l = true -> distinct l.
Proof.
  induction l as [|x l IH]; cbn [distinctb]; intros H; [constructor|].
  apply andb_true_iff in H. destruct H as [H1 H2].
  constructor; [|now apply IH].
  rewrite forallb_forall in H1. apply Forall_forall. intros y Hy.
  specialize (H1 y Hy). apply andb_true_iff in H1.
  rewrite !negb_true_iff in H1. exact H1.
Qed.

Lemma distinct_perm (l l' : pyset) : Permutation l l' -> distinct l -> distinct l'.
Proof. apply ForallOrdPairs_perm. tauto. Qed.

Lemma distinct_set_nodup (l : pyset) : distinct l -> set_nodup l.
Proof.
  apply ForallOrdPairs_impl_in. intros x y _ _ [_ H]. exact H.
Qed.

(** The union with a set of new, pairwise different members, in whatever
    order they are enumerated. *)
Lemma set_union_fresh (it : IterOrder) (s new : pyset) :
  forallb (fun x => negb (set_mem x s)) new = true -> distinctb new = true ->
  Permutation (set_union it s new) (s ++ new).
Proof.
  intros Hf Hd. unfold set_union.
  pose proof (iter_perm it new) as Hp.
  rewrite fold_set_add_fresh.
  - now apply Permutation_app_head.
  - rewrite forallb_forall in Hf. apply Forall_forall. intros x Hx.
    apply negb_true_iff, Hf. eapply Permutation_in; eassumption.
  - apply distinct_set_nodup. apply (distinct_perm new); [now symmetry|].
    now apply distinctb_spec.
Qed.

Lemma all_nontrivial_forallb (l : pyset) :
  forallb (fun g => negb (Stabilizer.is_trivial g)) l = true -> all_nontrivial l.
Proof.
  intros H. rewrite forallb_forall in H. apply Forall_forall. intros g Hg.
  apply negb_true_iff. auto.
Qed.

(** The pass on a set known up to its order to be an antichain. *)
Lemma simplify_perm_antichain (it : IterOrder) (g G : pyset) :
  Permutation g G -> antichainb G = true ->
  forallb (fun x => negb (Stabilizer.is_trivial x)) G = true ->
  Permutation (Interactive.simplify it g) G.
Proof.
  intros Hp Ha Hn. transitivity g; [|exact Hp].
  apply simplify_antichain_perm.
  - apply (antichain_perm G); [now symmetry | now apply antichainb_spec].
  - apply (all_nontrivial_perm G); [now symmetry | now apply all_nontrivial_forallb].
Qed.

(** One measurement of the resolver, driven on a set known up to order. *)
Ltac adjust_step it Hgrid Hp :=
  match type of Hp with
  | Permutation ?g ?G =>
      match goal with
      | |- context [Interactive.adjust_one it ?self g ?m] =>
          let mm := eval vm_compute in (measurement_of m) in
          lazymatch mm with
          | Ok ?mv =>
              let acs := fresh "acs" in
              let Ha := fresh "Ha" in
              let Ho := fresh "Ho" in
              let E := fresh "E" in
              let g' := fresh "g" in
              destruct (adjust_one_5x5 it self g G m mv Hgrid Hp eq_refl)
                as (acs & Ha & Ho);
              vm_compute in Ha;
              lazymatch type of Ha with
              | Permutation nil _ => apply Permutation_nil in Ha
              | Permutation (cons _ nil) _ => apply Permutation_length_1_inv in Ha
              | Permutation (cons _ (cons _ nil)) _ =>
                  apply Permutation_length_2_inv in Ha; destruct Ha as [Ha|Ha]
              end;
              subst acs;
              match type of Ho with
              | out_perm ?a ?b =>
                  let v := eval vm_compute in b in change (out_perm a v) in Ho
              end;
              destruct (Interactive.adjust_one it self g m) as [g'| |] eqn:E;
              cbn [out_perm] in Ho; try contradiction;
              cbn [bind]; clear E Hp; rename Ho into Hp
          end
      end
  end.

Lemma scenario_step1 (it : IterOrder) :
  snd (Interactive.run_time_step it (init 4 4) [(1, 2); (3, 4); (6, 7); (8, 9)]%Z) =
  Ok {| rows := 4; cols := 4;
        stabilizer_generators :=
          [[(1, PZ); (2, PZ)]; [(3, PZ); (4, PZ)];
           [(6, PZ); (7, PZ)]; [(8, PZ); (9, PZ)]]%Z;
        time_step := 1;
        current_measurements := [(1, 2); (3, 4); (6, 7); (8, 9)]%Z;
        measurements_history := [[(1, 2); (3, 4); (6, 7); (8, 9)]%Z] |}.
Proof. destruct it as [f Hf]. vm_compute. reflexivity. Qed.

Lemma scenario_step2 (it : IterOrder) :
  exists gens,
    snd (Interactive.run_time_step it
           {| rows := 4; cols := 4;
              stabilizer_generators :=
                [[(1, PZ); (2, PZ)]; [(3, PZ); (4, PZ)];
                 [(6, PZ); (7, PZ)]; [(8, PZ); (9, PZ)]]%Z;
              time_step := 1;
              current_measurements := [(1, 2); (3, 4); (6, 7); (8, 9)]%Z;
              measurements_history := [[(1, 2); (3, 4); (6, 7); (8, 9)]%Z] |}
           [(1, 6); (2, 7); (3, 8); (4, 9)]%Z) =
    Ok {| rows := 4; cols := 4;
          stabilizer_generators := gens;
          time_step := 2;
          current_measurements := [(1, 6); (2, 7); (3, 8); (4, 9)]%Z;
          measurements_history :=
            [[(1, 2); (3, 4); (6, 7); (8, 9)]; [(1, 6); (2, 7); (3, 8); (4, 9)]]%Z |}
    /\ length gens = 6
    /\ set_eqb gens
         [[(1, PX); (6, PX)]; [(2, PX); (7, PX)]; [(3, PX); (8, PX)]; [(4, PX); (9, PX)];
          [(1, PZ); (2, PZ); (6, PZ); (7, PZ)];
          [(3, PZ); (4, PZ); (8, PZ); (9, PZ)]]%Z = true.
Proof.
  unfold Interactive.run_time_step.
  match goal with
  | |- context [validate ?s ?b] =>
      let v := eval vm_compute in (validate s b) in change (validate s b) with v
  end.
  cbn [snd]. unfold Interactive.update_stabilizers.
  match goal with
  | |- context [mapM ?f ?b] =>
      let v := eval vm_compute in (mapM f b) in change (mapM f b) with v
  end.
  cbn [bind].
  match goal with
  | |- context [fold_left set_add ?l nil] =>
      let v := eval vm_compute in (fold_left set_add l nil) in
      change (fold_left set_add l nil) with v
  end.
  cbn [tick time_step Nat.eqb stabilizer_generators].
  match goal with
  | |- context [set_union it ?s ?new] =>
      pose proof (set_union_fresh it s new eq_refl eq_refl) as Hp;
      cbn [app] in Hp;
      remember (set_union it s new) as gu eqn:Egu; clear Egu
  end.
  unfold Interactive.adjust_stabilizers, Interactive.adjust.
  match goal with
  | |- context [foldM (Interactive.adjust_one it ?s)] =>
      set (self := s);
      assert (Hgrid : self_grid self = self_grid (init 4 4)) by reflexivity
  end.
  change (stabilizer_generators self) with gu. cbn [foldM].
  adjust_step it Hgrid Hp; adjust_step it Hgrid Hp;
    adjust_step it Hgrid Hp; adjust_step it Hgrid Hp.
  all: cbn [Interactive.simplify_stabilizers with_generators stabilizer_generators
            rows cols time_step measurements_history current_measurements app self].
  all: eexists; split; [reflexivity|].
  all: match type of Hp with
       | Permutation _ ?G =>
           pose proof (simplify_perm_antichain it _ G Hp eq_refl eq_refl) as Hs
       end.
  all: split;
    [ rewrite (Permutation_length Hs); reflexivity
    | rewrite (set_eqb_perm _ _ _ Hs); vm_compute; reflexivity ].
Qed.

(** C1, amended: on the 5x5-vertex lattice, whatever the order in which
    Python enumerates its sets, step 1 with pairs [(1,2),(3,4),(6,7),(8,9)]
    leaves exactly Z:{1,2}, Z:{3,4}, Z:{6,7}, Z:{8,9}; step 2 with pairs
    [(1,6),(2,7),(3,8),(4,9)] keeps the four X-type terms and replaces the
    four Z-type generators, each of which anti-commutes with a new term, by
    the products Z:{1,2,6,7} and Z:{3,4,8,9}: six generators in all. *)
Theorem end_to_end_scenario (it : IterOrder) :
  Interactive.generators_after it (init 4 4) [[(1, 2); (3, 4); (6, 7); (8, 9)]]%Z =
  Ok [[(1, PZ); (2, PZ)]; [(3, PZ); (4, PZ)]; [(6, PZ); (7, PZ)]; [(8, PZ); (9, PZ)]]%Z
  /\ exists gens,
      Interactive.generators_after it (init 4 4)
        [[(1, 2); (3, 4); (6, 7); (8, 9)]; [(1, 6); (2, 7); (3, 8); (4, 9)]]%Z = Ok gens
      /\ length gens = 6
      /\ set_eqb gens
           [[(1, PX); (6, PX)]; [(2, PX); (7, PX)]; [(3, PX); (8, PX)]; [(4, PX); (9, PX)];
            [(1, PZ); (2, PZ); (6, PZ); (7, PZ)];
            [(3, PZ); (4, PZ); (8, PZ); (9, PZ)]]%Z = true.
Proof.
  unfold Interactive.generators_after, Interactive.run. cbn [foldM].
  rewrite scenario_step1. cbn [bind]. split; [reflexivity|].
  destruct (scenario_step2 it) as (gens & Hrun & Hlen & Hset).
  exists gens. rewrite Hrun. cbn [bind stabilizer_generators]. auto.
Qed.

(** C1 as stated fails: after step 2 the set has six generators, and the
    step-1 generator Z:{1,2} is not among them. *)
Lemma end_to_end_not_all_survive :
  Interactive.generators_after insertion_order (init 4 4)
    [[(1, 2); (3, 4); (6, 7); (8, 9)]; [(1, 6); (2, 7); (3, 8); (4, 9)]]%Z
  = Ok [[(1, PX); (6, PX)]; [(2, PX); (7, PX)]; [(3, PX); (8, PX)]; [(4, PX); (9, PX)];
        [(1, PZ); (2, PZ); (6, PZ); (7, PZ)];
        [(3, PZ); (4, PZ); (8, PZ); (9, PZ)]]%Z
  /\ set_mem [(1, PZ); (2, PZ)]%Z
       [[(1, PX); (6, PX)]; [(2, PX); (7, PX)]; [(3, PX); (8, PX)]; [(4, PX); (9, PX)];
        [(1, PZ); (2, PZ); (6, PZ); (7, PZ)];
        [(3, PZ); (4, PZ); (8, PZ); (9, PZ)]]%Z = false.
Proof. split; vm_compute; reflexivity. Qed.

(** ** The prototype against the refined resolver *)

Lemma divergence_refined (it : IterOrder) :
  Interactive.generators_after it (init 4 4) [[(1, 6); (7, 12)]; [(6, 7)]]%Z =
  Ok [[(6, PZ); (7, PZ)]]%Z.
Proof.
  unfold Interactive.generators_after, Interactive.run. cbn [foldM].
  assert (H1 : snd (Interactive.run_time_step it (init 4 4) [(1, 6); (7, 12)]%Z) =
               Ok {| rows := 4; cols := 4;
                     stabilizer_generators :=
                       [[(1, PX); (6, PX)]; [(7, PX); (12, PX)]]%Z;
                     time_step := 1;
                     current_measurements := [(1, 6); (7, 12)]%Z;
                     measurements_history := [[(1, 6); (7, 12)]%Z] |}).
  { destruct it as [f Hf]. vm_compute. reflexivity. }
  rewrite H1. cbn [bind]. clear H1.
  unfold Interactive.run_time_step.
  match goal with
  | |- context [validate ?s ?b] =>
      let v := eval vm_compute in (validate s b) in change (validate s b) with v
  end.
  cbn [snd]. unfold Interactive.update_stabilizers.
  match goal with
  | |- context [mapM ?f ?b] =>
      let v := eval vm_compute in (mapM f b) in change (mapM f b) with v
  end.
  cbn [bind].
  match goal with
  | |- context [fold_left set_add ?l nil] =>
      let v := eval vm_compute in (fold_left set_add l nil) in
      change (fold_left set_add l nil) with v
  end.
  cbn [tick time_step Nat.eqb stabilizer_generators].
  match goal with
  | |- context [set_union it ?s ?new] =>
      pose proof (set_union_fresh it s new eq_refl eq_refl) as Hp;
      cbn [app] in Hp;
      remember (set_union it s new) as gu eqn:Egu; clear Egu
  end.
  unfold Interactive.adjust_stabilizers, Interactive.adjust.
  match goal with
  | |- context [foldM (Interactive.adjust_one it ?s)] =>
      set (self := s);
      assert (Hgrid : self_grid self = self_grid (init 4 4)) by reflexivity
  end.
  change (stabilizer_generators self) with gu. cbn [foldM].
  adjust_step it Hgrid Hp.
  all: cbn [Interactive.simplify_stabilizers with_generators stabilizer_generators
            rows cols time_step measurements_history current_measurements app self bind].
  all: match type of Hp with
       | Permutation _ ?G =>
           pose proof (simplify_perm_antichain it _ G Hp eq_refl eq_refl) as Hs
       end.
  all: apply Permutation_sym, Permutation_length_1_inv in Hs.
  all: now rewrite Hs.
Qed.

(** One pass of the prototype's loop on a working list of two members,
    the set being known up to its order. *)
Ltac prototype_pass it gu Hp :=
  match goal with
  | |- context [Initial.pop2 ?l] =>
      let v := eval vm_compute in (Initial.pop2 l) in
      change (Initial.pop2 l) with v
  end; cbv iota beta;
  match goal with
  | |- context [Stabilizer.multiply ?a ?b] =>
      let v := eval vm_compute in (Stabilizer.multiply a b) in
      change (Stabilizer.multiply a b) with v
  end;
  match goal with
  | |- context [Stabilizer.is_trivial ?a] =>
      let v := eval vm_compute in (Stabilizer.is_trivial a) in
      change (Stabilizer.is_trivial a) with v
  end; cbn [negb];
  match goal with
  | |- context [anti_commuting it (set_add (set_discard (set_discard gu ?s1) ?s2) ?c) ?m] =>
      let Hp' := fresh "Hp" in
      let g1 := fresh "g" in
      let Eg1 := fresh "Eg" in
      let acs := fresh "acs" in
      let Ea := fresh "Ea" in
      let Ha := fresh "Ha" in
      pose proof (set_add_perm _ _ c
                    (set_discard_perm _ _ s2 (set_discard_perm _ _ s1 Hp))) as Hp';
      remember (set_add (set_discard (set_discard gu s1) s2) c) as g1 eqn:Eg1;
      clear Eg1;
      match type of Hp' with
      | Permutation ?a ?b =>
          let v := eval vm_compute in b in change (Permutation a v) in Hp'
      end;
      let mm := eval vm_compute in (measurement_of m) in
      lazymatch mm with
      | Ok ?mv =>
          destruct (anti_commuting_perm it g1 _ m mv Hp' eq_refl) as (acs & Ea & Ha)
      end;
      rewrite Ea; cbn [bind]; clear Ea; vm_compute in Ha;
      apply Permutation_nil in Ha; subst acs;
      cbn [Initial.pop2 rev app bind fst snd with_generators stabilizer_generators];
      exists g1; split; [reflexivity | auto]
  end.

Lemma divergence_prototype (it : IterOrder) :
  exists gens,
    Initial.generators_after it (init 4 4) [[(1, 6); (7, 12)]; [(6, 7)]]%Z = Ok gens
    /\ (Permutation gens
          [[(6, PZ); (7, PZ)]; [(7, PX); (12, PX); (1, PX); (6, PX)]]%Z
        \/ Permutation gens
             [[(6, PZ); (7, PZ)]; [(1, PX); (6, PX); (7, PX); (12, PX)]]%Z).
Proof.
  unfold Initial.generators_after, Initial.run. cbn [foldM].
  assert (H1 : snd (Initial.run_time_step it (init 4 4) [(1, 6); (7, 12)]%Z) =
               Ok {| rows := 4; cols := 4;
                     stabilizer_generators :=
                       [[(1, PX); (6, PX)]; [(7, PX); (12, PX)]]%Z;
                     time_step := 1;
                     current_measurements := [(1, 6); (7, 12)]%Z;
                     measurements_history := [] |}).
  { destruct it as [f Hf]. vm_compute. reflexivity. }
  rewrite H1. cbn [bind]. clear H1.
  unfold Initial.run_time_step.
  match goal with
  | |- context [validate ?s ?b] =>
      let v := eval vm_compute in (validate s b) in change (validate s b) with v
  end.
  cbn [snd]. unfold Initial.update_stabilizers.
  match goal with
  | |- context [mapM ?f ?b] =>
      let v := eval vm_compute in (mapM f b) in change (mapM f b) with v
  end.
  cbn [bind].
  match goal with
  | |- context [fold_left set_add ?l nil] =>
      let v := eval vm_compute in (fold_left set_add l nil) in
      change (fold_left set_add l nil) with v
  end.
  cbn [tick time_step Nat.eqb stabilizer_generators].
  match goal with
  | |- context [set_union it ?s ?new] =>
      pose proof (set_union_fresh it s new eq_refl eq_refl) as Hp;
      cbn [app] in Hp;
      remember (set_union it s new) as gu eqn:Egu; clear Egu
  end.
  unfold Initial.adjust_stabilizers, Initial.adjust.
  cbn [with_generators stabilizer_generators foldM].
  unfold Initial.adjust_one.
  destruct (anti_commuting_perm it gu _ [(6, PZ); (7, PZ)]%Z
              {| Stabilizer.m_qubits := [6; 7]%Z; Stabilizer.m_type := PZ |}
              Hp eq_refl) as (acs & Ea & Ha).
  rewrite Ea. cbn [bind]. clear Ea. vm_compute in Ha.
  apply Permutation_length_2_inv in Ha. rewrite (Permutation_length Hp).
  destruct Ha as [Ha|Ha]; subst acs; cbn [length Initial.resolve];
    prototype_pass it gu Hp.
Qed.

(** C6: the prototype resolver and the refined resolver are not
    equivalent.  On the 5x5-vertex lattice, after the batch
    [[(1,6),(7,12)]] the batch [[(6,7)]] meets two anti-commuting X-type
    generators that together cover three rows: the prototype pairs them and
    keeps their product next to Z:{6,7}, the refined resolver discards both
    and keeps Z:{6,7} alone.  The generator sets differ whatever the order
    in which either program enumerates its sets, also when the
    simplification pass is applied to the prototype's result. *)
Theorem resolvers_diverge (it_prototype it_refined : IterOrder) :
  exists g_prototype g_refined,
    Initial.generators_after it_prototype (init 4 4)
      [[(1, 6); (7, 12)]; [(6, 7)]]%Z = Ok g_prototype
    /\ Interactive.generators_after it_refined (init 4 4)
         [[(1, 6); (7, 12)]; [(6, 7)]]%Z = Ok g_refined
    /\ length g_prototype = 2
    /\ g_refined = [[(6, PZ); (7, PZ)]]%Z
    /\ set_eqb g_prototype g_refined = false
    /\ set_eqb (Interactive.simplify it_refined g_prototype) g_refined = false.
Proof.
  destruct (divergence_prototype it_prototype) as (gp & Hrun & Hp).
  exists gp, [[(6, PZ); (7, PZ)]]%Z.
  split; [exact Hrun|]. split; [apply divergence_refined|].
  destruct Hp as [Hp|Hp];
    pose proof (simplify_perm_antichain it_refined _ _ Hp eq_refl eq_refl) as Hs;
    (split; [rewrite (Permutation_length Hp); reflexivity|]);
    (split; [reflexivity|]);
    (split; [rewrite (set_eqb_perm _ _ _ Hp) | rewrite (set_eqb_perm _ _ _ Hs)]);
    vm_compute; reflexivity.
Qed.

(** ** The fuel of the prototype's loop *)

Lemma ForallOrdPairs_filter {A : Type} (R : A -> A -> Prop) (p : A -> bool)
      (l : list A) :
  ForallOrdPairs R l -> ForallOrdPairs R (filter p l).
Proof.
  induction 1 as [|a l Ha Hl IH]; cbn [filter]; [constructor|].
  destruct (p a); [|exact IH].
  constructor; [|exact IH].
  apply Forall_forall. intros y Hy. apply filter_In in Hy.
  rewrite Forall_forall in Ha. now apply Ha.
Qed.

Lemma ForallOrdPairs_app_last2 {A : Type} (R : A -> A -> Prop) (r : list A) (x y : A) :
  ForallOrdPairs R (r ++ [x; y]) -> R x y.
Proof.
  induction r as [|a r IH]; cbn [app]; intros H; inversion H as [|? ? Ha Hl]; subst.
  - now inversion Ha.
  - auto.
Qed.

Lemma pop2_spec (l : list stabilizer) (stab1 stab2 : stabilizer) (r : list stabilizer) :
  Initial.pop2 l = Some (stab1, stab2, r) -> l = r ++ [stab2; stab1].
Proof.
  unfold Initial.pop2. destruct (rev l) as [|a [|b t]] eqn:E; try discriminate.
  intros [= <- <- <-]. rewrite <- (rev_involutive l), E. cbn [rev].
  now rewrite <- app_assoc.
Qed.

Lemma filter_length_lt {A : Type} (p : A -> bool) (l : list A) (x : A) :
  In x l -> p x = false -> length (filter p l) < length l.
Proof.
  induction l as [|a l IH]; intros Hin Hp; [destruct Hin|].
  cbn [filter length]. pose proof (filter_length_le p l) as Hle.
  destruct Hin as [->|Hin].
  - rewrite Hp. lia.
  - specialize (IH Hin Hp). destruct (p a); cbn [length]; lia.
Qed.

Lemma set_add_distinct (s : pyset) (x : stabilizer) :
  all_wf s -> wf_dict x -> distinct s -> distinct (set_add s x).
Proof.
  intros Hs Hx Hd. unfold set_add. destruct (set_mem x s) eqn:E; [assumption|].
  apply ForallOrdPairs_snoc; [assumption|].
  apply set_mem_false in E. unfold all_wf in Hs.
  rewrite Forall_forall in *. intros y Hy. specialize (E y Hy).
  split; [|exact E]. now rewrite stabilizer_eq_sym by auto.
Qed.

Lemma set_add_length (s : pyset) (x : stabilizer) :
  length (set_add s x) <= S (length s).
Proof.
  unfold set_add. destruct (set_mem x s); [lia|].
  rewrite length_app. cbn [length]. lia.
Qed.

Lemma anti_commuting_filter (it : IterOrder) (gens : pyset) (meas_stab : stabilizer)
      (acs : list stabilizer) :
  anti_commuting it gens meas_stab = Ok acs ->
  exists p, acs = filter p (iter it gens).
Proof.
  unfold anti_commuting. destruct (iter it gens) as [|g l].
  - intros [= <-]. now exists (fun _ => true).
  - destruct (measurement_of meas_stab) as [m| |]; cbn [bind]; try discriminate.
    intros H.
    exists (fun stab => negb (Stabilizer.commutes_with stab m)
                        && negb (Stabilizer.eq stab meas_stab)).
    injection H as <-. reflexivity.
Qed.

(** The prototype's loop ends within [S (length gens)] passes on every
    set of well-formed, pairwise different stabilizers. *)
Lemma prototype_resolve_terminates (it : IterOrder) (meas_stab : stabilizer) :
  forall fuel gens acs,
    all_wf gens -> distinct gens ->
    anti_commuting it gens meas_stab = Ok acs ->
    length gens < fuel ->
    terminated (Initial.resolve fuel it meas_stab gens acs) = true.
Proof.
  induction fuel as [|fuel IH]; intros gens acs Hwf Hd Ha Hlen; [lia|].
  cbn [Initial.resolve].
  destruct (Initial.pop2 acs) as [[[stab1 stab2] r]|] eqn:Ep; [|reflexivity].
  apply pop2_spec in Ep.
  assert (Hacs : incl acs gens /\ distinct acs).
  { split; [exact (anti_commuting_incl _ _ _ _ Ha)|].
    destruct (anti_commuting_filter _ _ _ _ Ha) as [p ->].
    apply ForallOrdPairs_filter. apply (distinct_perm gens); [|assumption].
    symmetry. apply iter_perm. }
  destruct Hacs as [Hincl Hdacs]. subst acs.
  assert (H1 : In stab1 gens) by (apply Hincl, in_or_app; right; right; now left).
  assert (H2 : In stab2 gens) by (apply Hincl, in_or_app; right; now left).
  apply ForallOrdPairs_app_last2 in Hdacs. destruct Hdacs as [_ H12].
  assert (Hw1 : wf_dict stab1) by (unfold all_wf in Hwf; rewrite Forall_forall in Hwf; auto).
  assert (Hw2 : wf_dict stab2) by (unfold all_wf in Hwf; rewrite Forall_forall in Hwf; auto).
  set (g1 := set_discard (set_discard gens stab1) stab2).
  assert (Hg1len : S (length g1) < length gens).
  { assert (L1 : length (set_discard gens stab1) < length gens).
    { apply (filter_length_lt _ gens stab1 H1).
      now rewrite stabilizer_eq_refl. }
    assert (L2 : length g1 < length (set_discard gens stab1)).
    { apply (filter_length_lt _ _ stab2).
      - apply filter_In. split; [assumption | now rewrite H12].
      - now rewrite stabilizer_eq_refl. }
    lia. }
  assert (Hg1wf : all_wf g1) by (unfold g1; now do 2 apply set_discard_all_wf).
  assert (Hg1d : distinct g1) by (unfold g1; now do 2 apply ForallOrdPairs_filter).
  set (g2 := if negb (Stabilizer.is_trivial (Stabilizer.multiply stab1 stab2))
             then set_add g1 (Stabilizer.multiply stab1 stab2) else g1).
  assert (Hg2 : all_wf g2 /\ distinct g2 /\ length g2 < fuel).
  { unfold g2. destruct (negb _).
    - pose proof (set_add_length g1 (Stabilizer.multiply stab1 stab2)).
      repeat split; [apply set_add_all_wf | apply set_add_distinct | lia];
        auto using wf_multiply.
    - repeat split; try assumption. lia. }
  destruct Hg2 as (Hg2wf & Hg2d & Hg2len).
  pose proof (anti_commuting_terminated it g2 meas_stab) as T.
  destruct (anti_commuting it g2 meas_stab) as [acs'| |] eqn:Ea'; cbn [bind];
    try reflexivity; try discriminate.
  now apply IH.
Qed.

Lemma prototype_adjust_one_terminates (it : IterOrder) (gens : pyset)
      (meas_stab : stabilizer) :
  all_wf gens -> distinct gens ->
  terminated (Initial.adjust_one it gens meas_stab) = true.
Proof.
  intros Hwf Hd. unfold Initial.adjust_one.
  pose proof (anti_commuting_terminated it gens meas_stab) as T.
  destruct (anti_commuting it gens meas_stab) as [acs| |] eqn:Ea; cbn [bind];
    try reflexivity; try discriminate.
  pose proof (prototype_resolve_terminates it meas_stab (S (length gens)) gens acs
                Hwf Hd Ea ltac:(lia)) as Tr.
  destruct (Initial.resolve _ _ _ _ _) as [[g a]| |]; cbn [bind snd fst];
    try reflexivity; try discriminate.
  now destruct a as [|x [|y a]].
Qed.

(** The generator set after a schedule depends on the order in which the
    sets are enumerated: the schedule of [completed_step_strict_superset]
    ends differently when the members are enumerated last-in first. *)
Lemma generators_depend_on_order :
  Interactive.generators_after reverse_order (init 4 4)
    [[(1, 2); (6, 7); (11, 12); (16, 17); (21, 22)];
     [(1, 6); (11, 16)];
     [(11, 12); (6, 7); (16, 21); (6, 11)];
     [(16, 17); (21, 22)]]%Z
  = Ok [[(16, PZ); (17, PZ)]; [(21, PZ); (22, PZ)]; [(1, PZ); (2, PZ)]]%Z.
Proof. vm_compute. reflexivity. Qed.

(** ** Every time step completes *)

Lemma dict_get_in_keys (d : dict) (q : Z) :
  In q (keys d) <-> dict_get d q <> None.
Proof.
  pose proof (dict_get_none d q) as H.
  destruct (in_dec Z.eq_dec q (keys d)) as [Hin|Hn].
  - split; [|auto]. intros _ E. apply H in E. contradiction.
  - split; [contradiction|]. intros E. exfalso. apply E. now apply H.
Qed.

Lemma keys_multiply (s t : stabilizer) (q : Z) :
  wf_dict s -> wf_dict t ->
  In q (keys (Stabilizer.multiply s t)) -> In q (keys s) \/ In q (keys t).
Proof.
  intros Hs Ht Hin. apply dict_get_in_keys in Hin.
  rewrite dict_get_multiply in Hin by assumption.
  destruct (dict_get s q) eqn:Es.
  - left. apply dict_get_in_keys. congruence.
  - right. apply dict_get_in_keys. cbn [op_mul] in Hin. exact Hin.
Qed.

Lemma stab_ok_multiply (self : BaconShorCode) (s t : stabilizer) :
  stab_ok self s -> stab_ok self t ->
  Stabilizer.is_trivial (Stabilizer.multiply s t) = false ->
  stab_ok self (Stabilizer.multiply s t).
Proof.
  intros (Hs & _ & Ks) (Ht & _ & Kt) Hn. repeat split.
  - now apply wf_multiply.
  - exact Hn.
  - apply Forall_forall. intros q Hq.
    rewrite Forall_forall in Ks, Kt.
    apply keys_multiply in Hq; try assumption. destruct Hq; auto.
Qed.

Lemma stab_ok_measurement_term (self : BaconShorCode) (p : Z * Z) :
  is_adjacent self (fst p) (snd p) = true -> stab_ok self (measurement_term self p).
Proof.
  intros H. repeat split.
  - now apply measurement_term_wf.
  - apply is_adjacent_in_grid in H. apply andb_true_iff in H.
    destruct H as [Ha Hb]. unfold measurement_term. cbn [keys map fst].
    repeat constructor; assumption.
Qed.

Lemma get_qubit_position_in_grid (self : BaconShorCode) (q : Z) :
  in_grid self q = true -> get_qubit_position self q = Ok (coordinate_of self q).
Proof.
  intros H. unfold get_qubit_position. now rewrite argwhere_grid, H.
Qed.

Lemma positions_in_grid (self : BaconShorCode) (k : nat * nat -> nat)
      (stab : stabilizer) :
  Forall (fun q => in_grid self q = true) (keys stab) ->
  Interactive.positions self k stab =
  Ok (map (fun q => k (coordinate_of self q)) (keys stab)).
Proof.
  unfold Interactive.positions. induction 1 as [|q l Hq _ IH]; [reflexivity|].
  cbn [mapM map]. rewrite (get_qubit_position_in_grid self q Hq). cbn [bind].
  now rewrite IH.
Qed.

Lemma span_ok_in_grid (self : BaconShorCode) (ty : op) (s1 s2 : stabilizer) :
  stab_ok self s1 -> stab_ok self s2 ->
  exists b, Interactive.span_ok self ty s1 s2 = Ok b.
Proof.
  intros (_ & _ & K1) (_ & _ & K2).
  destruct ty; cbn [Interactive.span_ok]; try (eexists; reflexivity);
    rewrite (positions_in_grid self _ s1 K1), (positions_in_grid self _ s2 K2);
    cbn [bind]; eexists; reflexivity.
Qed.

Lemma first_value_nontrivial (self : BaconShorCode) (s : stabilizer) :
  stab_ok self s -> exists ty, first_value s = Ok ty.
Proof.
  intros (_ & Hn & _). destruct s as [|[q ty] s]; [discriminate|].
  exists ty. reflexivity.
Qed.

Lemma measurement_of_nontrivial (self : BaconShorCode) (s : stabilizer) :
  stab_ok self s -> exists m, measurement_of s = Ok m.
Proof.
  intros (_ & Hn & _). destruct s as [|[q ty] s]; [discriminate|].
  eexists. reflexivity.
Qed.

Lemma scan_partner_ok (self : BaconShorCode) (stab1 : stabilizer) (ty : op)
      (rest : list stabilizer) :
  stab_ok self stab1 -> gens_ok self rest ->
  Interactive.scan_partner self stab1 ty rest = Ok None
  \/ exists mid stab2 post,
      Interactive.scan_partner self stab1 ty rest = Ok (Some stab2)
      /\ rest = mid ++ stab2 :: post.
Proof.
  intros H1. induction 1 as [|stab2 rest H2 _ IH]; [now left|].
  cbn [Interactive.scan_partner].
  destruct (first_value_nontrivial self stab2 H2) as [ty2 ->]. cbn [bind].
  assert (Hrec : Interactive.scan_partner self stab1 ty rest = Ok None
                 \/ exists mid s2 post,
                     Interactive.scan_partner self stab1 ty rest = Ok (Some s2)
                     /\ stab2 :: rest = mid ++ s2 :: post).
  { destruct IH as [IH|(mid & s2 & post & IH & ->)]; [now left|].
    right. exists (stab2 :: mid), s2, post. now split. }
  destruct (op_eqb ty ty2); [|exact Hrec].
  destruct (span_ok_in_grid self ty stab1 stab2 H1 H2) as [b ->]. cbn [bind].
  destruct b; [|exact Hrec].
  right. exists [], stab2, rest. now split.
Qed.

Lemma scan_pairs_ok (self : BaconShorCode) (l : list stabilizer) :
  gens_ok self l ->
  Interactive.scan_pairs self l = Ok None
  \/ exists pre stab1 mid stab2 post,
      Interactive.scan_pairs self l = Ok (Some (stab1, stab2))
      /\ l = pre ++ stab1 :: mid ++ stab2 :: post.
Proof.
  induction 1 as [|stab1 rest H1 Hrest IH]; [now left|].
  cbn [Interactive.scan_pairs].
  destruct (first_value_nontrivial self stab1 H1) as [ty ->]. cbn [bind].
  destruct (scan_partner_ok self stab1 ty rest H1 Hrest)
    as [->|(mid & stab2 & post & -> & ->)]; cbn [bind].
  - destruct IH as [IH|(pre & s1 & mid & s2 & post & IH & ->)]; [now left|].
    right. exists (stab1 :: pre), s1, mid, s2, post. now split.
  - right. exists [], stab1, mid, stab2, post. now split.
Qed.

Lemma list_remove_found (pre rest : list stabilizer) (x : stabilizer) :
  wf_dict x ->
  exists l', list_remove (pre ++ x :: rest) x = Ok l'
             /\ incl rest l' /\ incl l' (pre ++ x :: rest).
Proof.
  intros Hx. induction pre as [|y pre IH]; cbn [app list_remove].
  - rewrite (stabilizer_eq_refl x Hx). exists rest.
    split; [reflexivity|]. split; [apply incl_refl | apply incl_tl, incl_refl].
  - destruct (Stabilizer.eq y x).
    + exists (pre ++ x :: rest). split; [reflexivity|]. split.
      * intros z Hz. apply in_or_app. right. now right.
      * apply incl_tl, incl_refl.
    + destruct IH as (l' & -> & Hin & Hincl). cbn [bind]. exists (y :: l').
      split; [reflexivity|]. split.
      * now apply incl_tl.
      * intros z [<-|Hz]; [now left | right; now apply Hincl].
Qed.

Lemma gens_ok_incl (self : BaconShorCode) (l l' : list stabilizer) :
  incl l' l -> gens_ok self l -> gens_ok self l'.
Proof.
  unfold gens_ok. intros Hi H. rewrite Forall_forall in *. auto.
Qed.

Lemma gens_ok_set_add (self : BaconShorCode) (s : pyset) (x : stabilizer) :
  gens_ok self s -> stab_ok self x -> gens_ok self (set_add s x).
Proof.
  intros Hs Hx. unfold set_add. destruct (set_mem x s); [assumption|].
  apply Forall_app. split; [assumption | now constructor].
Qed.

Lemma gens_ok_set_discard (self : BaconShorCode) (s : pyset) (x : stabilizer) :
  gens_ok self s -> gens_ok self (set_discard s x).
Proof.
  apply gens_ok_incl. intros y Hy. apply filter_In in Hy. tauto.
Qed.

Lemma gens_ok_fold_discard (self : BaconShorCode) (l : list stabilizer) (s : pyset) :
  gens_ok self s -> gens_ok self (fold_left set_discard l s).
Proof.
  revert s. induction l as [|x l IH]; intros s Hs; cbn [fold_left]; [assumption|].
  apply IH. now apply gens_ok_set_discard.
Qed.

Lemma gens_ok_fold_add (self : BaconShorCode) (l : list stabilizer) (s : pyset) :
  gens_ok self s -> gens_ok self l -> gens_ok self (fold_left set_add l s).
Proof.
  revert s. induction l as [|x l IH]; intros s Hs Hl; cbn [fold_left]; [assumption|].
  inversion Hl; subst. apply IH; [now apply gens_ok_set_add | assumption].
Qed.

Lemma combine_ok (self : BaconShorCode) (gens : pyset)
      (pre mid post : list stabilizer) (meas_stab stab1 stab2 : stabilizer) :
  gens_ok self gens -> gens_ok self (pre ++ stab1 :: mid ++ stab2 :: post) ->
  stab_ok self meas_stab ->
  exists gens' acs',
    Interactive.combine gens (pre ++ stab1 :: mid ++ stab2 :: post)
                        meas_stab stab1 stab2 = Ok (gens', acs')
    /\ gens_ok self gens' /\ gens_ok self acs'.
Proof.
  intros Hg Ha Hm. unfold Interactive.combine.
  assert (H1 : stab_ok self stab1).
  { unfold gens_ok in Ha. rewrite Forall_forall in Ha. apply Ha.
    apply in_or_app. right. now left. }
  assert (H2 : stab_ok self stab2).
  { unfold gens_ok in Ha. rewrite Forall_forall in Ha. apply Ha.
    apply in_or_app. right. right. apply in_or_app. right. now left. }
  destruct (list_remove_found pre (mid ++ stab2 :: post) stab1 (proj1 H1))
    as (a1 & -> & Hkeep & Hincl1). cbn [bind].
  assert (Hs2 : In stab2 a1) by (apply Hkeep, in_or_app; right; now left).
  apply in_split in Hs2. destruct Hs2 as (p2 & r2 & Ea1).
  destruct (list_remove_found p2 r2 stab2 (proj1 H2)) as (a2 & E2 & _ & Hincl2).
  rewrite Ea1, E2. cbn [bind].
  assert (Ha2 : gens_ok self a2).
  { apply (gens_ok_incl self _ a2) in Ha; [assumption|].
    intros z Hz. apply Hincl1. rewrite Ea1. now apply Hincl2. }
  pose proof (gens_ok_set_discard self _ stab2 (gens_ok_set_discard self _ stab1 Hg)) as Hd.
  destruct (Stabilizer.is_trivial (Stabilizer.multiply stab1 stab2)) eqn:Et;
    cbn [negb].
  - eexists _, _. split; [reflexivity|]. now split.
  - pose proof (stab_ok_multiply self stab1 stab2 H1 H2 Et) as Hc.
    destruct (measurement_of_nontrivial self meas_stab Hm) as [m ->]. cbn [bind].
    destruct (negb (Stabilizer.commutes_with (Stabilizer.multiply stab1 stab2) m));
      eexists _, _; (split; [reflexivity|]); (split; [now apply gens_ok_set_add|]);
      [|assumption].
    apply Forall_app. split; [assumption | now constructor].
Qed.

Lemma resolve_ok (self : BaconShorCode) (meas_stab : stabilizer) :
  stab_ok self meas_stab ->
  forall fuel gens acs,
    length acs < fuel -> gens_ok self gens -> gens_ok self acs ->
    exists gens' acs',
      Interactive.resolve fuel self meas_stab gens acs = Ok (gens', acs')
      /\ gens_ok self gens' /\ gens_ok self acs'.
Proof.
  intros Hm. induction fuel as [|fuel IH]; intros gens acs Hlen Hg Ha; [lia|].
  cbn [Interactive.resolve].
  destruct (scan_pairs_ok self acs Ha)
    as [->|(pre & s1 & mid & s2 & post & -> & Eacs)]; cbn [bind].
  - eexists _, _. split; [reflexivity|]. now split.
  - subst acs.
    destruct (combine_ok self gens pre mid post meas_stab s1 s2 Hg Ha Hm)
      as (g1 & a1 & Ec & Hg1 & Ha1).
    rewrite Ec. cbn [bind fst snd].
    apply combine_shrinks in Ec. apply IH; try assumption. lia.
Qed.

Lemma adjust_one_ok (it : IterOrder) (self : BaconShorCode) (gens : pyset)
      (meas_stab : stabilizer) :
  stab_ok self meas_stab -> gens_ok self gens ->
  exists gens', Interactive.adjust_one it self gens meas_stab = Ok gens'
                /\ gens_ok self gens'.
Proof.
  intros Hm Hg. unfold Interactive.adjust_one, Interactive.resolve_and_discard.
  assert (Ha : exists acs, anti_commuting it gens meas_stab = Ok acs).
  { unfold anti_commuting. destruct (iter it gens); [now eexists|].
    destruct (measurement_of_nontrivial self meas_stab Hm) as [m ->].
    cbn [bind]. now eexists. }
  destruct Ha as [acs Ha]. rewrite Ha. cbn [bind].
  assert (Hacs : gens_ok self acs)
    by (exact (gens_ok_incl self gens acs (anti_commuting_incl _ _ _ _ Ha) Hg)).
  destruct (resolve_ok self meas_stab Hm (S (length acs)) gens acs
              ltac:(lia) Hg Hacs) as (g1 & a1 & -> & Hg1 & _).
  cbn [bind fst snd]. eexists. split; [reflexivity|].
  now apply gens_ok_fold_discard.
Qed.

Lemma adjust_ok (it : IterOrder) (self : BaconShorCode) (ms : list stabilizer) :
  gens_ok self ms ->
  forall gens, gens_ok self gens ->
               exists gens', Interactive.adjust it self gens ms = Ok gens'
                             /\ gens_ok self gens'.
Proof.
  unfold Interactive.adjust.
  induction 1 as [|m ms Hm _ IH]; intros gens Hg; cbn [foldM].
  - now exists gens.
  - destruct (adjust_one_ok it self gens m Hm Hg) as (g1 & -> & Hg1).
    cbn [bind]. now apply IH.
Qed.

Lemma reduce_fold_keys (l : list stabilizer) (cur : stabilizer) :
  wf_dict cur -> Forall wf_dict l ->
  let final :=
    fold_left
      (fun stab simple_stab =>
         if Stabilizer.items_subset simple_stab stab
         then Stabilizer.multiply stab simple_stab else stab) l cur in
  incl (keys final) (keys cur).
Proof.
  revert cur. induction l as [|s l IH]; intros cur Hc Hl; cbn [fold_left].
  - apply incl_refl.
  - inversion Hl as [|? ? Hs Hl']; subst.
    destruct (Stabilizer.items_subset s cur) eqn:E.
    + eapply incl_tran; [apply IH; [now apply wf_multiply | assumption]|].
      intros q Hq. apply keys_multiply in Hq; try assumption.
      destruct Hq as [Hq|Hq]; [assumption|].
      rewrite items_subset_spec in E. now apply (items_incl_keys s cur E).
    + now apply IH.
Qed.

Lemma simplify_entry_gens_ok (it : IterOrder) (self : BaconShorCode)
      (simplified : pyset) (stab : stabilizer) :
  stab_ok self stab -> gens_ok self simplified ->
  gens_ok self (Interactive.simplify_entry it simplified stab).
Proof.
  intros (Hw & _ & Hk) Hs. unfold Interactive.simplify_entry.
  destruct (Stabilizer.is_trivial (Interactive.reduce_by it simplified stab)) eqn:E;
    cbn [negb]; [assumption|].
  apply gens_ok_set_add; [assumption|].
  assert (Hwf : Forall wf_dict (iter it simplified)).
  { eapply Permutation_Forall; [symmetry; apply iter_perm|].
    unfold gens_ok in Hs. rewrite Forall_forall in *. intros g Hg.
    now destruct (Hs g Hg). }
  repeat split.
  - unfold Interactive.reduce_by.
    now destruct (reduce_fold_not_within (iter it simplified) [] stab Hw Hwf
                    ltac:(eapply Permutation_Forall;
                          [symmetry; apply iter_perm|];
                          unfold gens_ok in Hs; rewrite Forall_forall in *;
                          intros g Hg; now destruct (Hs g Hg) as (_ & ? & _))
                    ltac:(constructor)).
  - exact E.
  - pose proof (reduce_fold_keys (iter it simplified) stab Hw Hwf) as Hi.
    cbv zeta in Hi. fold (Interactive.reduce_by it simplified stab) in Hi.
    rewrite Forall_forall in *. auto.
Qed.

Lemma simplify_gens_ok (it : IterOrder) (self : BaconShorCode) (gens : pyset) :
  gens_ok self gens -> gens_ok self (Interactive.simplify it gens).
Proof.
  intros Hg. unfold Interactive.simplify.
  assert (HL : gens_ok self (sorted_by_weight (iter it gens))).
  { eapply Permutation_Forall; [|exact Hg]. symmetry.
    rewrite sorted_by_weight_perm. apply iter_perm. }
  assert (H : forall l acc, gens_ok self l -> gens_ok self acc ->
                            gens_ok self (fold_left (Interactive.simplify_entry it) l acc)).
  { induction l as [|x l IH]; intros acc Hl Hacc; cbn [fold_left]; [assumption|].
    inversion Hl; subst. apply IH; [assumption|]. now apply simplify_entry_gens_ok. }
  apply H; [assumption | constructor].
Qed.

Lemma gens_ok_all_wf (self : BaconShorCode) (s : pyset) : gens_ok self s -> all_wf s.
Proof.
  unfold gens_ok, all_wf. intros H. rewrite Forall_forall in *. intros g Hg.
  now destruct (H g Hg).
Qed.

Lemma gens_ok_terms (self : BaconShorCode) (batch : list (Z * Z)) :
  Forall (fun p => is_adjacent self (fst p) (snd p) = true) batch ->
  gens_ok self (map (measurement_term self) batch).
Proof.
  intros H. apply Forall_forall. intros t Ht. apply in_map_iff in Ht.
  destruct Ht as [p [<- Hp]]. apply stab_ok_measurement_term.
  rewrite Forall_forall in H. now apply H.
Qed.

(** A time step on a state whose generators are well formed completes, and
    leaves such a state again. *)
Lemma run_time_step_ok (it : IterOrder) (self : BaconShorCode) (batch : list (Z * Z)) :
  gens_ok self (stabilizer_generators self) ->
  exists self',
    snd (Interactive.run_time_step it self batch) = Ok self'
    /\ rows self' = rows self /\ cols self' = cols self
    /\ simplified_ok (stabilizer_generators self')
    /\ gens_ok self (stabilizer_generators self').
Proof.
  intros Hg. unfold Interactive.run_time_step.
  rewrite (validate_spec (tick self) batch). cbn [snd].
  change (accepted (tick self) batch) with (accepted self batch).
  pose proof (accepted_adjacent self batch) as Hv.
  set (valid := accepted self batch) in *.
  assert (Hup : exists s1,
             Interactive.update_stabilizers it (tick self) valid = Ok s1
             /\ rows s1 = rows self /\ cols s1 = cols self
             /\ simplified_ok (stabilizer_generators s1)
             /\ gens_ok self (stabilizer_generators s1)).
  { unfold Interactive.update_stabilizers.
    change (meas_stab_of (tick self)) with (meas_stab_of self).
    rewrite (mapM_meas_stab_of self valid Hv). cbn [bind].
    pose proof (gens_ok_terms self valid Hv) as Hterms.
    assert (Hnew : gens_ok self (fold_left set_add (map (measurement_term self) valid) []))
      by (apply gens_ok_fold_add; [constructor | assumption]).
    destruct (time_step (tick self) =? 1).
    - eexists. split; [reflexivity|].
      cbn [with_generators rows cols stabilizer_generators tick].
      split; [reflexivity|]. split; [reflexivity|].
      split; [now apply bootstrap_ok | assumption].
    - unfold Interactive.adjust_stabilizers.
      cbn [with_generators stabilizer_generators].
      match goal with
      | |- context [Interactive.adjust it ?s ?g ?ms] =>
          destruct (adjust_ok it s ms Hterms g) as (g1 & -> & Hg1)
      end.
      { unfold set_union. apply gens_ok_fold_add; [assumption|].
        eapply Permutation_Forall; [symmetry; apply iter_perm | assumption]. }
      cbn [bind]. eexists. split; [reflexivity|].
      cbn [Interactive.simplify_stabilizers with_generators rows cols
           stabilizer_generators tick].
      split; [reflexivity|]. split; [reflexivity|].
      split; [apply simplify_ok; now apply (gens_ok_all_wf self)
             | now apply (simplify_gens_ok it self)]. }
  destruct Hup as (s1 & -> & Hr & Hc & Hok & Hg1). cbn [bind].
  eexists. split; [reflexivity|]. cbn [rows cols stabilizer_generators]. auto.
Qed.

Lemma gens_ok_same_grid (self self' : BaconShorCode) (s : pyset) :
  rows self' = rows self -> cols self' = cols self ->
  gens_ok self s -> gens_ok self' s.
Proof.
  intros Hr Hc. unfold gens_ok, stab_ok.
  assert (E : forall q, in_grid self' q = in_grid self q).
  { intros q. unfold in_grid, num_qubits. now rewrite Hr, Hc. }
  intros H. rewrite Forall_forall in *. intros g Hg.
  destruct (H g Hg) as (H1 & H2 & H3). repeat split; try assumption.
  rewrite Forall_forall in *. intros q Hq. rewrite E. auto.
Qed.

(** Every schedule runs to its end, from the fresh object onwards. *)
Lemma run_completes (it : IterOrder) (schedule : list (list (Z * Z))) :
  forall self,
    gens_ok self (stabilizer_generators self) ->
    exists self',
      Interactive.run it self schedule = Ok self'
      /\ gens_ok self' (stabilizer_generators self').
Proof.
  unfold Interactive.run.
  induction schedule as [|batch schedule IH]; intros self Hg; cbn [foldM].
  - now exists self.
  - destruct (run_time_step_ok it self batch Hg) as (s1 & -> & Hr & Hc & _ & Hg1).
    cbn [bind]. apply IH. now apply (gens_ok_same_grid self).
Qed.

(** C4, amended: every time step on a state with well-formed generators
    (the fresh object, and every state a step leaves) completes, and after
    it (the first step, or an incorporation followed by the simplification
    pass) no two generators are equal by value, every generator is
    non-trivial, and no generator's (qubit, symbol) pair-set contains the
    pair-set of a generator that entered the set before it (for the
    simplification pass: that was accepted before it).  The generators stay
    well-formed dictionaries over qubits of the lattice. *)
Theorem completed_step_invariant (it : IterOrder) (self : BaconShorCode)
        (batch : list (Z * Z)) :
  gens_ok self (stabilizer_generators self) ->
  exists self',
    snd (Interactive.run_time_step it self batch) = Ok self'
    /\ set_nodup (stabilizer_generators self')
    /\ all_nontrivial (stabilizer_generators self')
    /\ earlier_not_within (stabilizer_generators self')
    /\ gens_ok self (stabilizer_generators self').
Proof.
  intros Hg.
  destruct (run_time_step_ok it self batch Hg)
    as (self' & Hrun & _ & _ & (H1 & H2 & _ & H3) & H4).
  exists self'. auto.
Qed.

Ltac solve_gens_ok :=
  repeat (constructor;
          [repeat split; [solve_wf | repeat (constructor; [reflexivity|]); constructor]|]);
  constructor.

Lemma completed_step_invariant_witness :
  exists self',
    snd (Interactive.run_time_step insertion_order
           {| rows := 4; cols := 4;
              stabilizer_generators := [[(1, PZ); (2, PZ)]; [(6, PZ); (7, PZ)]]%Z;
              time_step := 1;
              current_measurements := [(1, 2); (6, 7)]%Z;
              measurements_history := [[(1, 2); (6, 7)]%Z] |}
           [(1, 6); (2, 7)]%Z) = Ok self'
    /\ stabilizer_generators self' =
       [[(1, PX); (6, PX)]; [(2, PX); (7, PX)];
        [(1, PZ); (2, PZ); (6, PZ); (7, PZ)]]%Z
    /\ set_nodup (stabilizer_generators self')
    /\ all_nontrivial (stabilizer_generators self')
    /\ earlier_not_within (stabilizer_generators self').
Proof.
  destruct (completed_step_invariant insertion_order
              {| rows := 4; cols := 4;
                 stabilizer_generators := [[(1, PZ); (2, PZ)]; [(6, PZ); (7, PZ)]]%Z;
                 time_step := 1;
                 current_measurements := [(1, 2); (6, 7)]%Z;
                 measurements_history := [[(1, 2); (6, 7)]%Z] |}
              [(1, 6); (2, 7)]%Z)
    as (self' & Hrun & H1 & H2 & H3 & _).
  - cbn [stabilizer_generators]. solve_gens_ok.
  - exists self'. split; [exact Hrun|]. split; [|auto].
    vm_compute in Hrun. now injection Hrun as <-.
Defined.

(** ** Coordinates and ids *)

Lemma nth_map_seq {A : Type} (f : nat -> A) (n i : nat) (d : A) :
  i < n -> nth i (map f (seq 0 n)) d = f i.
Proof.
  intros Hi.
  rewrite (nth_indep _ d (f 0)) by (rewrite length_map, length_seq; exact Hi).
  rewrite map_nth, seq_nth by exact Hi. reflexivity.
Qed.

Lemma grid_at_spec (self : BaconShorCode) (i j : nat) :
  i <= rows self -> j <= cols self ->
  grid_at self i j = (1 + Z.of_nat i * Z.of_nat (S (cols self)) + Z.of_nat j)%Z.
Proof.
  intros Hi Hj. unfold grid_at, self_grid, grid.
  rewrite nth_map_seq by lia. rewrite nth_map_seq by lia. reflexivity.
Qed.

Lemma in_grid_spec (self : BaconShorCode) (q : Z) :
  in_grid self q = true <-> (1 <= q <= num_qubits self)%Z.
Proof.
  unfold in_grid. rewrite andb_true_iff, !Z.leb_le. tauto.
Qed.

Lemma grid_at_in_grid (self : BaconShorCode) (i j : nat) :
  i <= rows self -> j <= cols self -> in_grid self (grid_at self i j) = true.
Proof.
  intros Hi Hj. rewrite grid_at_spec by assumption.
  apply in_grid_spec. unfold num_qubits. nia.
Qed.

Lemma coordinate_of_grid_at (self : BaconShorCode) (i j : nat) :
  i <= rows self -> j <= cols self ->
  coordinate_of self (grid_at self i j) = (i, j).
Proof.
  intros Hi Hj. rewrite grid_at_spec by assumption. unfold coordinate_of.
  replace (1 + Z.of_nat i * Z.of_nat (S (cols self)) + Z.of_nat j - 1)%Z
    with (Z.of_nat j + Z.of_nat i * Z.of_nat (S (cols self)))%Z by lia.
  rewrite Z.div_add, Z.mod_add by lia.
  rewrite Z.div_small, Z.mod_small by lia.
  f_equal; lia.
Qed.

Lemma coordinate_of_bounds (self : BaconShorCode) (q : Z) :
  in_grid self q = true ->
  fst (coordinate_of self q) <= rows self
  /\ snd (coordinate_of self q) <= cols self
  /\ grid_at self (fst (coordinate_of self q)) (snd (coordinate_of self q)) = q.
Proof.
  intros Hq. apply in_grid_spec in Hq. unfold num_qubits in Hq.
  unfold coordinate_of. cbn [fst snd].
  set (C := Z.of_nat (S (cols self))) in *.
  assert (HC : (0 < C)%Z) by (unfold C; lia).
  pose proof (Z.div_mod (q - 1) C ltac:(lia)) as Hdm.
  pose proof (Z.mod_pos_bound (q - 1) C HC) as Hm.
  assert (Hd0 : (0 <= (q - 1) / C)%Z) by (apply Z.div_pos; lia).
  assert (Hd : ((q - 1) / C < Z.of_nat (S (rows self)))%Z).
  { apply Z.div_lt_upper_bound; [exact HC|]. nia. }
  assert (H1 : Z.to_nat ((q - 1) / C) <= rows self) by lia.
  assert (H2 : Z.to_nat ((q - 1) mod C) <= cols self) by (unfold C in *; lia).
  split; [exact H1|]. split; [exact H2|].
  rewrite grid_at_spec by assumption. fold C.
  rewrite !Z2Nat.id by lia. lia.
Qed.

Lemma coordinate_of_inj (self : BaconShorCode) (a b : Z) :
  in_grid self a = true -> in_grid self b = true ->
  coordinate_of self a = coordinate_of self b -> a = b.
Proof.
  intros Ha Hb E.
  destruct (coordinate_of_bounds self a Ha) as (_ & _ & Ea).
  destruct (coordinate_of_bounds self b Hb) as (_ & _ & Eb).
  rewrite <- Ea, <- Eb, E. reflexivity.
Qed.

Lemma get_qubit_position_out (self : BaconShorCode) (q : Z) :
  in_grid self q = false -> get_qubit_position self q = Raise ValueError.
Proof.
  intros H. unfold get_qubit_position. rewrite argwhere_grid, H. reflexivity.
Qed.

(** X1: [get_qubit_position] and the grid are inverse to each other. *)
Theorem get_qubit_position_round_trip (self : BaconShorCode) :
  (forall q, in_grid self q = false ->
             get_qubit_position self q = Raise ValueError)
  /\ (forall q, in_grid self q = true ->
                exists i j, get_qubit_position self q = Ok (i, j)
                            /\ i <= rows self /\ j <= cols self
                            /\ grid_at self i j = q)
  /\ (forall i j, i <= rows self -> j <= cols self ->
                  get_qubit_position self (grid_at self i j) = Ok (i, j))
  /\ (forall q q' pos, get_qubit_position self q = Ok pos ->
                       get_qubit_position self q' = Ok pos -> q = q').
Proof.
  split; [apply get_qubit_position_out|].
  split.
  { intros q Hq. destruct (coordinate_of_bounds self q Hq) as (H1 & H2 & H3).
    exists (fst (coordinate_of self q)), (snd (coordinate_of self q)).
    rewrite get_qubit_position_in_grid by exact Hq.
    rewrite <- surjective_pairing. auto. }
  split.
  { intros i j Hi Hj.
    rewrite get_qubit_position_in_grid by (apply grid_at_in_grid; assumption).
    rewrite coordinate_of_grid_at by assumption. reflexivity. }
  intros q q' pos H H'.
  destruct (in_grid self q) eqn:Hq;
    [|rewrite get_qubit_position_out in H by exact Hq; discriminate].
  destruct (in_grid self q') eqn:Hq';
    [|rewrite get_qubit_position_out in H' by exact Hq'; discriminate].
  rewrite get_qubit_position_in_grid in H, H' by assumption.
  apply (coordinate_of_inj self); congruence.
Qed.

Ltac abs_cases H :=
  match type of H with
  | Z.abs ?x = ?c =>
      let H' := fresh in
      assert (H' : x = c \/ x = (- c)%Z) by lia;
      clear H; destruct H' as [H|H]
  end.

Lemma multiple_small (k C e : Z) :
  (0 < C)%Z -> (Z.abs e < C)%Z -> (k * C = e)%Z -> k = 0%Z /\ e = 0%Z.
Proof.
  intros HC He H.
  assert (k = 0%Z) by nia. subst k. lia.
Qed.

Lemma is_adjacent_coords (self : BaconShorCode) (i j i' j' : nat) :
  i <= rows self -> j <= cols self -> i' <= rows self -> j' <= cols self ->
  is_adjacent self (grid_at self i j) (grid_at self i' j') =
  (abs_diff i i' + abs_diff j j' =? 1)%Z.
Proof.
  intros Hi Hj Hi' Hj'. unfold is_adjacent.
  rewrite !grid_at_in_grid, !coordinate_of_grid_at by assumption.
  reflexivity.
Qed.

Lemma in_grid_decompose (self : BaconShorCode) (q : Z) :
  in_grid self q = true ->
  exists i j, i <= rows self /\ j <= cols self /\ q = grid_at self i j.
Proof.
  intros Hq. destruct (coordinate_of_bounds self q Hq) as (H1 & H2 & H3).
  eauto.
Qed.

(** X2: adjacency read off the ids. *)
Theorem adjacency_by_ids (self : BaconShorCode) (a b : Z) :
  in_grid self a = true -> in_grid self b = true ->
  let C := Z.of_nat (S (cols self)) in
  (fst (is_valid_measurement self (a, b)) = true
   <-> Z.abs (a - b) = C \/ (Z.abs (a - b) = 1 /\ Z.min a b mod C <> 0)%Z)
  /\ (get_measurement_type self (a, b) = Ok PX <-> Z.abs (a - b) = C)
  /\ (get_measurement_type self (a, b) = Ok PZ
      <-> (Z.abs (a - b) = 1 /\ Z.min a b mod C <> 0 /\ C <> 1)%Z).
Proof.
  intros Ha Hb C.
  destruct (in_grid_decompose self a Ha) as (i & j & Hi & Hj & ->).
  destruct (in_grid_decompose self b Hb) as (i' & j' & Hi' & Hj' & ->).
  rewrite is_valid_measurement_spec, Ha, Hb. cbn [andb].
  rewrite get_measurement_type_in_grid by assumption.
  rewrite is_adjacent_coords, !coordinate_of_grid_at by assumption.
  cbn [fst snd].
  rewrite !grid_at_spec by assumption. fold C.
  assert (HC : (C = Z.of_nat (cols self) + 1)%Z) by (unfold C; lia).
  assert (Hmod : forall (r c : nat), c <= cols self ->
            ((1 + Z.of_nat r * C + Z.of_nat c) mod C =
             if (Z.of_nat c + 1 =? C)%Z then 0 else Z.of_nat c + 1)%Z).
  { intros r c Hc.
    replace (1 + Z.of_nat r * C + Z.of_nat c)%Z
      with ((Z.of_nat c + 1) + Z.of_nat r * C)%Z by lia.
    rewrite Z.mod_add by lia.
    destruct (Z.eqb_spec (Z.of_nat c + 1) C) as [E|E].
    - rewrite E. apply Z.mod_same. lia.
    - apply Z.mod_small. lia. }
  unfold abs_diff.
  assert (Hcases : (i = i' /\ (j = S j' \/ j' = S j))
                   \/ (j = j' /\ (i = S i' \/ i' = S i))
                   \/ ((Z.abs (Z.of_nat i - Z.of_nat i')
                        + Z.abs (Z.of_nat j - Z.of_nat j') <> 1)%Z)) by lia.
  destruct Hcases as [(-> & Hjj)|[(-> & Hii)|Hne]].
  - (* same row *)
    assert (E1 : (Z.abs (Z.of_nat i' - Z.of_nat i') + Z.abs (Z.of_nat j - Z.of_nat j') =? 1)%Z = true)
      by (apply Z.eqb_eq; lia).
    rewrite E1.
    assert (E2 : (Z.abs (Z.of_nat i' - Z.of_nat i') =? 1)%Z = false) by (apply Z.eqb_neq; lia).
    assert (E3 : (Z.abs (Z.of_nat j - Z.of_nat j') =? 1)%Z = true) by (apply Z.eqb_eq; lia).
    rewrite E2, E3, Nat.eqb_refl. cbn [andb fst].
    assert (Hmin : (Z.min (1 + Z.of_nat i' * C + Z.of_nat j) (1 + Z.of_nat i' * C + Z.of_nat j')
                    = 1 + Z.of_nat i' * C + Z.of_nat (Nat.min j j'))%Z) by lia.
    rewrite Hmin, Hmod by lia.
    assert (E4 : (Z.of_nat (Nat.min j j') + 1 =? C)%Z = false) by (apply Z.eqb_neq; lia).
    rewrite E4.
    split; [|split].
    + split; [intros _; right; split; lia | reflexivity].
    + split; [discriminate | intros H; exfalso; lia].
    + split; [intros _; repeat split; lia | reflexivity].
  - (* same column *)
    assert (E1 : (Z.abs (Z.of_nat i - Z.of_nat i') + Z.abs (Z.of_nat j' - Z.of_nat j') =? 1)%Z = true)
      by (apply Z.eqb_eq; lia).
    rewrite E1.
    assert (E2 : (Z.abs (Z.of_nat i - Z.of_nat i') =? 1)%Z = true) by (apply Z.eqb_eq; lia).
    rewrite E2, Nat.eqb_refl. cbn [andb fst].
    assert (Hab : (Z.abs (1 + Z.of_nat i * C + Z.of_nat j' - (1 + Z.of_nat i' * C + Z.of_nat j')) = C)%Z)
      by (destruct Hii as [-> | ->]; nia).
    split; [|split].
    + split; [intros _; left; exact Hab | reflexivity].
    + split; [intros _; exact Hab | reflexivity].
    + split; [discriminate | intros (H1 & _ & H3); exfalso; lia].
  - (* not adjacent *)
    assert (E1 : (Z.abs (Z.of_nat i - Z.of_nat i') + Z.abs (Z.of_nat j - Z.of_nat j') =? 1)%Z = false)
      by (apply Z.eqb_neq; exact Hne).
    rewrite E1. cbn [fst].
    assert (HnC : (Z.abs (1 + Z.of_nat i * C + Z.of_nat j - (1 + Z.of_nat i' * C + Z.of_nat j')) <> C)%Z).
    { intros H.
      abs_cases H.
      - destruct (multiple_small (Z.of_nat i - Z.of_nat i' - 1) C
                    (Z.of_nat j' - Z.of_nat j)) as [H1 H2]; lia.
      - destruct (multiple_small (Z.of_nat i - Z.of_nat i' + 1) C
                    (Z.of_nat j' - Z.of_nat j)) as [H1 H2]; lia. }
    assert (Hn1 : ~ ((Z.abs (1 + Z.of_nat i * C + Z.of_nat j - (1 + Z.of_nat i' * C + Z.of_nat j')) = 1
                  /\ Z.min (1 + Z.of_nat i * C + Z.of_nat j) (1 + Z.of_nat i' * C + Z.of_nat j') mod C <> 0)%Z)).
    { intros (H1 & H2).
      destruct (Nat.eq_dec i i') as [->|Hii].
      - lia.
      - destruct (Nat.lt_ge_cases i i') as [Hlt|Hge].
        + assert (i' = S i /\ j' = 0 /\ j = cols self) as (-> & -> & ->).
          { assert (HD : (C <= (Z.of_nat i' - Z.of_nat i) * C)%Z) by nia.
            abs_cases H1; [lia|].
            assert (HD' : ((Z.of_nat i' - Z.of_nat i) * C = C)%Z) by lia.
            assert (Z.of_nat i' - Z.of_nat i = 1)%Z by nia.
            lia. }
          rewrite Z.min_l in H2 by nia. rewrite Hmod in H2 by lia.
          rewrite (proj2 (Z.eqb_eq _ _)) in H2 by lia. lia.
        + assert (i = S i' /\ j = 0 /\ j' = cols self) as (-> & -> & ->).
          { assert (HD : (C <= (Z.of_nat i - Z.of_nat i') * C)%Z) by nia.
            abs_cases H1; [|lia].
            assert (HD' : ((Z.of_nat i - Z.of_nat i') * C = C)%Z) by lia.
            assert (Z.of_nat i - Z.of_nat i' = 1)%Z by nia.
            lia. }
          rewrite Z.min_r in H2 by nia. rewrite Hmod in H2 by lia.
          rewrite (proj2 (Z.eqb_eq _ _)) in H2 by lia. lia. }
    split; [|split].
    + split; [discriminate | intros [H|H]; [exact (False_ind _ (HnC H)) | exact (False_ind _ (Hn1 H))]].
    + split.
      * destruct ((Z.abs (Z.of_nat i - Z.of_nat i') =? 1)%Z && (j =? j')%nat) eqn:E.
        -- apply andb_true_iff in E. destruct E as [E E']. apply Z.eqb_eq in E.
           apply Nat.eqb_eq in E'. exfalso. lia.
        -- destruct ((Z.abs (Z.of_nat j - Z.of_nat j') =? 1)%Z && (i =? i')%nat); discriminate.
      * intros H; exact (False_ind _ (HnC H)).
    + split.
      * destruct ((Z.abs (Z.of_nat i - Z.of_nat i') =? 1)%Z && (j =? j')%nat) eqn:E; [discriminate|].
        destruct ((Z.abs (Z.of_nat j - Z.of_nat j') =? 1)%Z && (i =? i')%nat) eqn:E'; [|discriminate].
        apply andb_true_iff in E'. destruct E' as [E1' E2']. apply Z.eqb_eq in E1'.
        apply Nat.eqb_eq in E2'. exfalso. lia.
      * intros (H1 & H2 & _). exfalso. apply Hn1. split; assumption.
Qed.

Lemma adjacency_by_ids_witness :
  (fst (is_valid_measurement (init 4 4) (5, 6)%Z) = true
   <-> Z.abs (5 - 6) = 5 \/ (Z.abs (5 - 6) = 1 /\ Z.min 5 6 mod 5 <> 0))%Z
  /\ (get_measurement_type (init 4 4) (5, 6)%Z = Ok PX <-> Z.abs (5 - 6) = 5)%Z
  /\ (get_measurement_type (init 4 4) (5, 6)%Z = Ok PZ
      <-> (Z.abs (5 - 6) = 1 /\ Z.min 5 6 mod 5 <> 0 /\ 5 <> 1)%Z).
Proof.
  exact (adjacency_by_ids (init 4 4) 5 6 eq_refl eq_refl).
Defined.

(** ** The edges offered to a click *)

Lemma in_edge_candidates (self : BaconShorCode) (e : Z * Z) :
  In e (Session.edge_candidates self) <->
  exists i j, i <= rows self /\ j <= cols self
              /\ ((j < cols self /\ e = (grid_at self i j, grid_at self i (S j)))
                  \/ (i < rows self /\ e = (grid_at self i j, grid_at self (S i) j))).
Proof.
  unfold Session.edge_candidates. rewrite in_flat_map. split.
  - intros (i & Hi & H). apply in_flat_map in H. destruct H as (j & Hj & H).
    apply in_seq in Hi, Hj. exists i, j.
    split; [lia|]. split; [lia|].
    apply in_app_or in H. destruct H as [H|H].
    + destruct (Nat.ltb_spec j (cols self)); [|contradiction].
      destruct H as [<-|[]]. left. split; [assumption|reflexivity].
    + destruct (Nat.ltb_spec i (rows self)); [|contradiction].
      destruct H as [<-|[]]. right. split; [assumption|reflexivity].
  - intros (i & j & Hi & Hj & H). exists i. split; [apply in_seq; lia|].
    apply in_flat_map. exists j. split; [apply in_seq; lia|].
    apply in_or_app. destruct H as [(H & ->)|(H & ->)].
    + left. destruct (Nat.ltb_spec j (cols self)); [left; reflexivity|lia].
    + right. destruct (Nat.ltb_spec i (rows self)); [left; reflexivity|lia].
Qed.

Lemma edge_candidates_spec (self : BaconShorCode) (e : Z * Z) :
  In e (Session.edge_candidates self) <->
  is_adjacent self (fst e) (snd e) = true /\ (fst e < snd e)%Z.
Proof.
  rewrite in_edge_candidates. split.
  - intros (i & j & Hi & Hj & [(H & ->)|(H & ->)]); cbn [fst snd].
    + rewrite is_adjacent_coords by lia. rewrite !grid_at_spec by lia.
      unfold abs_diff. split; [apply Z.eqb_eq|]; lia.
    + rewrite is_adjacent_coords by lia. rewrite !grid_at_spec by lia.
      unfold abs_diff. split; [apply Z.eqb_eq|]; nia.
  - destruct e as [a b]. cbn [fst snd]. intros (Hadj & Hlt).
    pose proof (is_adjacent_in_grid self a b Hadj) as Hg.
    apply andb_true_iff in Hg. destruct Hg as [Ha Hb].
    destruct (in_grid_decompose self a Ha) as (i & j & Hi & Hj & ->).
    destruct (in_grid_decompose self b Hb) as (i' & j' & Hi' & Hj' & ->).
    rewrite is_adjacent_coords in Hadj by assumption.
    apply Z.eqb_eq in Hadj. unfold abs_diff in Hadj.
    rewrite !grid_at_spec in Hlt by assumption.
    exists i, j. split; [assumption|]. split; [assumption|].
    assert (Hc : (i' = i /\ j' = S j) \/ (i' = S i /\ j' = j)) by nia.
    destruct Hc as [(-> & ->)|(-> & ->)].
    + left. split; [lia|reflexivity].
    + right. split; [lia|reflexivity].
Qed.

Lemma normalize_edge_candidate (self : BaconShorCode) (e : Z * Z) :
  In e (Session.edge_candidates self) -> Session.normalize_edge e = e.
Proof.
  intros H. apply edge_candidates_spec in H. destruct H as [_ H].
  destruct e as [a b]. cbn [fst snd] in H. unfold Session.normalize_edge.
  destruct (Z.ltb_spec b a); [lia|reflexivity].
Qed.

Lemma NoDup_flat_map {A B : Type} (f : A -> list B) (l : list A) :
  NoDup l -> (forall x, In x l -> NoDup (f x)) ->
  (forall x y b, In x l -> In y l -> In b (f x) -> In b (f y) -> x = y) ->
  NoDup (flat_map f l).
Proof.
  induction 1 as [|x l Hx Hl IH]; intros Hf Hd; cbn [flat_map].
  - constructor.
  - apply NoDup_app.
    + apply Hf. left. reflexivity.
    + apply IH.
      * intros y Hy. apply Hf. right. exact Hy.
      * intros y z b Hy Hz. apply Hd; right; assumption.
    + intros b Hb Hb'. apply in_flat_map in Hb'. destruct Hb' as (y & Hy & Hb').
      assert (x = y) by (apply (Hd x y b); [left; reflexivity|right; exact Hy| |]; assumption).
      subst y. contradiction.
Qed.

Lemma grid_at_inj (self : BaconShorCode) (i j i' j' : nat) :
  i <= rows self -> j <= cols self -> i' <= rows self -> j' <= cols self ->
  grid_at self i j = grid_at self i' j' -> i = i' /\ j = j'.
Proof.
  intros Hi Hj Hi' Hj' E.
  pose proof (coordinate_of_grid_at self i j Hi Hj) as H.
  rewrite E, coordinate_of_grid_at in H by assumption.
  injection H as -> ->. split; reflexivity.
Qed.

Lemma edge_candidates_nodup (self : BaconShorCode) :
  NoDup (Session.edge_candidates self).
Proof.
  unfold Session.edge_candidates. apply NoDup_flat_map.
  - apply seq_NoDup.
  - intros i Hi. apply in_seq in Hi. apply NoDup_flat_map.
    + apply seq_NoDup.
    + intros j Hj. apply in_seq in Hj.
      destruct (Nat.ltb_spec j (cols self)) as [Hjc|Hjc];
        destruct (Nat.ltb_spec i (rows self)) as [Hir|Hir]; cbn [app].
      * constructor; [|constructor; [intros []|constructor]].
        intros [E|[]]. injection E as E.
        rewrite !grid_at_spec in E by lia. lia.
      * constructor; [intros []|constructor].
      * constructor; [intros []|constructor].
      * constructor.
    + intros j j' b Hj Hj' Hb Hb'. apply in_seq in Hj, Hj'.
      assert (Hf : forall k, k <= cols self ->
                In b ((if (k <? cols self)%nat
                       then [(grid_at self i k, grid_at self i (S k))] else [])
                      ++ (if (i <? rows self)%nat
                          then [(grid_at self i k, grid_at self (S i) k)] else [])) ->
                fst b = grid_at self i k).
      { intros k Hk H. apply in_app_or in H.
        destruct H as [H|H].
        - destruct (k <? cols self)%nat; [|contradiction].
          destruct H as [<-|[]]. reflexivity.
        - destruct (i <? rows self)%nat; [|contradiction].
          destruct H as [<-|[]]. reflexivity. }
      apply Hf in Hb; [|lia]. apply Hf in Hb'; [|lia].
      rewrite Hb in Hb'. apply grid_at_inj in Hb'; try lia.
  - intros i i' b Hi Hi' Hb Hb'. apply in_seq in Hi, Hi'.
    assert (Hf : forall r, r <= rows self ->
              In b (flat_map
                      (fun j =>
                         (if (j <? cols self)%nat
                          then [(grid_at self r j, grid_at self r (S j))] else [])
                         ++ (if (r <? rows self)%nat
                             then [(grid_at self r j, grid_at self (S r) j)] else []))
                      (seq 0 (S (cols self)))) ->
              exists j, j <= cols self /\ fst b = grid_at self r j).
    { intros r Hr H. apply in_flat_map in H. destruct H as (j & Hj & H).
      apply in_seq in Hj. exists j. split; [lia|].
      apply in_app_or in H. destruct H as [H|H].
      - destruct (j <? cols self)%nat; [|contradiction].
        destruct H as [<-|[]]. reflexivity.
      - destruct (r <? rows self)%nat; [|contradiction].
        destruct H as [<-|[]]. reflexivity. }
    apply Hf in Hb; [|lia]. apply Hf in Hb'; [|lia].
    destruct Hb as (j & Hj & Hb). destruct Hb' as (j' & Hj' & Hb').
    rewrite Hb in Hb'. apply grid_at_inj in Hb'; lia.
Qed.

Lemma is_valid_measurement_adjacent (self : BaconShorCode) (e : Z * Z) :
  is_valid_measurement self e = (true, EmptyString)
  <-> is_adjacent self (fst e) (snd e) = true.
Proof.
  destruct e as [a b]. cbn [fst snd]. rewrite is_valid_measurement_spec.
  split.
  - destruct (in_grid self a && in_grid self b); [|discriminate].
    destruct (is_adjacent self a b); [reflexivity|discriminate].
  - intros H. rewrite (is_adjacent_in_grid self a b H), H. reflexivity.
Qed.

(** X3: the edges a click can select are the edges of the lattice, each
    once, smaller id first. *)
Theorem edge_candidates_are_lattice_edges (self : BaconShorCode) :
  (forall e, In e (Session.edge_candidates self)
             <-> is_valid_measurement self e = (true, EmptyString)
                 /\ (fst e < snd e)%Z)
  /\ NoDup (Session.edge_candidates self)
  /\ (forall e, In e (Session.edge_candidates self) ->
                Session.normalize_edge e = e).
Proof.
  split.
  { intros e. rewrite is_valid_measurement_adjacent. apply edge_candidates_spec. }
  split; [apply edge_candidates_nodup|].
  intros e. apply normalize_edge_candidate.
Qed.

(** ** Normalizing an edge *)

Lemma is_adjacent_sym (self : BaconShorCode) (a b : Z) :
  is_adjacent self a b = is_adjacent self b a.
Proof.
  unfold is_adjacent.
  rewrite (andb_comm (in_grid self a)).
  rewrite (abs_diff_sym (fst (coordinate_of self a))).
  rewrite (abs_diff_sym (snd (coordinate_of self a))).
  reflexivity.
Qed.

(** X4: [normalize_edge] orders the two ids and changes nothing the time
    step looks at. *)
Theorem normalize_edge_sound (self : BaconShorCode) (a b : Z) :
  Session.normalize_edge (a, b) = Session.normalize_edge (b, a)
  /\ Session.normalize_edge (Session.normalize_edge (a, b)) = Session.normalize_edge (a, b)
  /\ (fst (Session.normalize_edge (a, b)) <= snd (Session.normalize_edge (a, b)))%Z
  /\ is_valid_measurement self (Session.normalize_edge (a, b)) = is_valid_measurement self (a, b)
  /\ get_measurement_type self (Session.normalize_edge (a, b)) = get_measurement_type self (a, b).
Proof.
  unfold Session.normalize_edge.
  destruct (Z.ltb_spec b a) as [H|H]; destruct (Z.ltb_spec a b) as [H'|H'];
    try lia; cbn [fst snd].
  - destruct (Z.ltb_spec a b); [lia|].
    repeat split; try lia.
    + rewrite !is_valid_measurement_spec, (andb_comm (in_grid self b)),
        (is_adjacent_sym self b a). reflexivity.
    + apply get_measurement_type_sym.
  - destruct (Z.ltb_spec b a); [lia|]. repeat split; lia.
  - assert (a = b) by lia. subst b.
    destruct (Z.ltb_spec a a); [lia|]. repeat split; lia.
Qed.

(** ** The selection built by the clicks *)

Lemma edge_eqb_eq (e1 e2 : Z * Z) : Session.edge_eqb e1 e2 = true <-> e1 = e2.
Proof.
  destruct e1 as [a b], e2 as [c d]. unfold Session.edge_eqb. cbn [fst snd].
  rewrite andb_true_iff, !Z.eqb_eq. split.
  - intros [-> ->]. reflexivity.
  - intros [= -> ->]. split; reflexivity.
Qed.

Lemma edge_eqb_refl (e : Z * Z) : Session.edge_eqb e e = true.
Proof. apply edge_eqb_eq. reflexivity. Qed.

Lemma edge_eqb_sym (e1 e2 : Z * Z) : Session.edge_eqb e1 e2 = Session.edge_eqb e2 e1.
Proof.
  unfold Session.edge_eqb. rewrite (Z.eqb_sym (fst e1)), (Z.eqb_sym (snd e1)).
  reflexivity.
Qed.

Lemma existsb_edge_in (e : Z * Z) (l : list (Z * Z)) :
  existsb (Session.edge_eqb e) l = true <-> In e l.
Proof.
  rewrite existsb_exists. split.
  - intros (x & Hx & E). apply edge_eqb_eq in E. subst x. exact Hx.
  - intros H. exists e. split; [exact H|apply edge_eqb_refl].
Qed.

Lemma remove_edge_in (l : list (Z * Z)) (e x : Z * Z) :
  In x (Session.remove_edge l e) -> In x l.
Proof.
  induction l as [|y l IH]; cbn [Session.remove_edge]; [intros []|].
  destruct (Session.edge_eqb y e).
  - intros H. right. exact H.
  - intros [H|H]; [left; exact H|right; apply IH; exact H].
Qed.

Lemma remove_edge_nodup (l : list (Z * Z)) (e : Z * Z) :
  NoDup l -> NoDup (Session.remove_edge l e).
Proof.
  induction 1 as [|y l Hy Hl IH]; cbn [Session.remove_edge]; [constructor|].
  destruct (Session.edge_eqb y e); [exact Hl|].
  constructor; [|exact IH]. intros H. apply Hy. apply (remove_edge_in l e). exact H.
Qed.

Lemma remove_edge_mem (l : list (Z * Z)) (e x : Z * Z) :
  NoDup l ->
  existsb (Session.edge_eqb x) (Session.remove_edge l e) =
  existsb (Session.edge_eqb x) l && negb (Session.edge_eqb e x).
Proof.
  induction 1 as [|y l Hy Hl IH]; cbn [Session.remove_edge existsb]; [reflexivity|].
  destruct (Session.edge_eqb y e) eqn:Eye.
  - apply edge_eqb_eq in Eye. subst y.
    rewrite (edge_eqb_sym x e).
    destruct (Session.edge_eqb e x) eqn:Eex; cbn [orb negb andb].
    + apply edge_eqb_eq in Eex. subst x.
      destruct (existsb (Session.edge_eqb e) l) eqn:E; [|reflexivity].
      apply existsb_edge_in in E. contradiction.
    + rewrite ?andb_true_r. reflexivity.
  - cbn [existsb]. rewrite IH.
    destruct (Session.edge_eqb x y) eqn:Exy; cbn [orb]; [|reflexivity].
    apply edge_eqb_eq in Exy. subst y.
    rewrite edge_eqb_sym, Eye. reflexivity.
Qed.

Lemma on_click_nodup (sel : list (Z * Z)) (c : option (Z * Z)) :
  NoDup sel -> NoDup (Session.on_click sel c).
Proof.
  intros H. destruct c as [e|]; cbn [Session.on_click]; [|exact H].
  destruct (existsb (Session.edge_eqb (Session.normalize_edge e)) sel) eqn:E.
  - apply remove_edge_nodup. exact H.
  - apply NoDup_app; [exact H|constructor; [intros []|constructor]|].
    intros a Ha [<-|[]]. apply existsb_edge_in in Ha. congruence.
Qed.

Lemma on_click_mem (sel : list (Z * Z)) (e x : Z * Z) :
  NoDup sel ->
  existsb (Session.edge_eqb x) (Session.on_click sel (Some e)) =
  xorb (existsb (Session.edge_eqb x) sel)
       (Session.edge_eqb (Session.normalize_edge e) x).
Proof.
  intros H. cbn [Session.on_click].
  destruct (existsb (Session.edge_eqb (Session.normalize_edge e)) sel) eqn:E.
  - rewrite remove_edge_mem by exact H.
    destruct (Session.edge_eqb (Session.normalize_edge e) x) eqn:Ex; cbn [negb].
    + apply edge_eqb_eq in Ex. subst x. rewrite E. reflexivity.
    + rewrite andb_true_r, xorb_false_r. reflexivity.
  - rewrite existsb_app. cbn [existsb]. rewrite orb_false_r.
    rewrite (edge_eqb_sym x).
    destruct (Session.edge_eqb (Session.normalize_edge e) x) eqn:Ex.
    + apply edge_eqb_eq in Ex. subst x. rewrite E. reflexivity.
    + rewrite orb_false_r, xorb_false_r. reflexivity.
Qed.

Lemma clicks_nodup (clicks : list (option (Z * Z))) :
  forall sel, NoDup sel -> NoDup (fold_left Session.on_click clicks sel).
Proof.
  induction clicks as [|c clicks IH]; intros sel H; cbn [fold_left]; [exact H|].
  apply IH. apply on_click_nodup. exact H.
Qed.

Lemma clicks_mem (x : Z * Z) (clicks : list (option (Z * Z))) :
  forall sel, NoDup sel ->
    existsb (Session.edge_eqb x) (fold_left Session.on_click clicks sel) =
    xorb (existsb (Session.edge_eqb x) sel) (Nat.odd (count_clicks x clicks)).
Proof.
  unfold count_clicks.
  induction clicks as [|c clicks IH]; intros sel H; cbn [fold_left filter length].
  - cbn. rewrite xorb_false_r. reflexivity.
  - rewrite IH by (apply on_click_nodup; exact H).
    destruct c as [e|].
    + rewrite on_click_mem by exact H.
      destruct (Session.edge_eqb (Session.normalize_edge e) x); cbn [length].
      * rewrite Nat.odd_succ, <- Nat.negb_odd.
        destruct (existsb (Session.edge_eqb x) sel), (Nat.odd _); reflexivity.
      * rewrite xorb_false_r. reflexivity.
    + reflexivity.
Qed.

Lemma on_click_candidates (self : BaconShorCode) (sel : list (Z * Z))
      (c : option (Z * Z)) :
  click_on self c ->
  Forall (fun e => In e (Session.edge_candidates self)) sel ->
  Forall (fun e => In e (Session.edge_candidates self)) (Session.on_click sel c).
Proof.
  intros Hc H. destruct c as [e|]; cbn [Session.on_click]; [|exact H].
  cbn [click_on] in Hc.
  rewrite (normalize_edge_candidate self e Hc).
  destruct (existsb (Session.edge_eqb e) sel).
  - rewrite Forall_forall in *. intros x Hx. apply H.
    apply (remove_edge_in sel e). exact Hx.
  - apply Forall_app. split; [exact H|]. constructor; [exact Hc|constructor].
Qed.

Lemma clicks_candidates (self : BaconShorCode) (clicks : list (option (Z * Z))) :
  Forall (click_on self) clicks ->
  forall sel,
    Forall (fun e => In e (Session.edge_candidates self)) sel ->
    Forall (fun e => In e (Session.edge_candidates self))
           (fold_left Session.on_click clicks sel).
Proof.
  induction 1 as [|c clicks Hc Hcs IH]; intros sel H; cbn [fold_left]; [exact H|].
  apply IH. apply on_click_candidates; assumption.
Qed.

Lemma rejected_none (self : BaconShorCode) (batch : list (Z * Z)) :
  Forall (fun p => is_adjacent self (fst p) (snd p) = true) batch ->
  rejected self batch = [].
Proof.
  intros H. unfold rejected.
  induction H as [|p l Hp Hl IH]; cbn [filter map]; [reflexivity|].
  rewrite Hp. cbn [negb]. exact IH.
Qed.

Lemma run_time_step_reports (it : IterOrder) (self : BaconShorCode)
      (batch : list (Z * Z)) :
  fst (Interactive.run_time_step it self batch) = rejected self batch.
Proof.
  unfold Interactive.run_time_step. rewrite validate_spec. reflexivity.
Qed.

Lemma run_time_step_fields (it : IterOrder) (self self' : BaconShorCode)
      (batch : list (Z * Z)) :
  snd (Interactive.run_time_step it self batch) = Ok self' ->
  rows self' = rows self /\ cols self' = cols self
  /\ time_step self' = S (time_step self)
  /\ current_measurements self' = accepted self batch
  /\ measurements_history self' = measurements_history self ++ [accepted self batch].
Proof.
  unfold Interactive.run_time_step. rewrite validate_spec. cbn [snd].
  change (accepted (tick self) batch) with (accepted self batch).
  unfold Interactive.update_stabilizers.
  destruct (mapM (meas_stab_of (tick self)) (accepted self batch)) as [ms| |];
    cbn [bind]; try discriminate.
  destruct (time_step (tick self) =? 1)%nat.
  - cbn [bind]. intros [= <-]. cbn. auto.
  - unfold Interactive.adjust_stabilizers.
    destruct (Interactive.adjust it _ _ ms) as [g| |]; cbn [bind]; try discriminate.
    intros [= <-]. cbn. auto.
Qed.

(** X5: what a click session hands to the time step. *)
Theorem session_selection (it : IterOrder) (self : BaconShorCode)
        (clicks : list (option (Z * Z))) :
  gens_ok self (stabilizer_generators self) ->
  Forall (click_on self) clicks ->
  let selected := fold_left Session.on_click clicks [] in
  NoDup selected
  /\ (forall e, In e selected <-> Nat.odd (count_clicks e clicks) = true)
  /\ (forall e, In e selected -> In e (Session.edge_candidates self))
  /\ exists self',
      Session.start_interactive_session it self clicks = ([], Ok self')
      /\ current_measurements self' = selected
      /\ measurements_history self' = measurements_history self ++ [selected].
Proof.
  intros Hg Hc selected.
  assert (Hn : NoDup selected) by (apply clicks_nodup; constructor).
  assert (Hcand : Forall (fun e => In e (Session.edge_candidates self)) selected)
    by (apply clicks_candidates; [exact Hc|constructor]).
  assert (Hadj : Forall (fun p => is_adjacent self (fst p) (snd p) = true) selected).
  { rewrite Forall_forall in *. intros e He.
    apply (edge_candidates_spec self e). apply Hcand. exact He. }
  split; [exact Hn|].
  split.
  { intros e. rewrite <- existsb_edge_in. unfold selected.
    rewrite clicks_mem by constructor. cbn [existsb xorb].
    destruct (Nat.odd (count_clicks e clicks)); tauto. }
  split; [apply Forall_forall; exact Hcand|].
  destruct (run_time_step_ok it self selected Hg) as (self' & Hs & _).
  exists self'.
  destruct (run_time_step_fields it self self' selected Hs) as (_ & _ & _ & H4 & H5).
  rewrite (accepted_all self selected Hadj) in H4, H5.
  split; [|split; assumption].
  unfold Session.start_interactive_session. fold selected.
  rewrite (surjective_pairing (Interactive.run_time_step it self selected)).
  rewrite run_time_step_reports, (rejected_none self selected Hadj), Hs.
  reflexivity.
Qed.

Lemma session_selection_witness :
  let clicks := [Some (1, 2); Some (1, 6); None; Some (1, 2)]%Z in
  let selected := fold_left Session.on_click clicks [] in
  NoDup selected
  /\ (forall e, In e selected <-> Nat.odd (count_clicks e clicks) = true)
  /\ (forall e, In e selected -> In e (Session.edge_candidates (init 4 4)))
  /\ exists self',
      Session.start_interactive_session insertion_order (init 4 4) clicks
      = ([], Ok self')
      /\ current_measurements self' = selected
      /\ measurements_history self' = measurements_history (init 4 4) ++ [selected].
Proof.
  apply (session_selection insertion_order (init 4 4)
           [Some (1, 2); Some (1, 6); None; Some (1, 2)]%Z).
  - constructor.
  - constructor; [vm_compute; auto|].
    constructor; [vm_compute; auto|].
    constructor; [exact I|].
    constructor; [vm_compute; auto|constructor].
Defined.

(** ** The record kept by a schedule *)

Lemma accepted_same_grid (self self' : BaconShorCode) (batch : list (Z * Z)) :
  rows self' = rows self -> cols self' = cols self ->
  accepted self' batch = accepted self batch.
Proof.
  intros Hr Hc. unfold accepted, is_adjacent, in_grid, num_qubits, coordinate_of.
  rewrite Hr, Hc. reflexivity.
Qed.

Lemma last_cons_indep {A : Type} (x : A) (l : list A) (d d' : A) :
  last (x :: l) d = last (x :: l) d'.
Proof.
  revert x. induction l as [|y l IH]; intros x; [reflexivity|].
  change (last (y :: l) d = last (y :: l) d'). apply IH.
Qed.

(** X6: every schedule runs to its end and is recorded batch by batch. *)
Theorem run_records_schedule (it : IterOrder) (schedule : list (list (Z * Z))) :
  forall self,
    gens_ok self (stabilizer_generators self) ->
    exists self',
      Interactive.run it self schedule = Ok self'
      /\ rows self' = rows self /\ cols self' = cols self
      /\ time_step self' = time_step self + length schedule
      /\ measurements_history self' =
         measurements_history self ++ map (accepted self) schedule
      /\ current_measurements self' =
         last (map (accepted self) schedule) (current_measurements self).
Proof.
  unfold Interactive.run.
  induction schedule as [|batch schedule IH]; intros self Hg; cbn [foldM].
  - exists self. cbn [map length last]. rewrite app_nil_r, Nat.add_0_r.
    repeat split; reflexivity.
  - destruct (run_time_step_ok it self batch Hg) as (s1 & Hs & Hr & Hc & _ & Hg1).
    destruct (run_time_step_fields it self s1 batch Hs) as (_ & _ & Ht & Hcur & Hh).
    rewrite Hs. cbn [bind].
    destruct (IH s1 (gens_ok_same_grid self s1 _ Hr Hc Hg1))
      as (s2 & -> & Hr2 & Hc2 & Ht2 & Hh2 & Hcur2).
    exists s2. split; [reflexivity|].
    split; [congruence|]. split; [congruence|].
    split; [cbn [length]; lia|].
    assert (E : map (accepted s1) schedule = map (accepted self) schedule).
    { apply map_ext. intros b. apply accepted_same_grid; assumption. }
    rewrite E in Hh2, Hcur2.
    split.
    + rewrite Hh2, Hh. cbn [map]. rewrite <- app_assoc. reflexivity.
    + rewrite Hcur2, Hcur. cbn [map].
      destruct (map (accepted self) schedule) as [|x l] eqn:El; [reflexivity|].
      symmetry.
      change (last (x :: l) (current_measurements self) =
              last (x :: l) (accepted self batch)).
      apply last_cons_indep.
Qed.

Lemma run_records_schedule_witness :
  exists self',
    Interactive.run insertion_order (init 4 4) [[(1, 2); (5, 6)]; []; [(1, 6); (0, 1)]]%Z
    = Ok self'
    /\ rows self' = 4 /\ cols self' = 4
    /\ time_step self' = 0 + 3
    /\ measurements_history self' =
       [] ++ map (accepted (init 4 4)) [[(1, 2); (5, 6)]; []; [(1, 6); (0, 1)]]%Z
    /\ current_measurements self' =
       last (map (accepted (init 4 4)) [[(1, 2); (5, 6)]; []; [(1, 6); (0, 1)]]%Z) [].
Proof.
  apply (run_records_schedule insertion_order
           [[(1, 2); (5, 6)]; []; [(1, 6); (0, 1)]]%Z (init 4 4)).
  constructor.
Defined.

(** ** The type of a pair outside the lattice *)

(** X7: [get_measurement_type] raises [IndexError] exactly when one of the
    ids is not on the lattice. *)
Theorem get_measurement_type_raises (self : BaconShorCode) (a b : Z) :
  (in_grid self a && in_grid self b = false
   -> get_measurement_type self (a, b) = Raise IndexError)
  /\ (in_grid self a && in_grid self b = true
      -> exists ty, get_measurement_type self (a, b) = Ok ty)
  /\ (fst (is_valid_measurement self (a, b)) = true
      -> get_measurement_type self (a, b) = Ok PX
         \/ get_measurement_type self (a, b) = Ok PZ).
Proof.
  split; [|split].
  - intros H. unfold get_measurement_type. rewrite !argwhere_grid.
    destruct (in_grid self a); [|reflexivity].
    destruct (in_grid self b); [discriminate|reflexivity].
  - intros H. apply andb_true_iff in H. destruct H as [Ha Hb].
    rewrite get_measurement_type_in_grid by assumption.
    destruct (_ && _); [eauto|]. destruct (_ && _); eauto.
  - intros H.
    assert (Hadj : is_adjacent self a b = true).
    { rewrite is_valid_measurement_spec in H.
      destruct (in_grid self a && in_grid self b); [|discriminate].
      destruct (is_adjacent self a b); [reflexivity|discriminate]. }
    pose proof (meas_stab_of_adjacent self (a, b) Hadj) as Hm.
    unfold meas_stab_of, measurement_term in Hm. cbn [fst snd] in Hm.
    destruct (get_measurement_type self (a, b)) as [ty| |]; cbn [bind] in Hm;
      try discriminate.
    injection Hm as Hm.
    pose proof (is_adjacent_distinct self a b Hadj) as Hne.
    cbn [dict_set] in Hm. destruct (Z.eqb_spec a b); [contradiction|].
    injection Hm as Hm _.
    subst ty. destruct (_ =? _)%nat; auto.
Qed.

(** ** Commutation of measurement terms *)

Lemma measurement_term_type (self : BaconShorCode) (p : Z * Z) :
  is_adjacent self (fst p) (snd p) = true ->
  exists ty, (ty = PX \/ ty = PZ)
             /\ get_measurement_type self p = Ok ty
             /\ measurement_term self p = [(fst p, ty); (snd p, ty)].
Proof.
  intros Hadj.
  pose proof (meas_stab_of_adjacent self p Hadj) as Hm.
  pose proof (is_adjacent_distinct self _ _ Hadj) as Hne.
  unfold meas_stab_of in Hm.
  destruct (get_measurement_type self p) as [ty| |]; cbn [bind] in Hm;
    try discriminate.
  injection Hm as Hm. cbn [dict_set] in Hm.
  destruct (Z.eqb_spec (fst p) (snd p)); [contradiction|].
  exists ty. split; [|split; [reflexivity|symmetry; exact Hm]].
  unfold measurement_term in Hm. injection Hm as Hm _.
  destruct (_ =? _)%nat; subst ty; auto.
Qed.

Lemma get_measurement_type_swap_eq (self : BaconShorCode) (a b c d : Z) :
  (c = a /\ d = b) \/ (c = b /\ d = a) ->
  get_measurement_type self (c, d) = get_measurement_type self (a, b).
Proof.
  intros [[-> ->]|[-> ->]]; [reflexivity|apply get_measurement_type_sym].
Qed.

(** X8: two measured pairs anti-commute exactly when one is vertical, the
    other horizontal, and they meet in a qubit. *)
Theorem terms_anticommute_iff (self : BaconShorCode) (p p' : Z * Z) :
  fst (is_valid_measurement self p) = true ->
  fst (is_valid_measurement self p') = true ->
  exists s s' m',
    meas_stab_of self p = Ok s /\ meas_stab_of self p' = Ok s'
    /\ measurement_of s' = Ok m'
    /\ (Stabilizer.commutes_with s m' = false
        <-> get_measurement_type self p <> get_measurement_type self p'
            /\ share_qubit p p' = true).
Proof.
  intros Hv Hv'.
  assert (Hadj : is_adjacent self (fst p) (snd p) = true).
  { apply is_valid_measurement_adjacent. rewrite (surjective_pairing (is_valid_measurement self p)).
    destruct p as [a b]. rewrite is_valid_measurement_spec in *.
    destruct (in_grid self a && in_grid self b); [|discriminate].
    destruct (is_adjacent self a b); [reflexivity|discriminate]. }
  assert (Hadj' : is_adjacent self (fst p') (snd p') = true).
  { apply is_valid_measurement_adjacent. rewrite (surjective_pairing (is_valid_measurement self p')).
    destruct p' as [a b]. rewrite is_valid_measurement_spec in *.
    destruct (in_grid self a && in_grid self b); [|discriminate].
    destruct (is_adjacent self a b); [reflexivity|discriminate]. }
  clear Hv Hv'.
  destruct (measurement_term_type self p Hadj) as (ty & Hty & Hg & Ht).
  destruct (measurement_term_type self p' Hadj') as (ty' & Hty' & Hg' & Ht').
  exists (measurement_term self p), (measurement_term self p').
  exists {| Stabilizer.m_qubits := [fst p'; snd p']; Stabilizer.m_type := ty' |}.
  rewrite !meas_stab_of_adjacent by assumption.
  split; [reflexivity|]. split; [reflexivity|].
  split; [rewrite Ht'; reflexivity|].
  rewrite Hg, Hg', Ht.
  pose proof (is_adjacent_distinct self _ _ Hadj) as Hne.
  pose proof (is_adjacent_distinct self _ _ Hadj') as Hne'.
  destruct p as [a b], p' as [c d]. cbn [fst snd] in *.
  unfold share_qubit. cbn [fst snd].
  assert (Hboth : ((a =? c)%Z || (b =? c)%Z) && ((a =? d)%Z || (b =? d)%Z) = true ->
                  ty = ty').
  { intros H. apply andb_true_iff in H. destruct H as [H1 H2].
    apply orb_true_iff in H1, H2. rewrite !Z.eqb_eq in H1, H2.
    assert (E : get_measurement_type self (c, d) = get_measurement_type self (a, b)).
    { apply get_measurement_type_swap_eq. lia. }
    congruence. }
  unfold Stabilizer.commutes_with, Stabilizer.count_anti.
  cbn [Stabilizer.m_qubits Stabilizer.m_type fold_left dict_get].
  destruct (op_eqb ty ty') eqn:Eop.
  - apply op_eqb_eq in Eop. subst ty'.
    destruct (a =? c)%Z, (b =? c)%Z, (a =? d)%Z, (b =? d)%Z;
      rewrite ?op_eqb_refl; cbn;
      (split; [discriminate|intros [H _]; congruence]).
  - assert (Hd : ty <> ty') by (intros ->; rewrite op_eqb_refl in Eop; discriminate).
    destruct (a =? c)%Z eqn:E1, (b =? c)%Z eqn:E2, (a =? d)%Z eqn:E3, (b =? d)%Z eqn:E4;
      cbn [orb andb] in Hboth; try (exfalso; apply Hd, Hboth; reflexivity);
      rewrite ?Eop; cbn; (split; [intros _; split; [congruence|reflexivity] | reflexivity])
           || (split; [discriminate | intros [_ H]; discriminate]).
Qed.

Lemma terms_anticommute_iff_witness :
  exists s s' m',
    meas_stab_of (init 4 4) (1, 2)%Z = Ok s /\ meas_stab_of (init 4 4) (1, 6)%Z = Ok s'
    /\ measurement_of s' = Ok m'
    /\ (Stabilizer.commutes_with s m' = false
        <-> get_measurement_type (init 4 4) (1, 2)%Z
            <> get_measurement_type (init 4 4) (1, 6)%Z
            /\ share_qubit (1, 2)%Z (1, 6)%Z = true).
Proof.
  exact (terms_anticommute_iff (init 4 4) (1, 2)%Z (1, 6)%Z eq_refl eq_refl).
Defined.

(** ** Products of terms of one type *)

Lemma uniform_get (ty : op) (s : stabilizer) (q : Z) (o : op) :
  uniform ty s -> dict_get s q = Some o -> o = ty.
Proof.
  intros H Hq. apply dict_get_some_in in Hq.
  unfold uniform in H. rewrite Forall_forall in H. exact (H _ Hq).
Qed.

Lemma uniform_of_get (ty : op) (s : stabilizer) :
  wf_dict s -> (forall q o, dict_get s q = Some o -> o = ty) -> uniform ty s.
Proof.
  intros Hw H. apply Forall_forall. intros [q o] Hin. cbn [snd].
  apply (H q). apply dict_in_get; assumption.
Qed.

Lemma multiply_uniform (ty : op) (s t : stabilizer) :
  wf_dict s -> wf_dict t -> uniform ty s -> uniform ty t ->
  uniform ty (Stabilizer.multiply s t).
Proof.
  intros Hs Ht Us Ut. apply uniform_of_get; [apply wf_multiply; exact Hs|].
  intros q o. rewrite dict_get_multiply by assumption.
  destruct (dict_get s q) as [u|] eqn:Eu, (dict_get t q) as [v|] eqn:Ev; cbn [op_mul].
  - rewrite (uniform_get ty s q u Us Eu), (uniform_get ty t q v Ut Ev), op_eqb_refl.
    discriminate.
  - intros [= <-]. exact (uniform_get ty s q u Us Eu).
  - intros [= <-]. exact (uniform_get ty t q v Ut Ev).
  - discriminate.
Qed.

Lemma existsb_Zeqb_in (q : Z) (l : list Z) :
  existsb (Z.eqb q) l = true <-> In q l.
Proof.
  rewrite existsb_exists. split.
  - intros (x & Hx & E). apply Z.eqb_eq in E. subst x. exact Hx.
  - intros H. exists q. split; [exact H|apply Z.eqb_refl].
Qed.

Lemma keys_multiply_uniform (ty : op) (s t : stabilizer) (q : Z) :
  wf_dict s -> wf_dict t -> uniform ty s -> uniform ty t ->
  (In q (keys (Stabilizer.multiply s t))
   <-> (In q (keys s) /\ ~ In q (keys t)) \/ (~ In q (keys s) /\ In q (keys t))).
Proof.
  intros Hs Ht Us Ut.
  rewrite !dict_get_in_keys, dict_get_multiply by assumption.
  destruct (dict_get s q) as [u|] eqn:Eu, (dict_get t q) as [v|] eqn:Ev; cbn [op_mul].
  - rewrite (uniform_get ty s q u Us Eu), (uniform_get ty t q v Ut Ev), op_eqb_refl.
    split; [congruence|]. intros [[_ H]|[H _]]; exfalso; apply H; discriminate.
  - split; [intros _; left; split; [discriminate|congruence]|discriminate].
  - split; [intros _; right; split; [congruence|discriminate]|discriminate].
  - split; [congruence|]. intros [[H _]|[_ H]]; exact H.
Qed.

Lemma length_dict_del (d : dict) (q : Z) (v : op) :
  dict_get d q = Some v -> S (length (dict_del d q)) = length d.
Proof.
  induction d as [|[k w] d IH]; cbn [dict_get dict_del length]; [discriminate|].
  destruct (k =? q)%Z; [reflexivity|].
  intros H. cbn [length]. rewrite IH by exact H. reflexivity.
Qed.

Lemma length_dict_set_new (d : dict) (q : Z) (v : op) :
  dict_get d q = None -> length (dict_set d q v) = S (length d).
Proof.
  induction d as [|[k w] d IH]; cbn [dict_get dict_set length]; [reflexivity|].
  destruct (k =? q)%Z; [discriminate|].
  intros H. cbn [length]. rewrite IH by exact H. reflexivity.
Qed.

Lemma multiply_entry_uniform (ty : op) (d : dict) (q : Z) :
  wf_dict d -> uniform ty d ->
  uniform ty (Stabilizer.multiply_entry d (q, ty))
  /\ (forall k, In k (keys (Stabilizer.multiply_entry d (q, ty)))
                <-> (k <> q /\ In k (keys d)) \/ (k = q /\ ~ In q (keys d)))
  /\ (if existsb (Z.eqb q) (keys d)
      then S (length (Stabilizer.multiply_entry d (q, ty))) = length d
      else length (Stabilizer.multiply_entry d (q, ty)) = S (length d)).
Proof.
  intros Hw Hu.
  assert (Hwf : wf_dict (Stabilizer.multiply_entry d (q, ty)))
    by (apply wf_multiply_entry; exact Hw).
  split; [|split].
  - apply uniform_of_get; [exact Hwf|].
    intros k o. rewrite dict_get_multiply_entry by exact Hw.
    destruct (Z.eqb_spec q k) as [->|Hne].
    + destruct (dict_get d k) as [u|] eqn:Eu; cbn [op_mul].
      * rewrite (uniform_get ty d k u Hu Eu), op_eqb_refl. discriminate.
      * intros [= <-]. reflexivity.
    + apply uniform_get. exact Hu.
  - intros k. rewrite !dict_get_in_keys, dict_get_multiply_entry by exact Hw.
    destruct (Z.eqb_spec q k) as [->|Hne].
    + destruct (dict_get d k) as [u|] eqn:Eu; cbn [op_mul].
      * rewrite (uniform_get ty d k u Hu Eu), op_eqb_refl.
        split; [congruence|]. intros [[H _]|[_ H]]; [congruence|].
        exfalso. apply H. discriminate.
      * split; [intros _; right; split; [reflexivity|congruence]|discriminate].
    + split.
      * intros H. left. split; [congruence|exact H].
      * intros [[_ H]|[H _]]; [exact H|congruence].
  - unfold Stabilizer.multiply_entry.
    destruct (dict_get d q) as [u|] eqn:Eu.
    + assert (Hin : existsb (Z.eqb q) (keys d) = true).
      { apply existsb_Zeqb_in, dict_get_in_keys. congruence. }
      rewrite Hin, (uniform_get ty d q u Hu Eu), op_eqb_refl.
      apply (length_dict_del d q u Eu).
    + assert (Hin : existsb (Z.eqb q) (keys d) = false).
      { destruct (existsb (Z.eqb q) (keys d)) eqn:E; [|reflexivity].
        apply existsb_Zeqb_in, dict_get_in_keys in E. congruence. }
      rewrite Hin. apply length_dict_set_new. exact Eu.
Qed.

Lemma common_qubits_ext (s s' : stabilizer) (l : list Z) :
  (forall q, In q l -> (In q (keys s) <-> In q (keys s'))) ->
  filter (fun q => existsb (Z.eqb q) (keys s)) l =
  filter (fun q => existsb (Z.eqb q) (keys s')) l.
Proof.
  intros H. apply filter_ext_in. intros q Hq.
  destruct (existsb (Z.eqb q) (keys s)) eqn:E1, (existsb (Z.eqb q) (keys s')) eqn:E2;
    try reflexivity.
  - apply existsb_Zeqb_in, (H q Hq), existsb_Zeqb_in in E1. congruence.
  - apply existsb_Zeqb_in, (H q Hq), existsb_Zeqb_in in E2. congruence.
Qed.

Lemma multiply_weight (ty : op) (t : stabilizer) :
  wf_dict t -> uniform ty t ->
  forall s, wf_dict s -> uniform ty s ->
    length (Stabilizer.multiply s t) + 2 * length (common_qubits s t)
    = length s + length t.
Proof.
  unfold Stabilizer.multiply, common_qubits.
  induction t as [|[q o] t IH]; intros Hwt Hut s Hws Hus.
  - cbn. lia.
  - assert (o = ty) by (inversion Hut; assumption). subst o.
    assert (Hut' : uniform ty t) by (inversion Hut; assumption).
    assert (Hwt' : wf_dict t) by (apply (wf_dict_tail _ _ Hwt)).
    assert (Hq : ~ In q (keys t)) by (inversion Hwt; assumption).
    destruct (multiply_entry_uniform ty s q Hws Hus) as (Hu1 & Hk1 & Hl1).
    cbn [fold_left].
    specialize (IH Hwt' Hut' (Stabilizer.multiply_entry s (q, ty))
                   (wf_multiply_entry s (q, ty) Hws) Hu1).
    rewrite (common_qubits_ext (Stabilizer.multiply_entry s (q, ty)) s (keys t)) in IH.
    2:{ intros k Hk. rewrite Hk1. split.
        - intros [[_ H]|[-> _]]; [exact H|contradiction].
        - intros H. left. split; [|exact H]. intros ->. contradiction. }
    cbn [keys map fst filter length].
    change (map fst t) with (keys t).
    change (map fst s) with (keys s) in *.
    destruct (existsb (Z.eqb q) (keys s)); cbn [length] in *; lia.
Qed.

(** X9: the product of two terms of one type is their symmetric
    difference. *)
Theorem multiply_same_type (ty : op) (s t : stabilizer) :
  wf_dict s -> wf_dict t -> uniform ty s -> uniform ty t ->
  uniform ty (Stabilizer.multiply s t)
  /\ (forall q, In q (keys (Stabilizer.multiply s t))
                <-> (In q (keys s) /\ ~ In q (keys t))
                    \/ (~ In q (keys s) /\ In q (keys t)))
  /\ length (Stabilizer.multiply s t) + 2 * length (common_qubits s t)
     = length s + length t.
Proof.
  intros Hs Ht Us Ut.
  split; [apply multiply_uniform; assumption|].
  split; [intros q; apply (keys_multiply_uniform ty); assumption|].
  apply (multiply_weight ty); assumption.
Qed.

Lemma multiply_same_type_witness :
  uniform PZ (Stabilizer.multiply [(1, PZ); (2, PZ)]%Z [(2, PZ); (3, PZ)]%Z)
  /\ (forall q, In q (keys (Stabilizer.multiply [(1, PZ); (2, PZ)]%Z [(2, PZ); (3, PZ)]%Z))
                <-> (In q (keys [(1, PZ); (2, PZ)]%Z) /\ ~ In q (keys [(2, PZ); (3, PZ)]%Z))
                    \/ (~ In q (keys [(1, PZ); (2, PZ)]%Z) /\ In q (keys [(2, PZ); (3, PZ)]%Z)))
  /\ length (Stabilizer.multiply [(1, PZ); (2, PZ)]%Z [(2, PZ); (3, PZ)]%Z)
     + 2 * length (common_qubits [(1, PZ); (2, PZ)]%Z [(2, PZ); (3, PZ)]%Z)
     = length [(1, PZ); (2, PZ)]%Z + length [(2, PZ); (3, PZ)]%Z.
Proof.
  apply (multiply_same_type PZ [(1, PZ); (2, PZ)]%Z [(2, PZ); (3, PZ)]%Z).
  - solve_wf.
  - solve_wf.
  - repeat constructor.
  - repeat constructor.
Defined.

Lemma dict_set_new (d : dict) (q : Z) (v : op) :
  ~ In q (keys d) -> dict_set d q v = d ++ [(q, v)].
Proof.
  induction d as [|[k w] d IH]; cbn [dict_set keys map fst In app]; [reflexivity|].
  intros H. destruct (Z.eqb_spec k q) as [->|Hne]; [exfalso; apply H; left; reflexivity|].
  rewrite IH; [reflexivity|]. intros Hin. apply H. right. exact Hin.
Qed.

Lemma multiply_disjoint (t : stabilizer) :
  forall s, NoDup (keys s ++ keys t) -> Stabilizer.multiply s t = s ++ t.
Proof.
  unfold Stabilizer.multiply.
  induction t as [|[q o] t IH]; intros s H; cbn [fold_left].
  - rewrite app_nil_r. reflexivity.
  - cbn [keys map fst] in H. change (map fst t) with (keys t) in H.
    assert (Hq : ~ In q (keys s)).
    { intros Hin. apply NoDup_remove_2 in H. apply H. apply in_or_app. left. exact Hin. }
    unfold Stabilizer.multiply_entry at 2.
    rewrite (proj2 (dict_get_none s q) Hq), (dict_set_new s q o Hq).
    rewrite IH.
    + rewrite <- app_assoc. reflexivity.
    + unfold keys in *. rewrite map_app, <- app_assoc. exact H.
Qed.




(** ** What the resolver keeps *)

Lemma scan_partner_found (self : BaconShorCode) (stab1 : stabilizer) (ty : op)
      (rest : list stabilizer) (stab2 : stabilizer) :
  Interactive.scan_partner self stab1 ty rest = Ok (Some stab2) ->
  In stab2 rest /\ first_value stab2 = Ok ty.
Proof.
  induction rest as [|x rest IH]; cbn [Interactive.scan_partner]; [discriminate|].
  destruct (first_value x) as [ty2| |] eqn:E; cbn [bind]; try discriminate.
  destruct (op_eqb ty ty2) eqn:Eop.
  - apply op_eqb_eq in Eop. subst ty2.
    destruct (Interactive.span_ok self ty stab1 x) as [[|]| |]; cbn [bind];
      try discriminate.
    + intros [= <-]. split; [left; reflexivity|exact E].
    + intros H. destruct (IH H) as [H1 H2]. split; [right; exact H1|exact H2].
  - intros H. destruct (IH H) as [H1 H2]. split; [right; exact H1|exact H2].
Qed.

Lemma scan_pairs_found (self : BaconShorCode) (l : list stabilizer)
      (stab1 stab2 : stabilizer) :
  Interactive.scan_pairs self l = Ok (Some (stab1, stab2)) ->
  In stab1 l /\ In stab2 l
  /\ exists ty, first_value stab1 = Ok ty /\ first_value stab2 = Ok ty.
Proof.
  induction l as [|x l IH]; cbn [Interactive.scan_pairs]; [discriminate|].
  destruct (first_value x) as [ty| |] eqn:E; cbn [bind]; try discriminate.
  destruct (Interactive.scan_partner self x ty l) as [[y|]| |] eqn:Ep; cbn [bind];
    try discriminate.
  - intros [= <- <-]. destruct (scan_partner_found self x ty l y Ep) as [H1 H2].
    split; [left; reflexivity|]. split; [right; exact H1|]. eauto.
  - intros H. destruct (IH H) as (H1 & H2 & H3).
    split; [right; exact H1|]. split; [right; exact H2|exact H3].
Qed.

Lemma list_remove_incl (l l' : list stabilizer) (x : stabilizer) :
  list_remove l x = Ok l' -> incl l' l.
Proof.
  revert l'. induction l as [|y l IH]; intros l'; cbn [list_remove]; [discriminate|].
  destruct (Stabilizer.eq y x).
  - intros [= <-]. apply incl_tl, incl_refl.
  - destruct (list_remove l x) as [r| |]; cbn [bind]; try discriminate.
    intros [= <-]. intros a [<-|Ha]; [left; reflexivity|right; apply (IH r eq_refl a Ha)].
Qed.

Lemma list_remove_keeps (l l' : list stabilizer) (x a : stabilizer) :
  list_remove l x = Ok l' -> In a l -> Stabilizer.eq a x = false -> In a l'.
Proof.
  revert l'. induction l as [|y l IH]; intros l'; cbn [list_remove]; [discriminate|].
  destruct (Stabilizer.eq y x) eqn:E.
  - intros [= <-] [<-|Ha] Hax; [congruence|exact Ha].
  - destruct (list_remove l x) as [r| |]; cbn [bind]; try discriminate.
    intros [= <-] [<-|Ha] Hax; [left; reflexivity|right; apply (IH r eq_refl Ha Hax)].
Qed.

Lemma combine_spec (gens : pyset) (acs : list stabilizer)
      (meas_stab stab1 stab2 : stabilizer) (gens' : pyset) (acs' : list stabilizer) :
  Interactive.combine gens acs meas_stab stab1 stab2 = Ok (gens', acs') ->
  exists a1 a2,
    list_remove acs stab1 = Ok a1 /\ list_remove a1 stab2 = Ok a2
    /\ ((Stabilizer.is_trivial (Stabilizer.multiply stab1 stab2) = true
         /\ gens' = set_discard (set_discard gens stab1) stab2 /\ acs' = a2)
        \/ (Stabilizer.is_trivial (Stabilizer.multiply stab1 stab2) = false
            /\ gens' = set_add (set_discard (set_discard gens stab1) stab2)
                               (Stabilizer.multiply stab1 stab2)
            /\ exists m, measurement_of meas_stab = Ok m
                /\ ((Stabilizer.commutes_with (Stabilizer.multiply stab1 stab2) m = false
                     /\ acs' = a2 ++ [Stabilizer.multiply stab1 stab2])
                    \/ (Stabilizer.commutes_with (Stabilizer.multiply stab1 stab2) m = true
                        /\ acs' = a2)))).
Proof.
  unfold Interactive.combine.
  destruct (list_remove acs stab1) as [a1| |] eqn:E1; cbn [bind]; try discriminate.
  destruct (list_remove a1 stab2) as [a2| |] eqn:E2; cbn [bind]; try discriminate.
  intros H. exists a1, a2. split; [reflexivity|]. split; [exact E2|].
  destruct (Stabilizer.is_trivial (Stabilizer.multiply stab1 stab2)); cbn [negb] in H.
  - left. injection H as <- <-. auto.
  - right. split; [reflexivity|].
    destruct (measurement_of meas_stab) as [m| |]; cbn [bind] in H; try discriminate.
    destruct (Stabilizer.commutes_with (Stabilizer.multiply stab1 stab2) m) eqn:Ec;
      cbn [negb] in H; injection H as <- <-.
    + split; [reflexivity|]. exists m. split; [reflexivity|]. right. auto.
    + split; [reflexivity|]. exists m. split; [reflexivity|]. left. auto.
Qed.

Lemma Forall_set_discard (P : stabilizer -> Prop) (s : pyset) (x : stabilizer) :
  Forall P s -> Forall P (set_discard s x).
Proof.
  intros H. apply Forall_forall. intros g Hg. apply filter_In in Hg.
  rewrite Forall_forall in H. apply H. tauto.
Qed.

Lemma Forall_fold_discard (P : stabilizer -> Prop) (l : list stabilizer) :
  forall s, Forall P s -> Forall P (fold_left set_discard l s).
Proof.
  induction l as [|x l IH]; intros s H; cbn [fold_left]; [exact H|].
  apply IH, Forall_set_discard, H.
Qed.

Lemma Forall_set_add (P : stabilizer -> Prop) (s : pyset) (x : stabilizer) :
  Forall P s -> P x -> Forall P (set_add s x).
Proof.
  intros H Hx. unfold set_add. destruct (set_mem x s); [exact H|].
  apply Forall_app. split; [exact H|]. constructor; [exact Hx|constructor].
Qed.

Lemma Forall_fold_add (P : stabilizer -> Prop) (l : list stabilizer) :
  Forall P l -> forall s, Forall P s -> Forall P (fold_left set_add l s).
Proof.
  induction 1 as [|x l Hx Hl IH]; intros s H; cbn [fold_left]; [exact H|].
  apply IH, Forall_set_add; assumption.
Qed.

Lemma Forall_incl {A : Type} (P : A -> Prop) (l l' : list A) :
  incl l' l -> Forall P l -> Forall P l'.
Proof.
  intros Hi H. rewrite Forall_forall in *. intros x Hx. apply H, Hi, Hx.
Qed.

Section Preservation.

Variable P : stabilizer -> Prop.

(** [P] passes to the products the resolver forms: two members of the
    working list with the same first operator. *)
Hypothesis P_combine :
  forall stab1 stab2 ty,
    P stab1 -> P stab2 ->
    first_value stab1 = Ok ty -> first_value stab2 = Ok ty ->
    Stabilizer.is_trivial (Stabilizer.multiply stab1 stab2) = false ->
    P (Stabilizer.multiply stab1 stab2).

Lemma combine_preserves (gens : pyset) (acs : list stabilizer)
      (meas_stab stab1 stab2 : stabilizer) (gens' : pyset) (acs' : list stabilizer) :
  (Stabilizer.is_trivial (Stabilizer.multiply stab1 stab2) = false ->
   P (Stabilizer.multiply stab1 stab2)) ->
  Forall P gens -> Forall P acs ->
  Interactive.combine gens acs meas_stab stab1 stab2 = Ok (gens', acs') ->
  Forall P gens' /\ Forall P acs'.
Proof.
  intros Hc Hg Ha H.
  destruct (combine_spec _ _ _ _ _ _ _ H) as (a1 & a2 & H1 & H2 & Hcase).
  assert (Ha2 : Forall P a2).
  { apply (Forall_incl P acs); [|exact Ha].
    eapply incl_tran; [apply (list_remove_incl _ _ _ H2)|apply (list_remove_incl _ _ _ H1)]. }
  destruct Hcase as [(Ht & -> & ->)|(Ht & -> & m & Hm & [(Hcm & ->)|(Hcm & ->)])].
  - split; [apply Forall_set_discard, Forall_set_discard, Hg|exact Ha2].
  - split; [apply Forall_set_add; [apply Forall_set_discard, Forall_set_discard, Hg|apply Hc, Ht]|].
    apply Forall_app. split; [exact Ha2|]. constructor; [apply Hc, Ht|constructor].
  - split; [apply Forall_set_add; [apply Forall_set_discard, Forall_set_discard, Hg|apply Hc, Ht]|].
    exact Ha2.
Qed.

Lemma resolve_preserves (self : BaconShorCode) (meas_stab : stabilizer) :
  forall fuel gens acs gens' acs',
    Forall P gens -> Forall P acs ->
    Interactive.resolve fuel self meas_stab gens acs = Ok (gens', acs') ->
    Forall P gens' /\ Forall P acs'.
Proof.
  induction fuel as [|fuel IH]; intros gens acs gens' acs' Hg Ha;
    cbn [Interactive.resolve]; [discriminate|].
  destruct (Interactive.scan_pairs self acs) as [[[s1 s2]|]| |] eqn:Es; cbn [bind];
    try discriminate.
  - destruct (Interactive.combine gens acs meas_stab s1 s2) as [[g1 a1]| |] eqn:Ec;
      cbn [bind]; try discriminate.
    cbn [fst snd]. intros H.
    destruct (scan_pairs_found self acs s1 s2 Es) as (H1 & H2 & ty & Hty1 & Hty2).
    rewrite Forall_forall in Ha.
    destruct (combine_preserves gens acs meas_stab s1 s2 g1 a1) as [Hg1 Ha1].
    + apply (P_combine s1 s2 ty); auto.
    + exact Hg.
    + apply Forall_forall. exact Ha.
    + exact Ec.
    + apply (IH g1 a1 gens' acs' Hg1 Ha1 H).
  - intros [= <- <-]. split; assumption.
Qed.

Lemma adjust_one_preserves (it : IterOrder) (self : BaconShorCode) (gens : pyset)
      (meas_stab : stabilizer) (gens' : pyset) :
  Forall P gens ->
  Interactive.adjust_one it self gens meas_stab = Ok gens' ->
  Forall P gens'.
Proof.
  intros Hg. unfold Interactive.adjust_one, Interactive.resolve_and_discard.
  destruct (anti_commuting it gens meas_stab) as [acs| |] eqn:Ea; cbn [bind];
    try discriminate.
  destruct (Interactive.resolve _ self meas_stab gens acs) as [[g1 a1]| |] eqn:Er;
    cbn [bind]; try discriminate.
  intros [= <-]. cbn [fst snd].
  destruct (resolve_preserves self meas_stab (S (length acs)) gens acs g1 a1 Hg)
    as [Hg1 _].
  - apply (Forall_incl P gens); [apply (anti_commuting_incl it gens meas_stab acs Ea)|exact Hg].
  - exact Er.
  - apply Forall_fold_discard. exact Hg1.
Qed.

Lemma adjust_preserves (it : IterOrder) (self : BaconShorCode)
      (ms : list stabilizer) :
  forall gens gens',
    Forall P gens ->
    Interactive.adjust it self gens ms = Ok gens' ->
    Forall P gens'.
Proof.
  unfold Interactive.adjust.
  induction ms as [|m ms IH]; intros gens gens' Hg; cbn [foldM].
  - intros [= <-]. exact Hg.
  - destruct (Interactive.adjust_one it self gens m) as [g1| |] eqn:E; cbn [bind];
      try discriminate.
    apply IH. apply (adjust_one_preserves it self gens m g1 Hg E).
Qed.

End Preservation.

Section SimplifyPreservation.

Variable Q : stabilizer -> Prop.

(** [Q] passes to the products the simplification forms: a stabilizer
    times one whose items it contains. *)
Hypothesis Q_reduce :
  forall stab simple_stab,
    Q stab -> Q simple_stab ->
    Stabilizer.items_subset simple_stab stab = true ->
    Q (Stabilizer.multiply stab simple_stab).

Lemma reduce_fold_preserves (l : list stabilizer) :
  Forall Q l ->
  forall stab, Q stab ->
    Q (fold_left
         (fun stab simple_stab =>
            if Stabilizer.items_subset simple_stab stab
            then Stabilizer.multiply stab simple_stab else stab) l stab).
Proof.
  induction 1 as [|r l Hr Hl IH]; intros stab Hs; cbn [fold_left]; [exact Hs|].
  apply IH. destruct (Stabilizer.items_subset r stab) eqn:E; [|exact Hs].
  apply Q_reduce; assumption.
Qed.

Lemma simplify_entry_preserves (it : IterOrder) (simplified : pyset) (stab : stabilizer) :
  Forall Q simplified -> Q stab ->
  Forall Q (Interactive.simplify_entry it simplified stab).
Proof.
  intros Hs Hq. unfold Interactive.simplify_entry.
  destruct (negb _); [|exact Hs].
  apply Forall_set_add; [exact Hs|].
  unfold Interactive.reduce_by. apply reduce_fold_preserves; [|exact Hq].
  eapply Permutation_Forall; [symmetry; apply iter_perm|exact Hs].
Qed.

Lemma simplify_preserves (it : IterOrder) (gens : pyset) :
  Forall Q gens -> Forall Q (Interactive.simplify it gens).
Proof.
  intros Hg. unfold Interactive.simplify.
  assert (Hl : Forall Q (sorted_by_weight (iter it gens))).
  { eapply Permutation_Forall; [symmetry; apply sorted_by_weight_perm|].
    eapply Permutation_Forall; [symmetry; apply iter_perm|exact Hg]. }
  assert (Hacc : Forall Q (@nil stabilizer)) by constructor.
  revert Hacc. generalize (@nil stabilizer) as acc.
  induction Hl as [|x l Hx Hl IH]; intros acc Hacc; cbn [fold_left]; [exact Hacc|].
  apply IH. apply simplify_entry_preserves; assumption.
Qed.

End SimplifyPreservation.

(** ** Every generator is a product of what the step was given *)

Lemma generated_by_incl (s s' : list stabilizer) (g : stabilizer) :
  incl s s' -> generated_by s g -> generated_by s' g.
Proof.
  intros Hi H. induction H as [g Hg|a b _ IHa _ IHb].
  - apply generated_member, Hi, Hg.
  - apply generated_product; assumption.
Qed.

Lemma update_stabilizers_generated (it : IterOrder) (self self' : BaconShorCode)
      (valid : list (Z * Z)) :
  Forall (fun p => is_adjacent self (fst p) (snd p) = true) valid ->
  Interactive.update_stabilizers it self valid = Ok self' ->
  Forall (generated_by (stabilizer_generators self ++ map (measurement_term self) valid))
         (stabilizer_generators self').
Proof.
  intros Hv. unfold Interactive.update_stabilizers.
  rewrite (mapM_meas_stab_of self valid Hv). cbn [bind].
  set (terms := map (measurement_term self) valid).
  set (G := generated_by (stabilizer_generators self ++ terms)).
  assert (Hterms : Forall G terms).
  { apply Forall_forall. intros g Hg. apply generated_member, in_or_app. right. exact Hg. }
  assert (Hold : Forall G (stabilizer_generators self)).
  { apply Forall_forall. intros g Hg. apply generated_member, in_or_app. left. exact Hg. }
  assert (Hnew : Forall G (fold_left set_add terms []))
    by (apply Forall_fold_add; [exact Hterms|constructor]).
  destruct (time_step self =? 1)%nat.
  - intros [= <-]. exact Hnew.
  - unfold Interactive.adjust_stabilizers. cbn [with_generators stabilizer_generators].
    destruct (Interactive.adjust it _ _ terms) as [g1| |] eqn:Ea; cbn [bind];
      try discriminate.
    intros [= <-].
    cbn [Interactive.simplify_stabilizers with_generators stabilizer_generators].
    apply (simplify_preserves G).
    + intros a b Ha Hb _. apply generated_product; assumption.
    + apply (adjust_preserves G) in Ea; [exact Ea| |].
      * intros a b ty Ha Hb _ _ _. apply generated_product; assumption.
      * unfold set_union. apply Forall_fold_add; [|exact Hold].
        eapply Permutation_Forall; [symmetry; apply iter_perm|exact Hnew].
Qed.

(** X11: a time step stores nothing but products of the generators it
    found and the terms of the accepted pairs. *)
Theorem run_time_step_generated (it : IterOrder) (self : BaconShorCode)
        (batch : list (Z * Z)) :
  gens_ok self (stabilizer_generators self) ->
  exists self',
    snd (Interactive.run_time_step it self batch) = Ok self'
    /\ Forall (generated_by (stabilizer_generators self
                             ++ map (measurement_term self) (accepted self batch)))
              (stabilizer_generators self').
Proof.
  intros Hg.
  destruct (run_time_step_ok it self batch Hg) as (self' & Hs & _).
  exists self'. split; [exact Hs|].
  unfold Interactive.run_time_step in Hs. rewrite validate_spec in Hs. cbn [snd] in Hs.
  change (accepted (tick self) batch) with (accepted self batch) in Hs.
  destruct (Interactive.update_stabilizers it (tick self) (accepted self batch))
    as [s1| |] eqn:Eu; cbn [bind] in Hs; try discriminate.
  injection Hs as <-. cbn [stabilizer_generators].
  apply (update_stabilizers_generated it (tick self) s1 (accepted self batch)).
  - apply (accepted_adjacent self batch).
  - exact Eu.
Qed.

Lemma run_time_step_generated_witness :
  exists self',
    snd (Interactive.run_time_step insertion_order
           {| rows := 4; cols := 4;
              stabilizer_generators := [[(1, PZ); (2, PZ)]; [(6, PZ); (7, PZ)]]%Z;
              time_step := 1;
              current_measurements := [(1, 2); (6, 7)]%Z;
              measurements_history := [[(1, 2); (6, 7)]%Z] |}
           [(1, 6); (2, 7)]%Z) = Ok self'
    /\ Forall (generated_by
                 ([[(1, PZ); (2, PZ)]; [(6, PZ); (7, PZ)]]%Z
                  ++ map (measurement_term (init 4 4))
                       (accepted (init 4 4) [(1, 6); (2, 7)]%Z)))
              (stabilizer_generators self').
Proof.
  apply (run_time_step_generated insertion_order
           {| rows := 4; cols := 4;
              stabilizer_generators := [[(1, PZ); (2, PZ)]; [(6, PZ); (7, PZ)]]%Z;
              time_step := 1;
              current_measurements := [(1, 2); (6, 7)]%Z;
              measurements_history := [[(1, 2); (6, 7)]%Z] |}
           [(1, 6); (2, 7)]%Z).
  solve_gens_ok.
Defined.

(** ** Generators of a single type *)

Lemma uniform_first_value (t ty : op) (s : stabilizer) :
  uniform t s -> first_value s = Ok ty -> ty = t.
Proof.
  unfold first_value, values. destruct s as [|[q o] s]; cbn [map snd]; [discriminate|].
  intros H [= <-]. inversion H. assumption.
Qed.

Lemma single_type_combine (s1 s2 : stabilizer) (ty : op) :
  wf_dict s1 -> wf_dict s2 -> single_type s1 -> single_type s2 ->
  first_value s1 = Ok ty -> first_value s2 = Ok ty ->
  single_type (Stabilizer.multiply s1 s2).
Proof.
  intros W1 W2 [U1|U1] [U2|U2] F1 F2.
  - left. apply multiply_uniform; assumption.
  - pose proof (uniform_first_value _ _ _ U1 F1). pose proof (uniform_first_value _ _ _ U2 F2).
    congruence.
  - pose proof (uniform_first_value _ _ _ U1 F1). pose proof (uniform_first_value _ _ _ U2 F2).
    congruence.
  - right. apply multiply_uniform; assumption.
Qed.

Lemma typed_ok_combine (self : BaconShorCode) (s1 s2 : stabilizer) (ty : op) :
  typed_ok self s1 -> typed_ok self s2 ->
  first_value s1 = Ok ty -> first_value s2 = Ok ty ->
  Stabilizer.is_trivial (Stabilizer.multiply s1 s2) = false ->
  typed_ok self (Stabilizer.multiply s1 s2).
Proof.
  intros [O1 T1] [O2 T2] F1 F2 Hn. split.
  - apply stab_ok_multiply; assumption.
  - apply (single_type_combine s1 s2 ty); try assumption.
    + apply O1.
    + apply O2.
Qed.

Lemma uniform_reduce (ty : op) (stab r : stabilizer) :
  wf_dict stab -> wf_dict r -> uniform ty stab ->
  Stabilizer.items_subset r stab = true ->
  uniform ty (Stabilizer.multiply stab r).
Proof.
  intros Ws Wr U Hsub. apply uniform_of_get; [apply wf_multiply; exact Ws|].
  intros q o. rewrite dict_get_multiply by assumption.
  destruct (dict_get r q) as [w|] eqn:Er.
  - apply dict_get_some_in in Er.
    rewrite (proj1 (items_subset_spec r stab) Hsub q w Er).
    cbn [op_mul]. rewrite op_eqb_refl. discriminate.
  - rewrite op_mul_none_r. apply uniform_get. exact U.
Qed.

(** A well-formed dictionary of one type over qubits of the lattice,
    possibly empty. *)
Lemma typed_reduce (self : BaconShorCode) (stab r : stabilizer) :
  (wf_dict stab /\ Forall (fun q => in_grid self q = true) (keys stab) /\ single_type stab) ->
  (wf_dict r /\ Forall (fun q => in_grid self q = true) (keys r) /\ single_type r) ->
  Stabilizer.items_subset r stab = true ->
  wf_dict (Stabilizer.multiply stab r)
  /\ Forall (fun q => in_grid self q = true) (keys (Stabilizer.multiply stab r))
  /\ single_type (Stabilizer.multiply stab r).
Proof.
  intros (Ws & Ks & Ts) (Wr & Kr & Tr) Hsub.
  split; [apply wf_multiply; exact Ws|]. split.
  - apply Forall_forall. intros q Hq.
    rewrite Forall_forall in Ks, Kr.
    destruct (keys_multiply stab r q Ws Wr Hq); auto.
  - destruct Ts as [U|U]; [left|right]; apply uniform_reduce; assumption.
Qed.

Lemma measurement_term_typed (self : BaconShorCode) (p : Z * Z) :
  is_adjacent self (fst p) (snd p) = true -> typed_ok self (measurement_term self p).
Proof.
  intros Hadj. split; [apply stab_ok_measurement_term; exact Hadj|].
  unfold measurement_term. destruct (_ =? _)%nat; [left|right]; repeat constructor.
Qed.

Lemma gens_typed_ok (self : BaconShorCode) (s : list stabilizer) :
  gens_typed self s -> gens_ok self s.
Proof.
  intros H. unfold gens_typed, gens_ok in *. rewrite Forall_forall in *.
  intros g Hg. apply (H g Hg).
Qed.

Lemma update_stabilizers_typed (it : IterOrder) (self self' : BaconShorCode)
      (valid : list (Z * Z)) :
  Forall (fun p => is_adjacent self (fst p) (snd p) = true) valid ->
  gens_typed self (stabilizer_generators self) ->
  Interactive.update_stabilizers it self valid = Ok self' ->
  gens_typed self (stabilizer_generators self').
Proof.
  intros Hv Hg. unfold Interactive.update_stabilizers.
  rewrite (mapM_meas_stab_of self valid Hv). cbn [bind].
  set (terms := map (measurement_term self) valid).
  assert (Hterms : gens_typed self terms).
  { unfold terms. apply Forall_forall. intros g Hin. apply in_map_iff in Hin.
    destruct Hin as (p & <- & Hp). apply measurement_term_typed.
    rewrite Forall_forall in Hv. exact (Hv p Hp). }
  assert (Hnew : gens_typed self (fold_left set_add terms []))
    by (apply Forall_fold_add; [exact Hterms|constructor]).
  destruct (time_step self =? 1)%nat.
  - intros [= <-]. exact Hnew.
  - unfold Interactive.adjust_stabilizers. cbn [with_generators stabilizer_generators].
    destruct (Interactive.adjust it _ _ terms) as [g1| |] eqn:Ea; cbn [bind];
      try discriminate.
    intros [= <-].
    cbn [Interactive.simplify_stabilizers with_generators stabilizer_generators].
    apply (adjust_preserves (typed_ok self)) in Ea.
    + assert (Hq : Forall (fun g => wf_dict g
                                    /\ Forall (fun q => in_grid self q = true) (keys g)
                                    /\ single_type g)
                          (Interactive.simplify it g1)).
      { apply simplify_preserves; [apply typed_reduce|].
        unfold gens_typed in Ea. rewrite Forall_forall in *.
        intros g Hin. destruct (Ea g Hin) as ((W & _ & K) & T). auto. }
      pose proof (simplify_nontrivial it g1) as Hn. unfold all_nontrivial in Hn.
      unfold gens_typed. rewrite Forall_forall in *.
      intros g Hin. destruct (Hq g Hin) as (W & K & T).
      split; [|exact T]. split; [exact W|]. split; [apply (Hn g Hin)|exact K].
    + apply typed_ok_combine.
    + unfold set_union. apply Forall_fold_add; [|exact Hg].
      eapply Permutation_Forall; [symmetry; apply iter_perm|exact Hnew].
Qed.

Lemma run_time_step_typed (it : IterOrder) (self : BaconShorCode)
      (batch : list (Z * Z)) :
  gens_typed self (stabilizer_generators self) ->
  exists self',
    snd (Interactive.run_time_step it self batch) = Ok self'
    /\ rows self' = rows self /\ cols self' = cols self
    /\ time_step self' = S (time_step self)
    /\ gens_typed self (stabilizer_generators self').
Proof.
  intros Hg.
  destruct (run_time_step_ok it self batch (gens_typed_ok self _ Hg))
    as (self' & Hs & Hr & Hc & _).
  exists self'. split; [exact Hs|].
  destruct (run_time_step_fields it self self' batch Hs) as (_ & _ & Ht & _).
  split; [exact Hr|]. split; [exact Hc|]. split; [exact Ht|].
  unfold Interactive.run_time_step in Hs. rewrite validate_spec in Hs. cbn [snd] in Hs.
  change (accepted (tick self) batch) with (accepted self batch) in Hs.
  destruct (Interactive.update_stabilizers it (tick self) (accepted self batch))
    as [s1| |] eqn:Eu; cbn [bind] in Hs; try discriminate.
  injection Hs as <-. cbn [stabilizer_generators].
  apply (update_stabilizers_typed it (tick self) s1 (accepted self batch)).
  - apply (accepted_adjacent self batch).
  - exact Hg.
  - exact Eu.
Qed.

Lemma gens_typed_same_grid (self self' : BaconShorCode) (s : pyset) :
  rows self' = rows self -> cols self' = cols self ->
  gens_typed self s -> gens_typed self' s.
Proof.
  intros Hr Hc H. unfold gens_typed, typed_ok in *.
  rewrite Forall_forall in *. intros g Hg. destruct (H g Hg) as [O T].
  split; [|exact T].
  assert (Hs : gens_ok self [g]) by (constructor; [exact O|constructor]).
  apply (gens_ok_same_grid self self' [g] Hr Hc) in Hs.
  inversion Hs. assumption.
Qed.

Lemma run_typed (it : IterOrder) (schedule : list (list (Z * Z))) :
  forall self,
    gens_typed self (stabilizer_generators self) ->
    exists self',
      Interactive.run it self schedule = Ok self'
      /\ rows self' = rows self /\ cols self' = cols self
      /\ gens_typed self' (stabilizer_generators self').
Proof.
  unfold Interactive.run.
  induction schedule as [|batch schedule IH]; intros self Hg; cbn [foldM].
  - exists self. auto.
  - destruct (run_time_step_typed it self batch Hg) as (s1 & -> & Hr & Hc & _ & Hg1).
    cbn [bind].
    destruct (IH s1 (gens_typed_same_grid self s1 _ Hr Hc Hg1)) as (s2 & -> & Hr2 & Hc2 & Hg2).
    exists s2. split; [reflexivity|]. split; [congruence|]. split; [congruence|exact Hg2].
Qed.

Lemma values_are_uniform (ty : op) (g : stabilizer) :
  Stabilizer.is_trivial g = false -> uniform ty g -> values_are g ty = true.
Proof.
  intros Hn U. unfold values_are, values.
  destruct g as [|e g]; [discriminate|]. cbn [map].
  change (forallb (op_eqb ty) (map snd (e :: g)) = true).
  apply forallb_forall. intros o Ho. apply in_map_iff in Ho.
  destruct Ho as (x & <- & Hx). unfold uniform in U. rewrite Forall_forall in U.
  rewrite (U x Hx). apply op_eqb_refl.
Qed.

(** X12: whatever the schedule, the refined program never holds a
    generator that mixes operators. *)
Theorem generators_single_type (it : IterOrder) (r c : nat)
        (schedule : list (list (Z * Z))) :
  exists self',
    Interactive.run it (init r c) schedule = Ok self'
    /\ Forall (fun g => wf_dict g /\ Stabilizer.is_trivial g = false
                        /\ (uniform PX g \/ uniform PZ g))
              (stabilizer_generators self')
    /\ forall it' rect,
        In rect (draw_generators it' self') ->
        snd rect = "lightblue"%string \/ snd rect = "lightpink"%string.
Proof.
  destruct (run_typed it schedule (init r c)) as (self' & Hs & _ & _ & Hg);
    [constructor|].
  exists self'. split; [exact Hs|]. split.
  - unfold gens_typed in Hg. rewrite Forall_forall in *.
    intros g Hin. destruct (Hg g Hin) as ((W & N & _) & T). auto.
  - intros it' rect Hin. unfold draw_generators in Hin.
    apply in_flat_map in Hin. destruct Hin as (g & Hg' & Hin).
    apply (Permutation_in _ (iter_perm it' _)) in Hg'.
    unfold gens_typed in Hg. rewrite Forall_forall in Hg.
    destruct (Hg g Hg') as ((W & N & _) & T).
    apply in_map_iff in Hin. destruct Hin as (xy & <- & _). cbn [snd].
    unfold generator_color. destruct T as [U|U].
    + rewrite (values_are_uniform PX g N U). left. reflexivity.
    + destruct (values_are g PX); [left; reflexivity|].
      rewrite (values_are_uniform PZ g N U). right. reflexivity.
Qed.

(** ** After a measurement is resolved, every generator commutes with it *)

Lemma commutes_multiply_parity (s t : stabilizer) (m : Stabilizer.measurement) :
  wf_dict s -> wf_dict t -> xz_only s -> xz_only t ->
  Stabilizer.m_type m = PX \/ Stabilizer.m_type m = PZ ->
  Stabilizer.commutes_with (Stabilizer.multiply s t) m =
  Bool.eqb (Stabilizer.commutes_with s m) (Stabilizer.commutes_with t m).
Proof.
  intros Hs Ht Xs Xt Hty. rewrite !commutes_with_even.
  apply even_filter_xor. intros q. apply anti_bit_multiply; assumption.
Qed.

Lemma single_type_xz (s : stabilizer) : single_type s -> xz_only s.
Proof.
  intros [U|U]; unfold uniform in U; unfold xz_only;
    rewrite Forall_forall in *; intros e He; rewrite (U e He); auto.
Qed.

Lemma commutes_with_ext (a b : stabilizer) (m : Stabilizer.measurement) :
  (forall q, dict_get a q = dict_get b q) ->
  Stabilizer.commutes_with a m = Stabilizer.commutes_with b m.
Proof.
  intros H. rewrite !commutes_with_even. f_equal. f_equal.
  apply filter_ext. intros q. unfold anti_bit. rewrite H. reflexivity.
Qed.

Lemma commutes_with_eq (a b : stabilizer) (m : Stabilizer.measurement) :
  wf_dict a -> wf_dict b -> Stabilizer.eq a b = true ->
  Stabilizer.commutes_with a m = Stabilizer.commutes_with b m.
Proof.
  intros Wa Wb E. apply commutes_with_ext.
  apply (stabilizer_eq_spec a b Wa Wb). exact E.
Qed.

Lemma stabilizer_eq_trans (a b c : stabilizer) :
  wf_dict a -> wf_dict b -> wf_dict c ->
  Stabilizer.eq a b = true -> Stabilizer.eq b c = true -> Stabilizer.eq a c = true.
Proof.
  intros Wa Wb Wc H1 H2.
  apply (stabilizer_eq_spec a c Wa Wc). intros q.
  rewrite (proj1 (stabilizer_eq_spec a b Wa Wb) H1 q).
  apply (stabilizer_eq_spec b c Wb Wc). exact H2.
Qed.

Lemma set_discard_in (s : pyset) (x g : stabilizer) :
  In g (set_discard s x) <-> In g s /\ Stabilizer.eq x g = false.
Proof.
  unfold set_discard. rewrite filter_In, negb_true_iff. reflexivity.
Qed.

Lemma fold_discard_in (l : list stabilizer) :
  forall s g, In g (fold_left set_discard l s) ->
              In g s /\ forall a, In a l -> Stabilizer.eq a g = false.
Proof.
  induction l as [|x l IH]; intros s g; cbn [fold_left].
  - intros H. split; [exact H|intros a []].
  - intros H. destruct (IH _ _ H) as [H1 H2].
    apply set_discard_in in H1. destruct H1 as [H1 H3].
    split; [exact H1|]. intros a [<-|Ha]; [exact H3|apply H2, Ha].
Qed.

Lemma combine_covers (m : Stabilizer.measurement) (gens : pyset)
      (acs : list stabilizer) (meas_stab stab1 stab2 : stabilizer)
      (gens' : pyset) (acs' : list stabilizer) :
  all_wf gens -> all_wf acs -> wf_dict stab1 -> wf_dict stab2 ->
  measurement_of meas_stab = Ok m ->
  covers m gens acs ->
  Interactive.combine gens acs meas_stab stab1 stab2 = Ok (gens', acs') ->
  covers m gens' acs'.
Proof.
  intros Wg Wa W1 W2 Hm Hcov H.
  destruct (combine_spec _ _ _ _ _ _ _ H) as (a1 & a2 & H1 & H2 & Hcase).
  unfold all_wf in Wg, Wa. rewrite Forall_forall in Wg, Wa.
  assert (Hold : forall g,
             In g (set_discard (set_discard gens stab1) stab2) ->
             Stabilizer.commutes_with g m = false ->
             exists a, In a a2 /\ Stabilizer.eq a g = true).
  { intros g Hg Hc. apply set_discard_in in Hg. destruct Hg as [Hg E2].
    apply set_discard_in in Hg. destruct Hg as [Hg E1].
    destruct (Hcov g Hg Hc) as (a & Ha & Eag).
    exists a. split; [|exact Eag].
    assert (Hn : forall s, wf_dict s -> Stabilizer.eq s g = false ->
                           Stabilizer.eq a s = false).
    { intros s Ws Esg. destruct (Stabilizer.eq a s) eqn:Eas; [|reflexivity].
      rewrite (stabilizer_eq_sym a s (Wa a Ha) Ws) in Eas.
      rewrite (stabilizer_eq_trans s a g Ws (Wa a Ha) (Wg g Hg) Eas Eag) in Esg.
      discriminate. }
    apply (list_remove_keeps a1 a2 stab2 a H2); [|apply Hn; assumption].
    apply (list_remove_keeps acs a1 stab1 a H1); [exact Ha|apply Hn; assumption]. }
  destruct Hcase as [(Ht & -> & ->)|(Ht & -> & m' & Hm' & Hc')].
  - exact Hold.
  - assert (m' = m) by congruence. subst m'.
    intros g Hg Hc. apply set_add_in in Hg.
    destruct Hc' as [(Hcm & ->)|(Hcm & ->)].
    + destruct Hg as [Hg| ->].
      * destruct (Hold g Hg Hc) as (a & Ha & E). exists a.
        split; [apply in_or_app; left; exact Ha|exact E].
      * exists (Stabilizer.multiply stab1 stab2).
        split; [apply in_or_app; right; left; reflexivity|].
        apply stabilizer_eq_refl, wf_multiply, W1.
    + destruct Hg as [Hg| ->]; [exact (Hold g Hg Hc)|congruence].
Qed.

Lemma resolve_covers (self : BaconShorCode) (meas_stab : stabilizer)
      (m : Stabilizer.measurement) :
  measurement_of meas_stab = Ok m ->
  forall fuel gens acs gens' acs',
    all_wf gens -> all_wf acs -> covers m gens acs ->
    Interactive.resolve fuel self meas_stab gens acs = Ok (gens', acs') ->
    covers m gens' acs'.
Proof.
  intros Hm. induction fuel as [|fuel IH]; intros gens acs gens' acs' Wg Wa Hcov;
    cbn [Interactive.resolve]; [discriminate|].
  destruct (Interactive.scan_pairs self acs) as [[[s1 s2]|]| |] eqn:Es; cbn [bind];
    try discriminate.
  - destruct (Interactive.combine gens acs meas_stab s1 s2) as [[g1 a1]| |] eqn:Ec;
      cbn [bind]; try discriminate.
    cbn [fst snd]. intros H.
    destruct (scan_pairs_found self acs s1 s2 Es) as (H1 & H2 & _).
    assert (W1 : wf_dict s1) by (unfold all_wf in Wa; rewrite Forall_forall in Wa; auto).
    assert (W2 : wf_dict s2) by (unfold all_wf in Wa; rewrite Forall_forall in Wa; auto).
    destruct (combine_preserves wf_dict gens acs meas_stab s1 s2 g1 a1) as [Wg1 Wa1];
      try assumption.
    { intros _. apply wf_multiply, W1. }
    apply (IH g1 a1 gens' acs' Wg1 Wa1); [|exact H].
    apply (combine_covers m gens acs meas_stab s1 s2 g1 a1); assumption.
  - intros [= <- <-]. exact Hcov.
Qed.

Lemma anti_commuting_spec (it : IterOrder) (gens : pyset) (meas_stab : stabilizer)
      (m : Stabilizer.measurement) :
  measurement_of meas_stab = Ok m ->
  anti_commuting it gens meas_stab =
  Ok (filter (fun stab => negb (Stabilizer.commutes_with stab m)
                          && negb (Stabilizer.eq stab meas_stab)) (iter it gens)).
Proof.
  intros Hm. unfold anti_commuting. rewrite Hm.
  destruct (iter it gens); reflexivity.
Qed.

Lemma adjust_one_sound (it : IterOrder) (self : BaconShorCode) (gens : pyset)
      (meas_stab : stabilizer) (m : Stabilizer.measurement) (gens' : pyset) :
  all_wf gens -> wf_dict meas_stab ->
  measurement_of meas_stab = Ok m ->
  Stabilizer.commutes_with meas_stab m = true ->
  Interactive.adjust_one it self gens meas_stab = Ok gens' ->
  all_commute m gens'.
Proof.
  intros Wg Wm Hm Hself. unfold Interactive.adjust_one, Interactive.resolve_and_discard.
  rewrite (anti_commuting_spec it gens meas_stab m Hm). cbn [bind].
  set (acs := filter (fun stab => negb (Stabilizer.commutes_with stab m)
                                  && negb (Stabilizer.eq stab meas_stab)) (iter it gens)).
  match goal with
  | |- context [Interactive.resolve ?fuel self meas_stab gens acs] =>
      destruct (Interactive.resolve fuel self meas_stab gens acs)
        as [[g1 a1]| |] eqn:Er; cbn [bind]; try discriminate
  end.
  intros [= <-]. cbn [fst snd].
  assert (Wa : all_wf acs).
  { apply (Forall_incl wf_dict gens); [|exact Wg].
    intros a Ha. apply filter_In in Ha. destruct Ha as [Ha _].
    apply (Permutation_in _ (iter_perm it gens)). exact Ha. }
  assert (Hcov : covers m gens acs).
  { intros g Hg Hc. exists g.
    unfold all_wf in Wg. rewrite Forall_forall in Wg.
    split; [|apply stabilizer_eq_refl, Wg, Hg].
    apply filter_In. split.
    - apply (Permutation_in _ (Permutation_sym (iter_perm it gens))). exact Hg.
    - rewrite Hc. cbn [negb andb]. apply negb_true_iff.
      destruct (Stabilizer.eq g meas_stab) eqn:E; [|reflexivity].
      rewrite (commutes_with_eq g meas_stab m (Wg g Hg) Wm E) in Hc. congruence. }
  pose proof (resolve_covers self meas_stab m Hm _ gens acs g1 a1 Wg Wa Hcov Er) as Hc1.
  apply Forall_forall. intros g Hg.
  apply fold_discard_in in Hg. destruct Hg as [Hg Hne].
  destruct (Stabilizer.commutes_with g m) eqn:Ec; [reflexivity|].
  destruct (Hc1 g Hg Ec) as (a & Ha & E). rewrite (Hne a Ha) in E. discriminate.
Qed.

Lemma commutes_same_type (ty : op) (s : stabilizer) (m : Stabilizer.measurement) :
  uniform ty s -> Stabilizer.m_type m = ty -> Stabilizer.commutes_with s m = true.
Proof.
  intros U Hty. rewrite commutes_with_even, Hty.
  assert (E : filter (anti_bit s ty) (Stabilizer.m_qubits m) = []).
  { induction (Stabilizer.m_qubits m) as [|q l IH]; [reflexivity|].
    cbn [filter]. unfold anti_bit at 1.
    destruct (dict_get s q) as [o|] eqn:E; [|exact IH].
    rewrite (uniform_get ty s q o U E), op_eqb_refl. cbn [negb]. exact IH. }
  rewrite E. reflexivity.
Qed.

Lemma measurement_of_typed (self : BaconShorCode) (s : stabilizer) :
  typed_ok self s ->
  exists m, measurement_of s = Ok m
            /\ Stabilizer.m_qubits m = keys s
            /\ (Stabilizer.m_type m = PX \/ Stabilizer.m_type m = PZ)
            /\ Stabilizer.commutes_with s m = true.
Proof.
  intros [(W & N & K) T]. unfold measurement_of, values.
  destruct s as [|[q o] s]; [discriminate|]. cbn [map snd].
  eexists. split; [reflexivity|]. cbn [Stabilizer.m_type Stabilizer.m_qubits].
  split; [reflexivity|].
  destruct T as [U|U].
  - assert (o = PX) by (inversion U; assumption). subst o.
    split; [left; reflexivity|]. apply (commutes_same_type PX); [exact U|reflexivity].
  - assert (o = PZ) by (inversion U; assumption). subst o.
    split; [right; reflexivity|]. apply (commutes_same_type PZ); [exact U|reflexivity].
Qed.

Lemma adjust_one_keeps (it : IterOrder) (self : BaconShorCode) (gens : pyset)
      (meas_stab : stabilizer) (m : Stabilizer.measurement) (gens' : pyset) :
  Stabilizer.m_type m = PX \/ Stabilizer.m_type m = PZ ->
  gens_typed self gens -> all_commute m gens ->
  Interactive.adjust_one it self gens meas_stab = Ok gens' ->
  gens_typed self gens' /\ all_commute m gens'.
Proof.
  intros Hty Hg Hc H.
  assert (HP : Forall (fun g => typed_ok self g
                                /\ Stabilizer.commutes_with g m = true) gens').
  { apply (adjust_one_preserves _) with (it := it) (self := self) (gens := gens)
                                        (meas_stab := meas_stab); [| |exact H].
    - intros s1 s2 ty [T1 C1] [T2 C2] F1 F2 Hn.
      split; [apply (typed_ok_combine self s1 s2 ty); assumption|].
      rewrite commutes_multiply_parity, C1, C2; try reflexivity; try assumption.
      + apply T1.
      + apply T2.
      + apply single_type_xz, T1.
      + apply single_type_xz, T2.
    - unfold gens_typed, all_commute in *. rewrite Forall_forall in *.
      intros g Hin. split; auto. }
  unfold gens_typed, all_commute. rewrite Forall_forall in HP.
  split; apply Forall_forall; intros g Hin; apply (HP g Hin).
Qed.

Lemma adjust_keeps (it : IterOrder) (self : BaconShorCode) (m : Stabilizer.measurement)
      (ms : list stabilizer) :
  Stabilizer.m_type m = PX \/ Stabilizer.m_type m = PZ ->
  forall gens gens',
    gens_typed self gens -> all_commute m gens ->
    Interactive.adjust it self gens ms = Ok gens' ->
    gens_typed self gens' /\ all_commute m gens'.
Proof.
  intros Hty. unfold Interactive.adjust.
  induction ms as [|x ms IH]; intros gens gens' Hg Hc; cbn [foldM].
  - intros [= <-]. split; assumption.
  - destruct (Interactive.adjust_one it self gens x) as [g1| |] eqn:E; cbn [bind];
      try discriminate.
    destruct (adjust_one_keeps it self gens x m g1 Hty Hg Hc E) as [Hg1 Hc1].
    apply IH; assumption.
Qed.

Lemma gens_typed_all_wf (self : BaconShorCode) (s : pyset) :
  gens_typed self s -> all_wf s.
Proof.
  intros H. apply (gens_ok_all_wf self), gens_typed_ok, H.
Qed.

Lemma adjust_sound (it : IterOrder) (self : BaconShorCode) (ms : list stabilizer) :
  gens_typed self ms ->
  forall gens gens',
    gens_typed self gens ->
    Interactive.adjust it self gens ms = Ok gens' ->
    gens_typed self gens'
    /\ forall meas_stab, In meas_stab ms ->
         exists m, measurement_of meas_stab = Ok m /\ all_commute m gens'.
Proof.
  unfold Interactive.adjust.
  induction 1 as [|x ms Hx Hms IH]; intros gens gens' Hg; cbn [foldM].
  - intros [= <-]. split; [exact Hg|intros ? []].
  - destruct (Interactive.adjust_one it self gens x) as [g1| |] eqn:E; cbn [bind];
      try discriminate.
    intros Hrest.
    destruct (measurement_of_typed self x Hx) as (m & Hm & _ & Hty & Hself).
    assert (Hg1 : gens_typed self g1).
    { apply (adjust_one_preserves (typed_ok self)) in E; [exact E| |exact Hg].
      apply typed_ok_combine. }
    assert (Hc1 : all_commute m g1).
    { apply (adjust_one_sound it self gens x m g1); try assumption.
      - apply (gens_typed_all_wf self). exact Hg.
      - apply Hx. }
    destruct (adjust_keeps it self m ms Hty g1 gens' Hg1 Hc1 Hrest) as [Hg' Hc'].
    split; [exact Hg'|].
    intros y [<-|Hy].
    + exists m. split; assumption.
    + destruct (IH g1 gens' Hg1 Hrest) as [_ H]. apply H, Hy.
Qed.

Lemma simplify_keeps (it : IterOrder) (self : BaconShorCode)
      (m : Stabilizer.measurement) (gens : pyset) :
  Stabilizer.m_type m = PX \/ Stabilizer.m_type m = PZ ->
  gens_typed self gens -> all_commute m gens ->
  all_commute m (Interactive.simplify it gens).
Proof.
  intros Hty Hg Hc.
  assert (HQ : Forall (fun g => (wf_dict g
                                 /\ Forall (fun q => in_grid self q = true) (keys g)
                                 /\ single_type g)
                                /\ Stabilizer.commutes_with g m = true)
                      (Interactive.simplify it gens)).
  { apply simplify_preserves.
    - intros s r [Ts Cs] [Tr Cr] Hsub.
      split; [apply typed_reduce; assumption|].
      rewrite commutes_multiply_parity, Cs, Cr; try reflexivity; try assumption.
      + apply Ts.
      + apply Tr.
      + apply single_type_xz, Ts.
      + apply single_type_xz, Tr.
    - unfold gens_typed, all_commute in *. rewrite Forall_forall in *.
      intros g Hin. destruct (Hg g Hin) as ((W & _ & K) & T). auto. }
  unfold all_commute. rewrite Forall_forall in *. intros g Hin. apply (HQ g Hin).
Qed.

(** X13: after every time step but the first, each generator commutes with
    each measurement of the step. *)
Theorem generators_commute_with_batch (it : IterOrder) (self : BaconShorCode)
        (batch : list (Z * Z)) :
  gens_typed self (stabilizer_generators self) ->
  time_step self <> 0 ->
  exists self',
    snd (Interactive.run_time_step it self batch) = Ok self'
    /\ gens_typed self (stabilizer_generators self')
    /\ forall qubit_pair,
        In qubit_pair batch ->
        fst (is_valid_measurement self qubit_pair) = true ->
        exists meas_stab m,
          meas_stab_of self qubit_pair = Ok meas_stab
          /\ measurement_of meas_stab = Ok m
          /\ all_commute m (stabilizer_generators self').
Proof.
  intros Hg Ht.
  destruct (run_time_step_typed it self batch Hg) as (self' & Hs & _ & _ & _ & Hg').
  exists self'. split; [exact Hs|]. split; [exact Hg'|].
  intros p Hp Hv.
  assert (Hadj : is_adjacent self (fst p) (snd p) = true).
  { destruct p as [a b]. cbn [fst snd]. rewrite is_valid_measurement_spec in Hv.
    destruct (in_grid self a && in_grid self b); [|discriminate].
    destruct (is_adjacent self a b); [reflexivity|discriminate]. }
  assert (Hacc : In p (accepted self batch)).
  { unfold accepted. apply filter_In. split; assumption. }
  exists (measurement_term self p).
  unfold Interactive.run_time_step in Hs. rewrite validate_spec in Hs. cbn [snd] in Hs.
  change (accepted (tick self) batch) with (accepted self batch) in Hs.
  unfold Interactive.update_stabilizers in Hs.
  change (meas_stab_of (tick self)) with (meas_stab_of self) in Hs.
  rewrite (mapM_meas_stab_of self _ (accepted_adjacent self batch)) in Hs.
  cbn [bind] in Hs.
  assert (E1 : (time_step (tick self) =? 1)%nat = false).
  { apply Nat.eqb_neq. cbn [tick time_step]. lia. }
  rewrite E1 in Hs. unfold Interactive.adjust_stabilizers in Hs.
  cbn [with_generators stabilizer_generators tick] in Hs.
  set (terms := map (measurement_term self) (accepted self batch)) in *.
  assert (Hterms : gens_typed self terms).
  { unfold terms. apply Forall_forall. intros g Hin. apply in_map_iff in Hin.
    destruct Hin as (p' & <- & Hp'). apply measurement_term_typed.
    pose proof (accepted_adjacent self batch) as Ha. rewrite Forall_forall in Ha.
    exact (Ha p' Hp'). }
  assert (Hg0 : gens_typed self
                  (set_union it (stabilizer_generators self)
                             (fold_left set_add terms []))).
  { unfold set_union. apply Forall_fold_add; [|exact Hg].
    eapply Permutation_Forall; [symmetry; apply iter_perm|].
    apply Forall_fold_add; [exact Hterms|constructor]. }
  match type of Hs with
  | context [Interactive.adjust it ?s ?g terms] =>
      destruct (Interactive.adjust it s g terms) as [g1| |] eqn:Ea;
        cbn [bind] in Hs; try discriminate;
        destruct (adjust_sound it s terms Hterms g g1 Hg0 Ea) as [Hg1 Hall]
  end.
  destruct (Hall (measurement_term self p)) as (m & Hm & Hc).
  { unfold terms. apply in_map. exact Hacc. }
  exists m. split; [apply meas_stab_of_adjacent; exact Hadj|]. split; [exact Hm|].
  injection Hs as <-.
  cbn [Interactive.simplify_stabilizers with_generators stabilizer_generators].
  apply (simplify_keeps it self); [|exact Hg1|exact Hc].
  destruct (measurement_of_typed self (measurement_term self p)) as (m' & Hm' & _ & Hty & _).
  { apply measurement_term_typed. exact Hadj. }
  congruence.
Qed.

Ltac solve_gens_typed :=
  repeat (constructor;
          [split;
           [repeat split; [solve_wf | repeat (constructor; [reflexivity|]); constructor]
           |first [solve [left; repeat constructor] | solve [right; repeat constructor]]]|]);
  constructor.

Lemma generators_commute_with_batch_witness :
  exists self',
    snd (Interactive.run_time_step insertion_order
           {| rows := 4; cols := 4;
              stabilizer_generators := [[(1, PZ); (2, PZ)]; [(6, PZ); (7, PZ)]]%Z;
              time_step := 1;
              current_measurements := [(1, 2); (6, 7)]%Z;
              measurements_history := [[(1, 2); (6, 7)]%Z] |}
           [(1, 6); (2, 7)]%Z) = Ok self'
    /\ gens_typed (init 4 4) (stabilizer_generators self')
    /\ forall qubit_pair,
        In qubit_pair [(1, 6); (2, 7)]%Z ->
        fst (is_valid_measurement (init 4 4) qubit_pair) = true ->
        exists meas_stab m,
          meas_stab_of (init 4 4) qubit_pair = Ok meas_stab
          /\ measurement_of meas_stab = Ok m
          /\ all_commute m (stabilizer_generators self').
Proof.
  apply (generators_commute_with_batch insertion_order
           {| rows := 4; cols := 4;
              stabilizer_generators := [[(1, PZ); (2, PZ)]; [(6, PZ); (7, PZ)]]%Z;
              time_step := 1;
              current_measurements := [(1, 2); (6, 7)]%Z;
              measurements_history := [[(1, 2); (6, 7)]%Z] |}
           [(1, 6); (2, 7)]%Z).
  - solve_gens_typed.
  - cbn. lia.
Defined.

(** The first step is different: it stores the terms as they come, so two
    terms that do not commute both stay. *)
Lemma first_step_keeps_conflict :
  Interactive.generators_after insertion_order (init 4 4) [[(1, 2); (1, 6)]]%Z
  = Ok [[(1, PZ); (2, PZ)]; [(1, PX); (6, PX)]]%Z
  /\ Stabilizer.commutes_with [(1, PZ); (2, PZ)]%Z
       {| Stabilizer.m_qubits := [1; 6]%Z; Stabilizer.m_type := PX |} = false.
Proof. split; reflexivity. Qed.

(** ** The prototype's resolver *)

Lemma pop2_none (l : list stabilizer) :
  Initial.pop2 l = None -> l = [] \/ exists x, l = [x].
Proof.
  unfold Initial.pop2. intros H.
  destruct (rev l) as [|x [|y r]] eqn:E; try discriminate.
  - left. apply (f_equal (@rev stabilizer)) in E. rewrite rev_involutive in E. exact E.
  - right. exists x. apply (f_equal (@rev stabilizer)) in E.
    rewrite rev_involutive in E. exact E.
Qed.

Lemma prototype_resolve_ok (it : IterOrder) (meas_stab : stabilizer)
      (m : Stabilizer.measurement) (P : stabilizer -> Prop) :
  measurement_of meas_stab = Ok m ->
  (forall a b, P a -> P b -> P (Stabilizer.multiply a b)) ->
  forall fuel gens acs,
    all_wf gens -> distinct gens -> Forall P gens ->
    anti_commuting it gens meas_stab = Ok acs ->
    length gens < fuel ->
    exists gens' acs',
      Initial.resolve fuel it meas_stab gens acs = Ok (gens', acs')
      /\ all_wf gens' /\ distinct gens' /\ Forall P gens'
      /\ anti_commuting it gens' meas_stab = Ok acs'
      /\ Initial.pop2 acs' = None.
Proof.
  intros Hm HP.
  induction fuel as [|fuel IH]; intros gens acs Hwf Hd Hp Ha Hlen; [lia|].
  cbn [Initial.resolve].
  destruct (Initial.pop2 acs) as [[[stab1 stab2] r]|] eqn:Ep.
  2:{ exists gens, acs. repeat split; assumption. }
  apply pop2_spec in Ep.
  assert (Hacs : incl acs gens /\ distinct acs).
  { split; [exact (anti_commuting_incl _ _ _ _ Ha)|].
    destruct (anti_commuting_filter _ _ _ _ Ha) as [p ->].
    apply ForallOrdPairs_filter. apply (distinct_perm gens); [|assumption].
    symmetry. apply iter_perm. }
  destruct Hacs as [Hincl Hdacs]. subst acs.
  assert (H1 : In stab1 gens) by (apply Hincl, in_or_app; right; right; left; reflexivity).
  assert (H2 : In stab2 gens) by (apply Hincl, in_or_app; right; left; reflexivity).
  apply ForallOrdPairs_app_last2 in Hdacs. destruct Hdacs as [_ H12].
  assert (Hw1 : wf_dict stab1) by (unfold all_wf in Hwf; rewrite Forall_forall in Hwf; auto).
  assert (Hw2 : wf_dict stab2) by (unfold all_wf in Hwf; rewrite Forall_forall in Hwf; auto).
  assert (Hp12 : P (Stabilizer.multiply stab1 stab2)).
  { rewrite Forall_forall in Hp. apply HP; auto. }
  set (g1 := set_discard (set_discard gens stab1) stab2).
  assert (Hg1len : S (length g1) < length gens).
  { assert (L1 : length (set_discard gens stab1) < length gens).
    { apply (filter_length_lt _ gens stab1 H1).
      rewrite stabilizer_eq_refl by exact Hw1. reflexivity. }
    assert (L2 : length g1 < length (set_discard gens stab1)).
    { apply (filter_length_lt _ _ stab2).
      - apply filter_In. split; [assumption|]. rewrite H12. reflexivity.
      - rewrite stabilizer_eq_refl by exact Hw2. reflexivity. }
    lia. }
  assert (Hg1wf : all_wf g1) by (unfold g1; do 2 apply set_discard_all_wf; exact Hwf).
  assert (Hg1d : distinct g1) by (unfold g1; do 2 apply ForallOrdPairs_filter; exact Hd).
  assert (Hg1p : Forall P g1) by (unfold g1; do 2 apply Forall_set_discard; exact Hp).
  set (g2 := if negb (Stabilizer.is_trivial (Stabilizer.multiply stab1 stab2))
             then set_add g1 (Stabilizer.multiply stab1 stab2) else g1).
  assert (Hg2 : all_wf g2 /\ distinct g2 /\ Forall P g2 /\ length g2 < fuel).
  { unfold g2. destruct (negb _).
    - pose proof (set_add_length g1 (Stabilizer.multiply stab1 stab2)).
      split; [apply set_add_all_wf; [exact Hg1wf|apply wf_multiply, Hw1]|].
      split; [apply set_add_distinct; [exact Hg1wf|apply wf_multiply, Hw1|exact Hg1d]|].
      split; [apply Forall_set_add; assumption|lia].
    - repeat split; try assumption. lia. }
  destruct Hg2 as (Hg2wf & Hg2d & Hg2p & Hg2len).
  rewrite (anti_commuting_spec it g2 meas_stab m Hm). cbn [bind].
  apply IH; try assumption.
  apply anti_commuting_spec. exact Hm.
Qed.

Lemma prototype_adjust_one_ok (it : IterOrder) (gens : pyset)
      (meas_stab : stabilizer) (m : Stabilizer.measurement) (P : stabilizer -> Prop) :
  (forall a b, P a -> P b -> P (Stabilizer.multiply a b)) ->
  all_wf gens -> distinct gens -> Forall P gens ->
  wf_dict meas_stab -> measurement_of meas_stab = Ok m ->
  Stabilizer.commutes_with meas_stab m = true ->
  exists gens',
    Initial.adjust_one it gens meas_stab = Ok gens'
    /\ all_wf gens' /\ distinct gens' /\ Forall P gens'
    /\ all_commute m gens'.
Proof.
  intros HP Hwf Hd Hp Wm Hm Hself. unfold Initial.adjust_one.
  rewrite (anti_commuting_spec it gens meas_stab m Hm). cbn [bind].
  destruct (prototype_resolve_ok it meas_stab m P Hm HP (S (length gens)) gens _
              Hwf Hd Hp (anti_commuting_spec it gens meas_stab m Hm) ltac:(lia))
    as (g1 & a1 & Hr & Hw1 & Hd1 & Hp1 & Ha1 & Hpop).
  match goal with
  | |- context [Initial.resolve ?f it meas_stab gens ?a] =>
      change (Initial.resolve f it meas_stab gens a)
        with (Initial.resolve (S (length gens)) it meas_stab gens
                (filter (fun stab => negb (Stabilizer.commutes_with stab m)
                                     && negb (Stabilizer.eq stab meas_stab))
                        (iter it gens)))
  end.
  rewrite Hr. cbn [bind fst snd].
  rewrite (anti_commuting_spec it g1 meas_stab m Hm) in Ha1. injection Ha1 as Ha1.
  assert (Hcov : forall g, In g g1 -> Stabilizer.commutes_with g m = false -> In g a1).
  { intros g Hg Hc. rewrite <- Ha1. apply filter_In. split.
    - apply (Permutation_in _ (Permutation_sym (iter_perm it g1))). exact Hg.
    - rewrite Hc. cbn [negb andb]. apply negb_true_iff.
      unfold all_wf in Hw1. rewrite Forall_forall in Hw1.
      destruct (Stabilizer.eq g meas_stab) eqn:E; [|reflexivity].
      rewrite (commutes_with_eq g meas_stab m (Hw1 g Hg) Wm E) in Hc. congruence. }
  destruct (pop2_none a1 Hpop) as [->|[x ->]].
  - exists g1. split; [reflexivity|]. repeat split; try assumption.
    apply Forall_forall. intros g Hg.
    destruct (Stabilizer.commutes_with g m) eqn:Ec; [reflexivity|].
    destruct (Hcov g Hg Ec).
  - exists (set_discard g1 x). split; [reflexivity|].
    split; [apply set_discard_all_wf; exact Hw1|].
    split; [apply ForallOrdPairs_filter; exact Hd1|].
    split; [apply Forall_set_discard; exact Hp1|].
    apply Forall_forall. intros g Hg. apply set_discard_in in Hg. destruct Hg as [Hg Hne].
    destruct (Stabilizer.commutes_with g m) eqn:Ec; [reflexivity|].
    destruct (Hcov g Hg Ec) as [->|[]].
    unfold all_wf in Hw1. rewrite Forall_forall in Hw1.
    rewrite (stabilizer_eq_refl g (Hw1 g Hg)) in Hne. discriminate.
Qed.

(** X14: the prototype's resolver, for one measurement: it returns, and
    what it leaves commutes with the measurement. *)
Theorem prototype_adjust_one_sound (it : IterOrder) (gens : pyset)
        (meas_stab : stabilizer) (m : Stabilizer.measurement) :
  all_wf gens -> distinct gens ->
  wf_dict meas_stab -> measurement_of meas_stab = Ok m ->
  Stabilizer.commutes_with meas_stab m = true ->
  exists gens',
    Initial.adjust_one it gens meas_stab = Ok gens'
    /\ all_wf gens' /\ distinct gens'
    /\ Forall (generated_by gens) gens'
    /\ all_commute m gens'.
Proof.
  intros Hwf Hd Wm Hm Hself.
  apply (prototype_adjust_one_ok it gens meas_stab m (generated_by gens));
    try assumption.
  - intros a b. apply generated_product.
  - apply Forall_forall. intros g Hg. apply generated_member, Hg.
Qed.

Lemma prototype_adjust_one_sound_witness :
  exists gens',
    Initial.adjust_one insertion_order
      [[(1, PX); (6, PX)]; [(7, PX); (12, PX)]]%Z [(6, PZ); (7, PZ)]%Z = Ok gens'
    /\ all_wf gens' /\ distinct gens'
    /\ Forall (generated_by [[(1, PX); (6, PX)]; [(7, PX); (12, PX)]]%Z) gens'
    /\ all_commute {| Stabilizer.m_qubits := [6; 7]%Z; Stabilizer.m_type := PZ |} gens'.
Proof.
  apply (prototype_adjust_one_sound insertion_order
           [[(1, PX); (6, PX)]; [(7, PX); (12, PX)]]%Z [(6, PZ); (7, PZ)]%Z
           {| Stabilizer.m_qubits := [6; 7]%Z; Stabilizer.m_type := PZ |}).
  - repeat (constructor; [solve_wf|]); constructor.
  - apply distinctb_spec. reflexivity.
  - solve_wf.
  - reflexivity.
  - reflexivity.
Defined.

Lemma fold_set_add_distinct (l : list stabilizer) :
  all_wf l -> forall s, all_wf s -> distinct s -> distinct (fold_left set_add l s).
Proof.
  induction 1 as [|x l Hx Hl IH]; intros s Hs Hd; cbn [fold_left]; [exact Hd|].
  apply IH; [apply set_add_all_wf; assumption|apply set_add_distinct; assumption].
Qed.

Lemma fold_set_add_all_wf (l : list stabilizer) :
  all_wf l -> forall s, all_wf s -> all_wf (fold_left set_add l s).
Proof.
  intros Hl s Hs. apply Forall_fold_add; assumption.
Qed.

Lemma prototype_adjust_ok (it : IterOrder) (self : BaconShorCode)
      (P : stabilizer -> Prop) (ms : list stabilizer) :
  (forall a b, P a -> P b -> P (Stabilizer.multiply a b)) ->
  gens_typed self ms ->
  forall gens,
    all_wf gens -> distinct gens -> Forall P gens ->
    exists gens',
      Initial.adjust it gens ms = Ok gens'
      /\ all_wf gens' /\ distinct gens' /\ Forall P gens'.
Proof.
  intros HP. unfold Initial.adjust.
  induction 1 as [|x ms Hx Hms IH]; intros gens Hwf Hd Hp; cbn [foldM].
  - exists gens. auto.
  - destruct (measurement_of_typed self x Hx) as (m & Hm & _ & _ & Hself).
    destruct (prototype_adjust_one_ok it gens x m P HP Hwf Hd Hp) as
      (g1 & -> & Hw1 & Hd1 & Hp1 & _); try assumption.
    { apply Hx. }
    cbn [bind]. apply IH; assumption.
Qed.

(** X15: every time step of the prototype completes. *)
Theorem prototype_step_completes (it : IterOrder) (self : BaconShorCode)
        (batch : list (Z * Z)) :
  all_wf (stabilizer_generators self) -> distinct (stabilizer_generators self) ->
  exists self',
    Initial.run_time_step it self batch = (rejected self batch, Ok self')
    /\ all_wf (stabilizer_generators self')
    /\ distinct (stabilizer_generators self')
    /\ Forall (generated_by (stabilizer_generators self
                             ++ map (measurement_term self) (accepted self batch)))
              (stabilizer_generators self')
    /\ time_step self' = S (time_step self)
    /\ current_measurements self' = accepted self batch.
Proof.
  intros Hwf Hd. unfold Initial.run_time_step.
  rewrite validate_spec.
  change (accepted (tick self) batch) with (accepted self batch).
  change (rejected (tick self) batch) with (rejected self batch).
  unfold Initial.update_stabilizers.
  change (meas_stab_of (tick self)) with (meas_stab_of self).
  rewrite (mapM_meas_stab_of self _ (accepted_adjacent self batch)). cbn [bind].
  set (terms := map (measurement_term self) (accepted self batch)).
  set (G := generated_by (stabilizer_generators self ++ terms)).
  assert (Hterms : gens_typed self terms).
  { unfold terms. apply Forall_forall. intros g Hin. apply in_map_iff in Hin.
    destruct Hin as (p' & <- & Hp'). apply measurement_term_typed.
    pose proof (accepted_adjacent self batch) as Ha. rewrite Forall_forall in Ha.
    exact (Ha p' Hp'). }
  assert (Wterms : all_wf terms) by (apply (gens_typed_all_wf self); exact Hterms).
  assert (Gterms : Forall G terms).
  { apply Forall_forall. intros g Hg. apply generated_member, in_or_app. right. exact Hg. }
  assert (Gold : Forall G (stabilizer_generators self)).
  { apply Forall_forall. intros g Hg. apply generated_member, in_or_app. left. exact Hg. }
  assert (Wnew : all_wf (fold_left set_add terms []))
    by (apply fold_set_add_all_wf; [exact Wterms|constructor]).
  assert (Dnew : distinct (fold_left set_add terms []))
    by (apply fold_set_add_distinct; [exact Wterms|constructor|constructor]).
  assert (Gnew : Forall G (fold_left set_add terms []))
    by (apply Forall_fold_add; [exact Gterms|constructor]).
  destruct (time_step (tick self) =? 1)%nat.
  - cbn [bind]. eexists. split; [reflexivity|].
    cbn [with_generators stabilizer_generators time_step current_measurements tick].
    auto.
  - unfold Initial.adjust_stabilizers. cbn [with_generators stabilizer_generators tick].
    destruct (prototype_adjust_ok it self G terms) with
      (gens := set_union it (stabilizer_generators self) (fold_left set_add terms []))
      as (g1 & -> & Hw1 & Hd1 & Hg1).
    + intros a b. apply generated_product.
    + exact Hterms.
    + unfold set_union. apply fold_set_add_all_wf; [|exact Hwf].
      eapply Permutation_Forall; [symmetry; apply iter_perm|exact Wnew].
    + unfold set_union. apply fold_set_add_distinct; [|exact Hwf|exact Hd].
      eapply Permutation_Forall; [symmetry; apply iter_perm|exact Wnew].
    + unfold set_union. apply Forall_fold_add; [|exact Gold].
      eapply Permutation_Forall; [symmetry; apply iter_perm|exact Gnew].
    + cbn [bind]. eexists. split; [reflexivity|].
      cbn [with_generators stabilizer_generators time_step current_measurements tick].
      auto.
Qed.

Lemma prototype_step_completes_witness :
  exists self',
    Initial.run_time_step insertion_order
      {| rows := 4; cols := 4;
         stabilizer_generators := [[(1, PX); (6, PX)]; [(7, PX); (12, PX)]]%Z;
         time_step := 1;
         current_measurements := [(1, 6); (7, 12)]%Z;
         measurements_history := [] |}
      [(6, 7); (5, 6)]%Z
    = (rejected (init 4 4) [(6, 7); (5, 6)]%Z, Ok self')
    /\ all_wf (stabilizer_generators self')
    /\ distinct (stabilizer_generators self')
    /\ Forall (generated_by
                 ([[(1, PX); (6, PX)]; [(7, PX); (12, PX)]]%Z
                  ++ map (measurement_term (init 4 4))
                       (accepted (init 4 4) [(6, 7); (5, 6)]%Z)))
              (stabilizer_generators self')
    /\ time_step self' = 2
    /\ current_measurements self' = accepted (init 4 4) [(6, 7); (5, 6)]%Z.
Proof.
  apply (prototype_step_completes insertion_order
           {| rows := 4; cols := 4;
              stabilizer_generators := [[(1, PX); (6, PX)]; [(7, PX); (12, PX)]]%Z;
              time_step := 1;
              current_measurements := [(1, 6); (7, 12)]%Z;
              measurements_history := [] |}
           [(6, 7); (5, 6)]%Z).
  - repeat (constructor; [solve_wf|]); constructor.
  - apply distinctb_spec. reflexivity.
Defined.

(** ** The size of the simplified set *)

Lemma items_subset_refl (s : stabilizer) : wf_dict s -> Stabilizer.items_subset s s = true.
Proof.
  intros W. apply items_subset_spec. intros k v H. apply dict_in_get; assumption.
Qed.

Lemma items_subset_trans (a b c : stabilizer) :
  Stabilizer.items_subset a b = true -> Stabilizer.items_subset b c = true ->
  Stabilizer.items_subset a c = true.
Proof.
  rewrite !items_subset_spec. intros H1 H2 k v H.
  apply H2, dict_get_some_in, H1, H.
Qed.

Lemma multiply_subset_of (stab r : stabilizer) :
  wf_dict stab -> wf_dict r -> Stabilizer.items_subset r stab = true ->
  Stabilizer.items_subset (Stabilizer.multiply stab r) stab = true.
Proof.
  intros Ws Wr Hsub. apply items_subset_spec. intros k v Hin.
  apply dict_in_get in Hin; [|apply wf_multiply; exact Ws].
  rewrite dict_get_multiply in Hin by assumption.
  destruct (dict_get r k) as [w|] eqn:Er.
  - apply dict_get_some_in in Er.
    rewrite (proj1 (items_subset_spec r stab) Hsub k w Er) in Hin.
    cbn [op_mul] in Hin. rewrite op_eqb_refl in Hin. discriminate.
  - rewrite op_mul_none_r in Hin. exact Hin.
Qed.

Lemma simplify_entry_length (it : IterOrder) (simplified : pyset) (stab : stabilizer) :
  length (Interactive.simplify_entry it simplified stab) <= S (length simplified).
Proof.
  unfold Interactive.simplify_entry. destruct (negb _); [apply set_add_length|lia].
Qed.

Lemma simplify_length (it : IterOrder) (gens : pyset) :
  length (Interactive.simplify it gens) <= length gens.
Proof.
  unfold Interactive.simplify.
  rewrite <- (Permutation_length (iter_perm it gens)).
  rewrite <- (Permutation_length (sorted_by_weight_perm (iter it gens))).
  assert (H : forall l acc,
             length (fold_left (Interactive.simplify_entry it) l acc)
             <= length acc + length l).
  { induction l as [|x l IH]; intros acc; cbn [fold_left length]; [lia|].
    specialize (IH (Interactive.simplify_entry it acc x)).
    pose proof (simplify_entry_length it acc x). lia. }
  apply (H _ []).
Qed.

(** X16: the simplification pass never adds a generator, and each
    generator it returns is some input generator with entries removed. *)
Theorem simplify_shrinks (it : IterOrder) (gens : pyset) :
  all_wf gens ->
  length (Interactive.simplify it gens) <= length gens
  /\ Forall (fun r => Stabilizer.is_trivial r = false
                      /\ exists g, In g gens /\ Stabilizer.items_subset r g = true)
            (Interactive.simplify it gens).
Proof.
  intros Hwf. split; [apply simplify_length|].
  assert (HQ : Forall (fun r => wf_dict r
                                /\ exists g, In g gens
                                             /\ Stabilizer.items_subset r g = true)
                      (Interactive.simplify it gens)).
  { apply simplify_preserves.
    - intros stab r (Ws & g & Hg & Hsub) (Wr & _) Hr.
      split; [apply wf_multiply; exact Ws|].
      exists g. split; [exact Hg|].
      apply (items_subset_trans _ stab); [|exact Hsub].
      apply multiply_subset_of; assumption.
    - unfold all_wf in Hwf. rewrite Forall_forall in *.
      intros g Hg. split; [apply Hwf, Hg|].
      exists g. split; [exact Hg|apply items_subset_refl, Hwf, Hg]. }
  pose proof (simplify_nontrivial it gens) as Hn. unfold all_nontrivial in Hn.
  rewrite Forall_forall in *. intros r Hr.
  split; [apply Hn, Hr|apply (HQ r Hr)].
Qed.

Lemma simplify_shrinks_witness :
  length (Interactive.simplify insertion_order
            [[(1, PZ); (2, PZ); (6, PZ); (7, PZ)]; [(1, PZ); (2, PZ)]; [(6, PZ); (7, PZ)]]%Z)
  <= length [[(1, PZ); (2, PZ); (6, PZ); (7, PZ)]; [(1, PZ); (2, PZ)]; [(6, PZ); (7, PZ)]]%Z
  /\ Forall (fun r => Stabilizer.is_trivial r = false
                      /\ exists g,
                          In g [[(1, PZ); (2, PZ); (6, PZ); (7, PZ)];
                                [(1, PZ); (2, PZ)]; [(6, PZ); (7, PZ)]]%Z
                          /\ Stabilizer.items_subset r g = true)
            (Interactive.simplify insertion_order
               [[(1, PZ); (2, PZ); (6, PZ); (7, PZ)]; [(1, PZ); (2, PZ)];
                [(6, PZ); (7, PZ)]]%Z).
Proof.
  apply (simplify_shrinks insertion_order
           [[(1, PZ); (2, PZ); (6, PZ); (7, PZ)]; [(1, PZ); (2, PZ)]; [(6, PZ); (7, PZ)]]%Z).
  repeat (constructor; [solve_wf|]); constructor.
Defined.

(** ** Invariants of the generator set *)

Section StepInvariant.

Variable self : BaconShorCode.
Variables P Q : stabilizer -> Prop.

Hypothesis P_combine :
  forall stab1 stab2 ty,
    P stab1 -> P stab2 ->
    first_value stab1 = Ok ty -> first_value stab2 = Ok ty ->
    Stabilizer.is_trivial (Stabilizer.multiply stab1 stab2) = false ->
    P (Stabilizer.multiply stab1 stab2).

Hypothesis Q_reduce :
  forall stab simple_stab,
    Q stab -> Q simple_stab ->
    Stabilizer.items_subset simple_stab stab = true ->
    Q (Stabilizer.multiply stab simple_stab).

Hypothesis P_Q : forall g, P g -> Q g.
Hypothesis Q_P : forall g, Q g -> Stabilizer.is_trivial g = false -> P g.

Hypothesis P_term :
  forall p, is_adjacent self (fst p) (snd p) = true -> P (measurement_term self p).

Lemma update_stabilizers_invariant (it : IterOrder) (s0 self' : BaconShorCode)
      (valid : list (Z * Z)) :
  rows s0 = rows self -> cols s0 = cols self ->
  Forall (fun p => is_adjacent self (fst p) (snd p) = true) valid ->
  Forall P (stabilizer_generators s0) ->
  Interactive.update_stabilizers it s0 valid = Ok self' ->
  Forall P (stabilizer_generators self').
Proof.
  intros Hr Hc Hv Hg. unfold Interactive.update_stabilizers.
  assert (Hv0 : Forall (fun p => is_adjacent s0 (fst p) (snd p) = true) valid).
  { rewrite Forall_forall in *. intros p Hp. rewrite <- (Hv p Hp).
    unfold is_adjacent, in_grid, num_qubits, coordinate_of. rewrite Hr, Hc. reflexivity. }
  rewrite (mapM_meas_stab_of s0 valid Hv0). cbn [bind].
  assert (Et : map (measurement_term s0) valid = map (measurement_term self) valid).
  { apply map_ext. intros p. unfold measurement_term, coordinate_of. rewrite Hc. reflexivity. }
  rewrite Et.
  set (terms := map (measurement_term self) valid).
  assert (Hterms : Forall P terms).
  { unfold terms. apply Forall_forall. intros g Hin. apply in_map_iff in Hin.
    destruct Hin as (p & <- & Hp). apply P_term.
    rewrite Forall_forall in Hv. exact (Hv p Hp). }
  assert (Hnew : Forall P (fold_left set_add terms []))
    by (apply Forall_fold_add; [exact Hterms|constructor]).
  destruct (time_step s0 =? 1)%nat.
  - intros [= <-]. exact Hnew.
  - unfold Interactive.adjust_stabilizers. cbn [with_generators stabilizer_generators].
    destruct (Interactive.adjust it _ _ terms) as [g1| |] eqn:Ea; cbn [bind];
      try discriminate.
    intros [= <-].
    cbn [Interactive.simplify_stabilizers with_generators stabilizer_generators].
    apply (adjust_preserves P P_combine) in Ea.
    + assert (Hq : Forall Q (Interactive.simplify it g1)).
      { apply (simplify_preserves Q Q_reduce).
        rewrite Forall_forall in *. intros g Hin. apply P_Q, Ea, Hin. }
      pose proof (simplify_nontrivial it g1) as Hn. unfold all_nontrivial in Hn.
      rewrite Forall_forall in *. intros g Hin. apply Q_P; [apply Hq|apply Hn]; exact Hin.
    + unfold set_union. apply Forall_fold_add; [|exact Hg].
      eapply Permutation_Forall; [symmetry; apply iter_perm|exact Hnew].
Qed.

Lemma run_time_step_invariant (it : IterOrder) (s0 self' : BaconShorCode)
      (batch : list (Z * Z)) :
  rows s0 = rows self -> cols s0 = cols self ->
  Forall P (stabilizer_generators s0) ->
  snd (Interactive.run_time_step it s0 batch) = Ok self' ->
  Forall P (stabilizer_generators self').
Proof.
  intros Hr Hc Hg Hs.
  unfold Interactive.run_time_step in Hs. rewrite validate_spec in Hs. cbn [snd] in Hs.
  change (accepted (tick s0) batch) with (accepted s0 batch) in Hs.
  destruct (Interactive.update_stabilizers it (tick s0) (accepted s0 batch))
    as [s1| |] eqn:Eu; cbn [bind] in Hs; try discriminate.
  injection Hs as <-. cbn [stabilizer_generators].
  apply (update_stabilizers_invariant it (tick s0) s1 (accepted s0 batch));
    try assumption.
  rewrite (accepted_same_grid self s0 batch Hr Hc).
  apply (accepted_adjacent self batch).
Qed.

Lemma run_invariant (it : IterOrder) (schedule : list (list (Z * Z))) :
  forall s0 self',
    rows s0 = rows self -> cols s0 = cols self ->
    Forall P (stabilizer_generators s0) ->
    Interactive.run it s0 schedule = Ok self' ->
    Forall P (stabilizer_generators self').
Proof.
  unfold Interactive.run.
  induction schedule as [|batch schedule IH]; intros s0 self' Hr Hc Hg; cbn [foldM].
  - intros [= <-]. exact Hg.
  - destruct (snd (Interactive.run_time_step it s0 batch)) as [s1| |] eqn:Es;
      cbn [bind]; try discriminate.
    destruct (run_time_step_fields it s0 s1 batch Es) as (Hr1 & Hc1 & _).
    apply IH; try congruence.
    apply (run_time_step_invariant it s0 s1 batch Hr Hc Hg Es).
Qed.

End StepInvariant.

Lemma even_sum (x c a b : nat) :
  Nat.even a = true -> Nat.even b = true -> x + 2 * c = a + b -> Nat.even x = true.
Proof.
  intros Ha Hb E. apply Nat.even_spec in Ha, Hb.
  destruct Ha as [k1 ->], Hb as [k2 ->].
  apply Nat.even_spec. exists (k1 + k2 - c). lia.
Qed.

Lemma uniform_subset (ty : op) (stab r : stabilizer) :
  uniform ty stab -> Stabilizer.items_subset r stab = true -> uniform ty r.
Proof.
  intros U Hsub. apply Forall_forall. intros [k v] Hin. cbn [snd].
  apply (uniform_get ty stab k v U).
  apply (proj1 (items_subset_spec r stab) Hsub). exact Hin.
Qed.

(** X17: whatever the schedule, every generator of the refined program
    acts on an even number of qubits, at least two. *)
Theorem generators_even_weight (it : IterOrder) (r c : nat)
        (schedule : list (list (Z * Z))) :
  exists self',
    Interactive.run it (init r c) schedule = Ok self'
    /\ Forall (fun g => Nat.even (length g) = true /\ 2 <= length g)
              (stabilizer_generators self').
Proof.
  destruct (run_typed it schedule (init r c)) as (self' & Hs & _ & _ & Ht);
    [constructor|].
  exists self'. split; [exact Hs|].
  assert (He : Forall (fun g => typed_ok (init r c) g /\ Nat.even (length g) = true)
                      (stabilizer_generators self')).
  { apply (run_invariant (init r c)
             (fun g => typed_ok (init r c) g /\ Nat.even (length g) = true)
             (fun g => (wf_dict g
                        /\ Forall (fun q => in_grid (init r c) q = true) (keys g)
                        /\ single_type g)
                       /\ Nat.even (length g) = true))
      with (it := it) (schedule := schedule) (s0 := init r c);
      try reflexivity; try exact Hs; try (cbn [init stabilizer_generators]; apply Forall_nil).
    - intros s1 s2 ty [T1 E1] [T2 E2] F1 F2 Hn.
      split; [apply (typed_ok_combine _ s1 s2 ty); assumption|].
      destruct T1 as [(W1 & _) [U1|U1]], T2 as [(W2 & _) [U2|U2]];
        pose proof (uniform_first_value _ _ _ U1 F1);
        pose proof (uniform_first_value _ _ _ U2 F2); try congruence.
      + apply (even_sum _ (length (common_qubits s1 s2)) (length s1) (length s2) E1 E2).
        apply (multiply_weight PX); assumption.
      + apply (even_sum _ (length (common_qubits s1 s2)) (length s1) (length s2) E1 E2).
        apply (multiply_weight PZ); assumption.
    - intros stab s [Ts Es] [Tr Er] Hsub.
      split; [apply typed_reduce; assumption|].
      destruct Ts as (Ws & _ & [U|U]), Tr as (Wr & _).
      + apply (even_sum _ (length (common_qubits stab s)) (length stab) (length s) Es Er).
        apply (multiply_weight PX); try assumption.
        apply (uniform_subset PX stab); assumption.
      + apply (even_sum _ (length (common_qubits stab s)) (length stab) (length s) Es Er).
        apply (multiply_weight PZ); try assumption.
        apply (uniform_subset PZ stab); assumption.
    - intros g [((W & _ & K) & T) E]. auto.
    - intros g [(W & K & T) E] Hn. repeat split; assumption.
    - intros p Hadj. split; [apply measurement_term_typed; exact Hadj|reflexivity]. }
  rewrite Forall_forall in *. intros g Hg.
  destruct (He g Hg) as [((_ & Hn & _) & _) E]. split; [exact E|].
  destruct g as [|e1 [|e2 g]]; cbn [length] in *; try discriminate. lia.
Qed.

(** ** Text and hash of a stabilizer *)

Lemma insert_item_in (e x : Z * op) (l : list (Z * op)) :
  In x (insert_item e l) <-> x = e \/ In x l.
Proof.
  induction l as [|y l IH]; cbn [insert_item In].
  - split; [intros [H|[]]; left; congruence|intros [H|[]]; left; congruence].
  - destruct (fst e <=? fst y)%Z; cbn [In].
    + split; [intros [H|H]; [left; congruence|right; exact H]
             |intros [H|H]; [left; congruence|right; exact H]].
    + rewrite IH. split.
      * intros [H|[H|H]]; [right; left; exact H|left; exact H|right; right; exact H].
      * intros [H|[H|H]]; [right; left; exact H|left; exact H|right; right; exact H].
Qed.

Lemma sorted_items_in (d : dict) (x : Z * op) : In x (sorted_items d) <-> In x d.
Proof.
  unfold sorted_items. induction d as [|e d IH]; cbn [fold_right In]; [reflexivity|].
  rewrite insert_item_in, IH. split; intros [H|H]; auto.
Qed.

Lemma insert_item_increasing (e : Z * op) (l : list (Z * op)) :
  increasing l -> ~ In (fst e) (keys l) -> increasing (insert_item e l).
Proof.
  induction l as [|y l IH]; cbn [insert_item increasing keys map In].
  - intros _ _. split; [constructor|exact I].
  - intros [Hy Hl] Hn. destruct (Z.leb_spec (fst e) (fst y)) as [Hle|Hgt].
    + cbn [increasing]. split; [|split; assumption].
      assert (Hlt : (fst e < fst y)%Z).
      { destruct (Z.eq_dec (fst e) (fst y)) as [E|E]; [|lia].
        exfalso. apply Hn. left. symmetry. exact E. }
      constructor; [exact Hlt|].
      rewrite Forall_forall in *. intros x Hx. specialize (Hy x Hx). lia.
    + cbn [increasing]. split.
      * apply Forall_forall. intros x Hx. apply insert_item_in in Hx.
        destruct Hx as [->|Hx]; [exact Hgt|].
        rewrite Forall_forall in Hy. apply Hy, Hx.
      * apply IH; [exact Hl|]. intros H. apply Hn. right. exact H.
Qed.

Lemma sorted_items_increasing (d : dict) : wf_dict d -> increasing (sorted_items d).
Proof.
  unfold sorted_items, wf_dict. induction d as [|e d IH]; cbn [fold_right keys map].
  - intros _. exact I.
  - intros H. inversion H as [|k ks Hk Hks]; subst.
    apply insert_item_increasing; [apply IH; exact Hks|].
    intros Hin. apply Hk. apply in_map_iff in Hin. destruct Hin as (x & Ex & Hx).
    apply in_map_iff. exists x. split; [exact Ex|]. apply sorted_items_in. exact Hx.
Qed.

Lemma increasing_unique (l l' : list (Z * op)) :
  increasing l -> increasing l' -> (forall x, In x l <-> In x l') -> l = l'.
Proof.
  revert l'. induction l as [|e l IH]; intros l' Hl Hl' Hin.
  - destruct l' as [|e' l']; [reflexivity|].
    exfalso. apply (proj2 (Hin e')). left. reflexivity.
  - destruct l' as [|e' l'].
    { exfalso. apply (proj1 (Hin e)). left. reflexivity. }
    cbn [increasing] in Hl, Hl'. destruct Hl as [He Hl], Hl' as [He' Hl'].
    rewrite Forall_forall in He, He'.
    assert (Eh : e = e').
    { destruct (proj1 (Hin e) (or_introl eq_refl)) as [E|H1]; [congruence|].
      destruct (proj2 (Hin e') (or_introl eq_refl)) as [E|H2]; [congruence|].
      specialize (He e' H2). specialize (He' e H1). lia. }
    subst e'. f_equal. apply IH; try assumption.
    intros x. split; intros Hx.
    + destruct (proj1 (Hin x) (or_intror Hx)) as [E|H]; [|exact H].
      subst x. specialize (He e Hx). lia.
    + destruct (proj2 (Hin x) (or_intror Hx)) as [E|H]; [|exact H].
      subst x. specialize (He' e Hx). lia.
Qed.

Lemma sorted_items_eq (s t : stabilizer) :
  wf_dict s -> wf_dict t ->
  (Stabilizer.eq s t = true <-> sorted_items s = sorted_items t).
Proof.
  intros Ws Wt. rewrite (stabilizer_eq_spec s t Ws Wt). split.
  - intros H. apply increasing_unique; try (apply sorted_items_increasing; assumption).
    intros [k v]. rewrite !sorted_items_in. split; intros Hin.
    + apply dict_get_some_in. rewrite <- H. apply dict_in_get; assumption.
    + apply dict_get_some_in. rewrite H. apply dict_in_get; assumption.
  - intros E q.
    assert (Hin : forall x, In x s <-> In x t).
    { intros x. rewrite <- (sorted_items_in s), <- (sorted_items_in t), E. reflexivity. }
    destruct (dict_get s q) as [v|] eqn:Es.
    + symmetry. apply dict_in_get; [exact Wt|]. apply Hin, dict_get_some_in, Es.
    + destruct (dict_get t q) as [w|] eqn:Et; [|reflexivity].
      apply dict_get_some_in, Hin, dict_in_get in Et; [|exact Ws]. congruence.
Qed.

(** X18: equal stabilizers have the same text and the same hash, however
    their dictionaries were filled. *)
Theorem str_hash_respect_eq (s t : stabilizer) :
  wf_dict s -> wf_dict t ->
  (Stabilizer.eq s t = true <-> sorted_items s = sorted_items t)
  /\ (Stabilizer.eq s t = true ->
      __str__ s = __str__ t
      /\ forall hash_items, __hash__ hash_items s = __hash__ hash_items t).
Proof.
  intros Ws Wt. split; [apply sorted_items_eq; assumption|].
  intros E. apply (sorted_items_eq s t Ws Wt) in E.
  unfold __str__, __hash__. rewrite E. split; reflexivity.
Qed.

Lemma str_hash_respect_eq_witness :
  (Stabilizer.eq [(7, PZ); (1, PZ); (12, PZ)]%Z [(1, PZ); (12, PZ); (7, PZ)]%Z = true
   <-> sorted_items [(7, PZ); (1, PZ); (12, PZ)]%Z
       = sorted_items [(1, PZ); (12, PZ); (7, PZ)]%Z)
  /\ (Stabilizer.eq [(7, PZ); (1, PZ); (12, PZ)]%Z [(1, PZ); (12, PZ); (7, PZ)]%Z = true ->
      __str__ [(7, PZ); (1, PZ); (12, PZ)]%Z = __str__ [(1, PZ); (12, PZ); (7, PZ)]%Z
      /\ forall hash_items,
          __hash__ hash_items [(7, PZ); (1, PZ); (12, PZ)]%Z
          = __hash__ hash_items [(1, PZ); (12, PZ); (7, PZ)]%Z).
Proof.
  apply (str_hash_respect_eq [(7, PZ); (1, PZ); (12, PZ)]%Z
                             [(1, PZ); (12, PZ); (7, PZ)]%Z); solve_wf.
Defined.

Lemma str_example :
  __str__ [(7, PZ); (1, PZ); (12, PZ)]%Z = "Z1 Z7 Z12"%string.
Proof. reflexivity. Qed.

(** ** The cells shaded for a generator *)

Lemma flat_map_nil {A B : Type} (f : A -> list B) (l : list A) :
  (forall x, In x l -> f x = []) -> flat_map f l = [].
Proof.
  induction l as [|x l IH]; intros H; cbn [flat_map]; [reflexivity|].
  rewrite (H x (or_introl eq_refl)), IH; [reflexivity|].
  intros y Hy. apply H. right. exact Hy.
Qed.

Lemma flat_map_seq_single {B : Type} (f : nat -> list B) (n k : nat) :
  k < n -> (forall i, i < n -> i <> k -> f i = []) ->
  flat_map f (seq 0 n) = f k.
Proof.
  intros Hk H.
  assert (E : seq 0 n = seq 0 k ++ k :: seq (S k) (n - S k)).
  { replace n with (k + S (n - S k)) at 1 by lia.
    rewrite seq_app. reflexivity. }
  rewrite E, flat_map_app. cbn [flat_map].
  rewrite flat_map_nil.
  - rewrite flat_map_nil; [cbn [app]; apply app_nil_r|].
    intros i Hi. apply in_seq in Hi. apply H; lia.
  - intros i Hi. apply in_seq in Hi. apply H; lia.
Qed.

Lemma shaded_cells_in (self : BaconShorCode) (stab : stabilizer) (xy : nat * nat) :
  In xy (shaded_cells self stab) <->
  exists i j, i < rows self /\ j < cols self
              /\ xy = (j, rows self - i - 1)
              /\ incl (cell_corners self i j) (keys stab).
Proof.
  unfold shaded_cells. rewrite in_flat_map. split.
  - intros (i & Hi & H). apply in_flat_map in H. destruct H as (j & Hj & H).
    apply in_seq in Hi, Hj.
    destruct (forallb _ _) eqn:E; [|contradiction].
    destruct H as [<-|[]]. exists i, j.
    split; [lia|]. split; [lia|]. split; [reflexivity|].
    rewrite forallb_forall in E. intros q Hq. apply existsb_Zeqb_in, E, Hq.
  - intros (i & j & Hi & Hj & -> & Hc). exists i. split; [apply in_seq; lia|].
    apply in_flat_map. exists j. split; [apply in_seq; lia|].
    assert (E : forallb (fun q => existsb (Z.eqb q) (keys stab))
                        (cell_corners self i j) = true).
    { apply forallb_forall. intros q Hq. apply existsb_Zeqb_in, Hc, Hq. }
    unfold cell_corners in E. rewrite E. left. reflexivity.
Qed.

Lemma cell_corners_nodup (self : BaconShorCode) (i j : nat) :
  i < rows self -> j < cols self -> NoDup (cell_corners self i j).
Proof.
  intros Hi Hj. unfold cell_corners. rewrite !grid_at_spec by lia.
  repeat (constructor; [cbn [In]; nia|]). constructor.
Qed.

Lemma shaded_cells_light (self : BaconShorCode) (stab : stabilizer) :
  length stab < 4 -> shaded_cells self stab = [].
Proof.
  intros Hlen. destruct (shaded_cells self stab) as [|xy l] eqn:E; [reflexivity|].
  exfalso.
  assert (Hin : In xy (shaded_cells self stab)) by (rewrite E; left; reflexivity).
  apply shaded_cells_in in Hin. destruct Hin as (i & j & Hi & Hj & _ & Hc).
  pose proof (NoDup_incl_length (cell_corners_nodup self i j Hi Hj) Hc) as Hl.
  rewrite length_keys in Hl. cbn [cell_corners length] in Hl. lia.
Qed.

Lemma in_cell_corners (self : BaconShorCode) (i j i' j' : nat) :
  i < rows self -> j < cols self -> i' <= rows self -> j' <= cols self ->
  In (grid_at self i' j') (cell_corners self i j) ->
  (i' = i \/ i' = S i) /\ (j' = j \/ j' = S j).
Proof.
  intros Hi Hj Hi' Hj' H. unfold cell_corners in H. cbn [In] in H.
  destruct H as [H|[H|[H|[H|[]]]]]; apply grid_at_inj in H; lia.
Qed.

Lemma shaded_cells_plaquette (self : BaconShorCode) (stab : stabilizer) (i j : nat) :
  i < rows self -> j < cols self ->
  (forall q, In q (keys stab) <-> In q (cell_corners self i j)) ->
  shaded_cells self stab = [(j, rows self - i - 1)].
Proof.
  intros Hi Hj Hk.
  assert (Htest : forall i' j', i' < rows self -> j' < cols self ->
             forallb (fun q => existsb (Z.eqb q) (keys stab))
                     [grid_at self i' j'; grid_at self i' (S j');
                      grid_at self (S i') j'; grid_at self (S i') (S j')]
             = (i' =? i)%nat && (j' =? j)%nat).
  { intros i' j' Hi' Hj'.
    destruct (Nat.eqb_spec i' i) as [->|Hni]; [destruct (Nat.eqb_spec j' j) as [->|Hnj]|];
      cbn [andb].
    - apply forallb_forall. intros q Hq. apply existsb_Zeqb_in, Hk, Hq.
    - apply not_true_is_false. intros E. rewrite forallb_forall in E.
      assert (H1 : In (grid_at self i j') (cell_corners self i j)).
      { apply Hk, existsb_Zeqb_in, E. left. reflexivity. }
      assert (H2 : In (grid_at self i (S j')) (cell_corners self i j)).
      { apply Hk, existsb_Zeqb_in, E. right. left. reflexivity. }
      apply in_cell_corners in H1, H2; lia.
    - apply not_true_is_false. intros E. rewrite forallb_forall in E.
      assert (H1 : In (grid_at self i' j') (cell_corners self i j)).
      { apply Hk, existsb_Zeqb_in, E. left. reflexivity. }
      assert (H2 : In (grid_at self (S i') j') (cell_corners self i j)).
      { apply Hk, existsb_Zeqb_in, E. right. right. left. reflexivity. }
      apply in_cell_corners in H1, H2; lia. }
  unfold shaded_cells.
  rewrite (flat_map_seq_single _ (rows self) i Hi).
  - rewrite (flat_map_seq_single _ (cols self) j Hj).
    + rewrite Htest by assumption. rewrite !Nat.eqb_refl. reflexivity.
    + intros j' Hj' Hne. rewrite Htest by assumption.
      rewrite (proj2 (Nat.eqb_neq j' j) Hne), andb_false_r. reflexivity.
  - intros i' Hi' Hne. apply flat_map_nil. intros j' Hj'. apply in_seq in Hj'.
    rewrite Htest by lia. rewrite (proj2 (Nat.eqb_neq i' i) Hne). reflexivity.
Qed.

Lemma measurement_term_horizontal (self : BaconShorCode) (i j : nat) :
  i <= rows self -> S j <= cols self ->
  measurement_term self (grid_at self i j, grid_at self i (S j)) =
  [(grid_at self i j, PZ); (grid_at self i (S j), PZ)].
Proof.
  intros Hi Hj. unfold measurement_term. cbn [fst snd].
  rewrite !coordinate_of_grid_at by lia. cbn [snd].
  rewrite (proj2 (Nat.eqb_neq j (S j))) by lia. reflexivity.
Qed.

Lemma measurement_term_vertical (self : BaconShorCode) (i j : nat) :
  S i <= rows self -> j <= cols self ->
  measurement_term self (grid_at self i j, grid_at self (S i) j) =
  [(grid_at self i j, PX); (grid_at self (S i) j, PX)].
Proof.
  intros Hi Hj. unfold measurement_term. cbn [fst snd].
  rewrite !coordinate_of_grid_at by lia. cbn [snd].
  rewrite Nat.eqb_refl. reflexivity.
Qed.

(** X19: what [draw_grid] shades. *)
Theorem shaded_cells_spec (self : BaconShorCode) :
  (forall stab, length stab < 4 -> shaded_cells self stab = [])
  /\ (forall stab x y, In (x, y) (shaded_cells self stab) ->
                       x < cols self /\ y < rows self)
  /\ (forall i j, i < rows self -> j < cols self ->
        let top := measurement_term self (grid_at self i j, grid_at self i (S j)) in
        let bottom :=
          measurement_term self (grid_at self (S i) j, grid_at self (S i) (S j)) in
        let left := measurement_term self (grid_at self i j, grid_at self (S i) j) in
        let right :=
          measurement_term self (grid_at self i (S j), grid_at self (S i) (S j)) in
        shaded_cells self (Stabilizer.multiply top bottom) = [(j, rows self - i - 1)]
        /\ generator_color (Stabilizer.multiply top bottom) = "lightpink"%string
        /\ shaded_cells self (Stabilizer.multiply left right) = [(j, rows self - i - 1)]
        /\ generator_color (Stabilizer.multiply left right) = "lightblue"%string).
Proof.
  split; [apply shaded_cells_light|]. split.
  { intros stab x y H. apply shaded_cells_in in H.
    destruct H as (i & j & Hi & Hj & E & _). injection E as -> ->. lia. }
  intros i j Hi Hj top bottom left right.
  pose proof (cell_corners_nodup self i j Hi Hj) as Hnd.
  unfold cell_corners in Hnd.
  assert (Etb : Stabilizer.multiply top bottom =
                [(grid_at self i j, PZ); (grid_at self i (S j), PZ);
                 (grid_at self (S i) j, PZ); (grid_at self (S i) (S j), PZ)]).
  { unfold top, bottom. rewrite !measurement_term_horizontal by lia.
    rewrite multiply_disjoint; [reflexivity|exact Hnd]. }
  assert (Elr : Stabilizer.multiply left right =
                [(grid_at self i j, PX); (grid_at self (S i) j, PX);
                 (grid_at self i (S j), PX); (grid_at self (S i) (S j), PX)]).
  { unfold left, right. rewrite !measurement_term_vertical by lia.
    rewrite multiply_disjoint; [reflexivity|].
    cbn [keys map fst app].
    eapply Permutation_NoDup; [|exact Hnd].
    apply perm_skip, perm_swap. }
  rewrite Etb, Elr.
  split; [|split; [reflexivity|split; [|reflexivity]]].
  - apply shaded_cells_plaquette; try assumption. intros q. reflexivity.
  - apply shaded_cells_plaquette; try assumption. intros q.
    unfold cell_corners. cbn [keys map fst In]. tauto.
Qed.

(** ** Measured pairs become generators *)

Lemma insert_by_weight_in (x y : stabilizer) (l : list stabilizer) :
  In y (insert_by_weight x l) -> y = x \/ In y l.
Proof.
  induction l as [|z l IH]; cbn [insert_by_weight].
  - intros [H|[]]. left. congruence.
  - destruct (length x <=? length z)%nat.
    + intros [H|H]; [left; congruence|right; exact H].
    + intros [H|H]; [right; left; exact H|].
      destruct (IH H) as [E|E]; [left; exact E|right; right; exact E].
Qed.

Lemma insert_by_weight_sorted (x : stabilizer) (l : list stabilizer) :
  ForallOrdPairs (fun a b : stabilizer => length a <= length b) l ->
  ForallOrdPairs (fun a b : stabilizer => length a <= length b) (insert_by_weight x l).
Proof.
  induction 1 as [|y l Hy Hl IH]; cbn [insert_by_weight].
  - constructor; constructor.
  - destruct (Nat.leb_spec (length x) (length y)) as [Hle|Hgt].
    + constructor; [|constructor; assumption].
      constructor; [exact Hle|].
      rewrite Forall_forall in *. intros z Hz. specialize (Hy z Hz). lia.
    + constructor; [|exact IH].
      apply Forall_forall. intros z Hz. apply insert_by_weight_in in Hz.
      destruct Hz as [->|Hz]; [lia|].
      rewrite Forall_forall in Hy. apply Hy, Hz.
Qed.

Lemma sorted_by_weight_sorted (l : list stabilizer) :
  ForallOrdPairs (fun a b : stabilizer => length a <= length b) (sorted_by_weight l).
Proof.
  unfold sorted_by_weight. induction l as [|x l IH]; cbn [fold_right]; [constructor|].
  apply insert_by_weight_sorted, IH.
Qed.

Lemma ForallOrdPairs_app_before {A : Type} (R : A -> A -> Prop) (pre post : list A) (t : A) :
  ForallOrdPairs R (pre ++ t :: post) -> Forall (fun x => R x t) pre.
Proof.
  induction pre as [|x pre IH]; cbn [app]; intros H; [constructor|].
  inversion H as [|a l Ha Hl]; subst.
  constructor; [|apply IH; exact Hl].
  rewrite Forall_forall in Ha. apply Ha, in_or_app. right. left. reflexivity.
Qed.

Lemma stabilizer_eq_length (a b : stabilizer) :
  Stabilizer.eq a b = true -> length a = length b.
Proof.
  unfold Stabilizer.eq. intros H. apply andb_true_iff in H. destruct H as [H _].
  apply Nat.eqb_eq in H. exact H.
Qed.

Lemma multiply_eq_trivial (a b : stabilizer) :
  wf_dict a -> wf_dict b -> Stabilizer.eq b a = true -> Stabilizer.multiply a b = [].
Proof.
  intros Wa Wb E. apply dict_get_all_none. intros q.
  rewrite dict_get_multiply by assumption.
  rewrite (proj1 (stabilizer_eq_spec b a Wb Wa) E q). apply op_mul_self.
Qed.

Lemma items_subset_nil (r : stabilizer) :
  Stabilizer.is_trivial r = false -> Stabilizer.items_subset r [] = false.
Proof.
  destruct r as [|e r]; [discriminate|]. reflexivity.
Qed.

Lemma reduce_pair (l : list stabilizer) (stab : stabilizer) :
  wf_dict stab -> length stab = 2 ->
  Forall (fun r => wf_dict r /\ length r = 2) l ->
  let reduce :=
    fold_left
      (fun stab simple_stab =>
         if Stabilizer.items_subset simple_stab stab
         then Stabilizer.multiply stab simple_stab else stab) l in
  reduce [] = []
  /\ (reduce stab = stab
      \/ (reduce stab = [] /\ exists r, In r l /\ Stabilizer.eq stab r = true)).
Proof.
  intros Ws Hlen Hl. cbn zeta.
  induction Hl as [|r l [Wr Hr] Hl IH]; cbn [fold_left].
  - split; [reflexivity|left; reflexivity].
  - destruct IH as [IH1 IH2].
    rewrite items_subset_nil by (destruct r; [discriminate|reflexivity]).
    split; [exact IH1|].
    destruct (Stabilizer.items_subset r stab) eqn:E.
    + assert (Eq : Stabilizer.eq r stab = true)
        by (apply items_subset_same_length; [exact E|congruence]).
      rewrite (multiply_eq_trivial stab r Ws Wr Eq), IH1.
      right. split; [reflexivity|]. exists r. split; [left; reflexivity|].
      rewrite (stabilizer_eq_sym stab r Ws Wr). exact Eq.
    + destruct IH2 as [IH2|(IH2 & x & Hx & Ex)]; [left; exact IH2|].
      right. split; [exact IH2|]. exists x. split; [right; exact Hx|exact Ex].
Qed.

Lemma simplify_entry_pair (it : IterOrder) (acc : pyset) (stab : stabilizer) :
  wf_dict stab -> length stab = 2 ->
  Forall (fun r => wf_dict r /\ length r = 2) acc ->
  Forall (fun r => wf_dict r /\ length r = 2) (Interactive.simplify_entry it acc stab)
  /\ set_mem stab (Interactive.simplify_entry it acc stab) = true.
Proof.
  intros Ws Hlen Hacc. unfold Interactive.simplify_entry, Interactive.reduce_by.
  assert (Hit : Forall (fun r => wf_dict r /\ length r = 2) (iter it acc)).
  { eapply Permutation_Forall; [symmetry; apply iter_perm|exact Hacc]. }
  destruct (reduce_pair (iter it acc) stab Ws Hlen Hit) as [_ [E|(E & r & Hr & Er)]];
    rewrite E.
  - assert (Hn : Stabilizer.is_trivial stab = false)
      by (destruct stab; [discriminate|reflexivity]).
    rewrite Hn. cbn [negb].
    split; [apply Forall_set_add; [exact Hacc|split; assumption]|].
    apply set_mem_set_add_same. exact Ws.
  - cbn [Stabilizer.is_trivial length Nat.eqb negb].
    split; [exact Hacc|].
    unfold set_mem. apply existsb_exists. exists r.
    split; [apply (Permutation_in _ (iter_perm it acc)); exact Hr|exact Er].
Qed.

Lemma simplify_entry_mem (it : IterOrder) (acc : pyset) (stab t : stabilizer) :
  set_mem t acc = true -> set_mem t (Interactive.simplify_entry it acc stab) = true.
Proof.
  intros H. unfold Interactive.simplify_entry.
  destruct (negb _); [apply set_mem_set_add; exact H|exact H].
Qed.

Lemma simplify_fold_mem (it : IterOrder) (l : list stabilizer) (t : stabilizer) :
  forall acc, set_mem t acc = true ->
              set_mem t (fold_left (Interactive.simplify_entry it) l acc) = true.
Proof.
  induction l as [|x l IH]; intros acc H; cbn [fold_left]; [exact H|].
  apply IH, simplify_entry_mem, H.
Qed.

Lemma simplify_fold_pairs (it : IterOrder) (l : list stabilizer) :
  Forall (fun r => wf_dict r /\ length r = 2) l ->
  forall acc,
    Forall (fun r => wf_dict r /\ length r = 2) acc ->
    Forall (fun r => wf_dict r /\ length r = 2)
           (fold_left (Interactive.simplify_entry it) l acc).
Proof.
  induction 1 as [|x l [Wx Hx] Hl IH]; intros acc Hacc; cbn [fold_left]; [exact Hacc|].
  apply IH. apply simplify_entry_pair; assumption.
Qed.

Lemma simplify_keeps_pairs (it : IterOrder) (gens : pyset) (t : stabilizer) :
  Forall (fun g => wf_dict g /\ 2 <= length g) gens ->
  In t gens -> length t = 2 ->
  set_mem t (Interactive.simplify it gens) = true.
Proof.
  intros Hg Hin Hlen. unfold Interactive.simplify.
  set (L := sorted_by_weight (iter it gens)).
  assert (HL : Permutation L gens).
  { unfold L. rewrite sorted_by_weight_perm. apply iter_perm. }
  assert (HinL : In t L) by (apply (Permutation_in _ (Permutation_sym HL)); exact Hin).
  destruct (in_split t L HinL) as (pre & post & E).
  pose proof (sorted_by_weight_sorted (iter it gens)) as Hs. fold L in Hs.
  rewrite E in Hs. apply ForallOrdPairs_app_before in Hs.
  assert (HgL : Forall (fun g => wf_dict g /\ 2 <= length g) L)
    by (eapply Permutation_Forall; [symmetry; exact HL|exact Hg]).
  rewrite E in HgL. apply Forall_app in HgL. destruct HgL as [Hpre Ht].
  inversion Ht as [|a b [Wt _] _]; subst a b.
  assert (Hpre2 : Forall (fun r => wf_dict r /\ length r = 2) pre).
  { rewrite Forall_forall in *. intros x Hx.
    destruct (Hpre x Hx) as [Wx Lx]. specialize (Hs x Hx). cbn beta in Hs.
    split; [exact Wx|lia]. }
  rewrite E, fold_left_app. cbn [fold_left].
  apply simplify_fold_mem.
  apply simplify_entry_pair; [exact Wt|exact Hlen|].
  apply simplify_fold_pairs; [exact Hpre2|constructor].
Qed.

Lemma set_mem_trans (t t' : stabilizer) (s : pyset) :
  wf_dict t -> wf_dict t' -> all_wf s ->
  Stabilizer.eq t t' = true -> set_mem t' s = true -> set_mem t s = true.
Proof.
  intros Wt Wt' Ws E H. unfold set_mem in *. apply existsb_exists in H.
  destruct H as (x & Hx & Ex). apply existsb_exists. exists x. split; [exact Hx|].
  unfold all_wf in Ws. rewrite Forall_forall in Ws.
  apply (stabilizer_eq_trans t t' x Wt Wt' (Ws x Hx) E Ex).
Qed.

Lemma set_discard_keeps_member (m : Stabilizer.measurement) (gens : pyset)
      (s t : stabilizer) :
  all_wf gens -> wf_dict s -> wf_dict t ->
  Stabilizer.commutes_with s m = false -> Stabilizer.commutes_with t m = true ->
  set_mem t gens = true -> set_mem t (set_discard gens s) = true.
Proof.
  intros Wg Ws Wt Hs Ht H. unfold set_mem in *. apply existsb_exists in H.
  destruct H as (x & Hx & Ex). apply existsb_exists. exists x. split; [|exact Ex].
  apply set_discard_in. split; [exact Hx|].
  unfold all_wf in Wg. rewrite Forall_forall in Wg.
  destruct (Stabilizer.eq s x) eqn:E; [|reflexivity].
  rewrite (commutes_with_eq s x m Ws (Wg x Hx) E) in Hs.
  rewrite (commutes_with_eq t x m Wt (Wg x Hx) Ex) in Ht. congruence.
Qed.

Lemma fold_discard_keeps_member (m : Stabilizer.measurement) (t : stabilizer)
      (l : list stabilizer) :
  wf_dict t -> Stabilizer.commutes_with t m = true ->
  all_wf l -> Forall (fun a => Stabilizer.commutes_with a m = false) l ->
  forall gens, all_wf gens -> set_mem t gens = true ->
               set_mem t (fold_left set_discard l gens) = true.
Proof.
  intros Wt Ht Wl Hl. revert Wl.
  induction Hl as [|a l Ha Hl IH]; intros Wl gens Wg H; cbn [fold_left]; [exact H|].
  inversion Wl as [|? ? Wa Wl']; subst.
  apply IH; [exact Wl'|apply set_discard_all_wf; exact Wg|].
  apply (set_discard_keeps_member m); assumption.
Qed.

Lemma resolve_keeps_member (self : BaconShorCode) (meas_stab : stabilizer)
      (m : Stabilizer.measurement) (t : stabilizer) :
  measurement_of meas_stab = Ok m ->
  wf_dict t -> Stabilizer.commutes_with t m = true ->
  forall fuel gens acs gens' acs',
    all_wf gens -> all_wf acs ->
    Forall (fun a => Stabilizer.commutes_with a m = false) acs ->
    set_mem t gens = true ->
    Interactive.resolve fuel self meas_stab gens acs = Ok (gens', acs') ->
    all_wf gens' /\ all_wf acs'
    /\ Forall (fun a => Stabilizer.commutes_with a m = false) acs'
    /\ set_mem t gens' = true.
Proof.
  intros Hm Wt Ht.
  induction fuel as [|fuel IH]; intros gens acs gens' acs' Wg Wa Ha H;
    cbn [Interactive.resolve]; [discriminate|].
  destruct (Interactive.scan_pairs self acs) as [[[s1 s2]|]| |] eqn:Es; cbn [bind];
    try discriminate.
  - destruct (Interactive.combine gens acs meas_stab s1 s2) as [[g1 a1]| |] eqn:Ec;
      cbn [bind]; try discriminate.
    cbn [fst snd].
    destruct (scan_pairs_found self acs s1 s2 Es) as (H1 & H2 & _).
    assert (W1 : wf_dict s1) by (unfold all_wf in Wa; rewrite Forall_forall in Wa; auto).
    assert (W2 : wf_dict s2) by (unfold all_wf in Wa; rewrite Forall_forall in Wa; auto).
    assert (C1 : Stabilizer.commutes_with s1 m = false) by (rewrite Forall_forall in Ha; auto).
    assert (C2 : Stabilizer.commutes_with s2 m = false) by (rewrite Forall_forall in Ha; auto).
    destruct (combine_preserves wf_dict gens acs meas_stab s1 s2 g1 a1) as [Wg1 Wa1];
      try assumption.
    { intros _. apply wf_multiply, W1. }
    apply IH; try assumption.
    + destruct (combine_spec _ _ _ _ _ _ _ Ec) as (b1 & b2 & R1 & R2 & Hcase).
      assert (Hb2 : Forall (fun a => Stabilizer.commutes_with a m = false) b2).
      { apply (Forall_incl _ acs); [|exact Ha].
        eapply incl_tran; [apply (list_remove_incl _ _ _ R2)|apply (list_remove_incl _ _ _ R1)]. }
      destruct Hcase as [(_ & _ & ->)|(_ & _ & m' & Hm' & [(Hc & ->)|(_ & ->)])];
        try exact Hb2.
      assert (m' = m) by congruence. subst m'.
      apply Forall_app. split; [exact Hb2|]. constructor; [exact Hc|constructor].
    + assert (Hd : set_mem t (set_discard (set_discard gens s1) s2) = true).
      { apply (set_discard_keeps_member m); try assumption.
        - apply set_discard_all_wf. exact Wg.
        - apply (set_discard_keeps_member m); assumption. }
      destruct (combine_spec _ _ _ _ _ _ _ Ec) as (b1 & b2 & R1 & R2 & Hcase).
      destruct Hcase as [(_ & -> & _)|(_ & -> & _)]; [exact Hd|].
      apply set_mem_set_add. exact Hd.
  - intros [= <- <-]. auto.
Qed.

Lemma adjust_one_keeps_member (it : IterOrder) (self : BaconShorCode) (gens : pyset)
      (meas_stab : stabilizer) (m : Stabilizer.measurement) (t : stabilizer)
      (gens' : pyset) :
  all_wf gens -> measurement_of meas_stab = Ok m ->
  wf_dict t -> Stabilizer.commutes_with t m = true ->
  set_mem t gens = true ->
  Interactive.adjust_one it self gens meas_stab = Ok gens' ->
  set_mem t gens' = true.
Proof.
  intros Wg Hm Wt Ht H. unfold Interactive.adjust_one, Interactive.resolve_and_discard.
  rewrite (anti_commuting_spec it gens meas_stab m Hm). cbn [bind].
  set (acs := filter (fun stab => negb (Stabilizer.commutes_with stab m)
                                  && negb (Stabilizer.eq stab meas_stab)) (iter it gens)).
  match goal with
  | |- context [Interactive.resolve ?fuel self meas_stab gens acs] =>
      destruct (Interactive.resolve fuel self meas_stab gens acs)
        as [[g1 a1]| |] eqn:Er; cbn [bind]; try discriminate
  end.
  intros [= <-]. cbn [fst snd].
  assert (Wa : all_wf acs).
  { apply (Forall_incl wf_dict gens); [|exact Wg].
    intros a Ha. apply filter_In in Ha. destruct Ha as [Ha _].
    apply (Permutation_in _ (iter_perm it gens)). exact Ha. }
  assert (Ha : Forall (fun a => Stabilizer.commutes_with a m = false) acs).
  { apply Forall_forall. intros a Hin. apply filter_In in Hin. destruct Hin as [_ Hin].
    apply andb_true_iff in Hin. destruct Hin as [Hin _].
    apply negb_true_iff in Hin. exact Hin. }
  destruct (resolve_keeps_member self meas_stab m t Hm Wt Ht _ gens acs g1 a1
              Wg Wa Ha H Er) as (Wg1 & Wa1 & Ha1 & H1).
  apply (fold_discard_keeps_member m); assumption.
Qed.

Lemma paired_combine (self : BaconShorCode) (s1 s2 : stabilizer) (ty : op) :
  (typed_ok self s1 /\ Nat.even (length s1) = true) ->
  (typed_ok self s2 /\ Nat.even (length s2) = true) ->
  first_value s1 = Ok ty -> first_value s2 = Ok ty ->
  Stabilizer.is_trivial (Stabilizer.multiply s1 s2) = false ->
  typed_ok self (Stabilizer.multiply s1 s2)
  /\ Nat.even (length (Stabilizer.multiply s1 s2)) = true.
Proof.
  intros [T1 E1] [T2 E2] F1 F2 Hn.
  split; [apply (typed_ok_combine _ s1 s2 ty); assumption|].
  destruct T1 as [(W1 & _) [U1|U1]], T2 as [(W2 & _) [U2|U2]];
    pose proof (uniform_first_value _ _ _ U1 F1);
    pose proof (uniform_first_value _ _ _ U2 F2); try congruence.
  - apply (even_sum _ (length (common_qubits s1 s2)) (length s1) (length s2) E1 E2).
    apply (multiply_weight PX); assumption.
  - apply (even_sum _ (length (common_qubits s1 s2)) (length s1) (length s2) E1 E2).
    apply (multiply_weight PZ); assumption.
Qed.

Lemma paired_reduce (self : BaconShorCode) (stab s : stabilizer) :
  ((wf_dict stab /\ Forall (fun q => in_grid self q = true) (keys stab)
    /\ single_type stab) /\ Nat.even (length stab) = true) ->
  ((wf_dict s /\ Forall (fun q => in_grid self q = true) (keys s)
    /\ single_type s) /\ Nat.even (length s) = true) ->
  Stabilizer.items_subset s stab = true ->
  (wf_dict (Stabilizer.multiply stab s)
   /\ Forall (fun q => in_grid self q = true) (keys (Stabilizer.multiply stab s))
   /\ single_type (Stabilizer.multiply stab s))
  /\ Nat.even (length (Stabilizer.multiply stab s)) = true.
Proof.
  intros [Ts Es] [Tr Er] Hsub.
  split; [apply typed_reduce; assumption|].
  destruct Ts as (Ws & _ & [U|U]), Tr as (Wr & _).
  - apply (even_sum _ (length (common_qubits stab s)) (length stab) (length s) Es Er).
    apply (multiply_weight PX); try assumption.
    apply (uniform_subset PX stab); assumption.
  - apply (even_sum _ (length (common_qubits stab s)) (length stab) (length s) Es Er).
    apply (multiply_weight PZ); try assumption.
    apply (uniform_subset PZ stab); assumption.
Qed.

Lemma gens_paired_typed (self : BaconShorCode) (s : pyset) :
  gens_paired self s -> gens_typed self s.
Proof.
  intros H. unfold gens_paired, gens_typed in *. rewrite Forall_forall in *.
  intros g Hg. apply (H g Hg).
Qed.

Lemma gens_paired_weight (self : BaconShorCode) (s : pyset) :
  gens_paired self s -> Forall (fun g => wf_dict g /\ 2 <= length g) s.
Proof.
  intros H. unfold gens_paired in H. rewrite Forall_forall in *.
  intros g Hg. destruct (H g Hg) as [((W & N & _) & _) E].
  split; [exact W|].
  destruct g as [|e1 [|e2 g]]; cbn [length] in *; try discriminate. lia.
Qed.

Lemma adjust_keeps_member (it : IterOrder) (self : BaconShorCode) (t : stabilizer)
      (ms : list stabilizer) :
  wf_dict t ->
  Forall (fun meas_stab =>
            exists m, measurement_of meas_stab = Ok m
                      /\ Stabilizer.commutes_with t m = true) ms ->
  forall gens gens',
    all_wf gens -> set_mem t gens = true ->
    Interactive.adjust it self gens ms = Ok gens' ->
    set_mem t gens' = true.
Proof.
  intros Wt. unfold Interactive.adjust.
  induction 1 as [|x ms (m & Hm & Hc) Hms IH]; intros gens gens' Wg H; cbn [foldM].
  - intros [= <-]. exact H.
  - destruct (Interactive.adjust_one it self gens x) as [g1| |] eqn:E; cbn [bind];
      try discriminate.
    apply IH.
    + apply (adjust_one_preserves wf_dict) in E; [exact E| |exact Wg].
      intros s1 s2 ty W1 _ _ _ _. apply wf_multiply, W1.
    + apply (adjust_one_keeps_member it self gens x m t g1); assumption.
Qed.

(** X20: a measured pair whose term commutes with the other terms of its
    batch is a generator after the step. *)
Theorem measured_pairs_become_generators (it : IterOrder) (self : BaconShorCode)
        (batch : list (Z * Z)) :
  gens_paired self (stabilizer_generators self) ->
  exists self',
    snd (Interactive.run_time_step it self batch) = Ok self'
    /\ gens_paired self (stabilizer_generators self')
    /\ forall p,
        In p (accepted self batch) ->
        commutes_with_batch self batch p ->
        set_mem (measurement_term self p) (stabilizer_generators self') = true.
Proof.
  intros Hg.
  destruct (run_time_step_typed it self batch (gens_paired_typed self _ Hg))
    as (self' & Hs & _ & _ & _ & Hg').
  exists self'. split; [exact Hs|].
  assert (Hpaired : gens_paired self (stabilizer_generators self')).
  { apply (run_time_step_invariant self
             (fun g => typed_ok self g /\ Nat.even (length g) = true)
             (fun g => (wf_dict g
                        /\ Forall (fun q => in_grid self q = true) (keys g)
                        /\ single_type g)
                       /\ Nat.even (length g) = true))
      with (it := it) (s0 := self) (batch := batch);
      try reflexivity; try exact Hs; try exact Hg.
    - apply paired_combine.
    - apply paired_reduce.
    - intros g [((W & _ & K) & T) E]. auto.
    - intros g [(W & K & T) E] Hn. repeat split; assumption.
    - intros p Hadj. split; [apply measurement_term_typed; exact Hadj|reflexivity]. }
  split; [exact Hpaired|].
  intros p Hp Hcb.
  pose proof (accepted_adjacent self batch) as Hadj.
  assert (Hpadj : is_adjacent self (fst p) (snd p) = true)
    by (rewrite Forall_forall in Hadj; apply Hadj, Hp).
  set (t := measurement_term self p).
  assert (Wt : wf_dict t) by (apply measurement_term_wf; exact Hpadj).
  unfold Interactive.run_time_step in Hs. rewrite validate_spec in Hs. cbn [snd] in Hs.
  change (accepted (tick self) batch) with (accepted self batch) in Hs.
  unfold Interactive.update_stabilizers in Hs.
  change (meas_stab_of (tick self)) with (meas_stab_of self) in Hs.
  rewrite (mapM_meas_stab_of self _ Hadj) in Hs. cbn [bind] in Hs.
  set (terms := map (measurement_term self) (accepted self batch)) in *.
  assert (Hint : In t terms) by (unfold terms, t; apply in_map; exact Hp).
  assert (Hterms : gens_paired self terms).
  { unfold terms. apply Forall_forall. intros g Hin. apply in_map_iff in Hin.
    destruct Hin as (p' & <- & Hp').
    rewrite Forall_forall in Hadj.
    split; [apply measurement_term_typed, Hadj, Hp'|reflexivity]. }
  assert (Wterms : all_wf terms)
    by (apply (gens_typed_all_wf self), gens_paired_typed, Hterms).
  assert (Hnew : set_mem t (fold_left set_add terms []) = true)
    by (apply fold_set_add_mem; assumption).
  destruct (time_step (tick self) =? 1)%nat.
  - injection Hs as <-. exact Hnew.
  - unfold Interactive.adjust_stabilizers in Hs.
    cbn [with_generators stabilizer_generators tick] in Hs.
    assert (Pnew : gens_paired self (fold_left set_add terms []))
      by (apply Forall_fold_add; [exact Hterms|constructor]).
    assert (P0 : gens_paired self
                   (set_union it (stabilizer_generators self)
                              (fold_left set_add terms []))).
    { unfold set_union. apply Forall_fold_add; [|exact Hg].
      eapply Permutation_Forall; [symmetry; apply iter_perm|exact Pnew]. }
    assert (M0 : set_mem t (set_union it (stabilizer_generators self)
                                      (fold_left set_add terms [])) = true).
    { unfold set_mem in Hnew. apply existsb_exists in Hnew.
      destruct Hnew as (x & Hx & Ex).
      assert (Wx : wf_dict x).
      { apply gens_paired_typed, (gens_typed_all_wf self) in Pnew.
        unfold all_wf in Pnew. rewrite Forall_forall in Pnew. apply Pnew, Hx. }
      apply (set_mem_trans t x); try assumption.
      - apply (gens_typed_all_wf self), gens_paired_typed, P0.
      - unfold set_union. apply fold_set_add_mem; [exact Wx|].
        apply (Permutation_in _ (Permutation_sym (iter_perm it _))). exact Hx. }
    match type of Hs with
    | context [Interactive.adjust it ?s0 ?g0 terms] =>
        destruct (Interactive.adjust it s0 g0 terms) as [g1| |] eqn:Ea;
          cbn [bind] in Hs; try discriminate;
          assert (M1 : set_mem t g1 = true);
          [apply (adjust_keeps_member it s0 t terms Wt) with (gens := g0);
           [|apply (gens_typed_all_wf self), gens_paired_typed, P0|exact M0|exact Ea]
          |apply (adjust_preserves
                    (fun g => typed_ok self g /\ Nat.even (length g) = true)
                    (paired_combine self)) in Ea; [|exact P0]]
    end.
    { apply Forall_forall. intros x Hx. unfold terms in Hx. apply in_map_iff in Hx.
      destruct Hx as (p' & <- & Hp').
      rewrite Forall_forall in Hadj.
      destruct (measurement_of_typed self (measurement_term self p'))
        as (m & Hm & _); [apply measurement_term_typed, Hadj, Hp'|].
      exists m. split; [exact Hm|]. apply (Hcb p' m Hp' Hm). }
    injection Hs as <-.
    cbn [Interactive.simplify_stabilizers with_generators stabilizer_generators].
    unfold set_mem in M1. apply existsb_exists in M1. destruct M1 as (t' & Ht' & Et').
    fold (gens_paired self g1) in Ea.
    assert (Wt' : wf_dict t').
    { apply gens_paired_typed, (gens_typed_all_wf self) in Ea.
      unfold all_wf in Ea. rewrite Forall_forall in Ea. apply Ea, Ht'. }
    apply (set_mem_trans t t'); try assumption.
    + apply simplify_ok. apply (gens_typed_all_wf self), gens_paired_typed, Ea.
    + apply simplify_keeps_pairs.
      * apply (gens_paired_weight self). exact Ea.
      * exact Ht'.
      * rewrite <- (stabilizer_eq_length t t' Et'). reflexivity.
Qed.

Ltac solve_gens_paired :=
  repeat (constructor;
          [split;
           [split;
            [repeat split; [solve_wf | repeat (constructor; [reflexivity|]); constructor]
            |first [solve [left; repeat constructor] | solve [right; repeat constructor]]]
           |reflexivity]|]);
  constructor.

Lemma measured_pairs_become_generators_witness :
  exists self',
    snd (Interactive.run_time_step insertion_order
           {| rows := 4; cols := 4;
              stabilizer_generators := [[(1, PZ); (2, PZ)]; [(6, PZ); (7, PZ)]]%Z;
              time_step := 1;
              current_measurements := [(1, 2); (6, 7)]%Z;
              measurements_history := [[(1, 2); (6, 7)]%Z] |}
           [(1, 6); (2, 7)]%Z) = Ok self'
    /\ set_mem [(1, PX); (6, PX)]%Z (stabilizer_generators self') = true.
Proof.
  destruct (measured_pairs_become_generators insertion_order
              {| rows := 4; cols := 4;
                 stabilizer_generators := [[(1, PZ); (2, PZ)]; [(6, PZ); (7, PZ)]]%Z;
                 time_step := 1;
                 current_measurements := [(1, 2); (6, 7)]%Z;
                 measurements_history := [[(1, 2); (6, 7)]%Z] |}
              [(1, 6); (2, 7)]%Z) as (self' & Hs & _ & H).
  - solve_gens_paired.
  - exists self'. split; [exact Hs|].
    apply (H (1, 6)%Z).
    + left. reflexivity.
    + intros p' m Hp' Hm.
      destruct Hp' as [<-|[<-|[]]]; vm_compute in Hm; injection Hm as <-; reflexivity.
Defined.

(** ** The lines drawn for the measured pairs *)

Lemma edge_color_adjacent (self : BaconShorCode) (p : Z * Z) :
  is_adjacent self (fst p) (snd p) = true ->
  edge_color self p =
  Ok (if (snd (coordinate_of self (fst p)) =? snd (coordinate_of self (snd p)))%nat
      then "blue"%string else "red"%string).
Proof.
  intros Hadj. unfold edge_color.
  destruct (measurement_term_type self p Hadj) as (ty & _ & -> & Ht).
  cbn [bind]. unfold measurement_term in Ht. injection Ht as Ht _.
  rewrite <- Ht. destruct (_ =? _)%nat; reflexivity.
Qed.

(** X21: [draw_grid] finds a colour for every pair a time step recorded:
    blue for a vertical pair, red for a horizontal one. *)
Theorem recorded_pairs_have_colors (it : IterOrder) (self : BaconShorCode)
        (batch : list (Z * Z)) :
  gens_ok self (stabilizer_generators self) ->
  exists self',
    snd (Interactive.run_time_step it self batch) = Ok self'
    /\ Forall (fun p =>
                 edge_color self' p =
                 Ok (if (snd (coordinate_of self (fst p))
                         =? snd (coordinate_of self (snd p)))%nat
                     then "blue"%string else "red"%string)
                 /\ (edge_color self' p = Ok "blue"%string
                     <-> get_measurement_type self p = Ok PX)
                 /\ (edge_color self' p = Ok "red"%string
                     <-> get_measurement_type self p = Ok PZ))
              (current_measurements self').
Proof.
  intros Hg.
  destruct (run_time_step_ok it self batch Hg) as (self' & Hs & Hr & Hc & _).
  exists self'. split; [exact Hs|].
  destruct (run_time_step_fields it self self' batch Hs) as (_ & _ & _ & -> & _).
  pose proof (accepted_adjacent self batch) as Hadj.
  rewrite Forall_forall in *. intros p Hp. specialize (Hadj p Hp).
  assert (Ec : edge_color self' p = edge_color self p).
  { unfold edge_color, get_measurement_type, self_grid. rewrite Hr, Hc. reflexivity. }
  rewrite Ec, (edge_color_adjacent self p Hadj).
  split; [reflexivity|].
  destruct (measurement_term_type self p Hadj) as (ty & Hty & -> & Ht).
  unfold measurement_term in Ht. injection Ht as Ht _. rewrite <- Ht.
  destruct (_ =? _)%nat; split; split; intros H; try reflexivity; discriminate.
Qed.

Lemma recorded_pairs_have_colors_witness :
  exists self',
    snd (Interactive.run_time_step insertion_order (init 4 4) [(1, 2); (1, 6); (5, 6)]%Z)
    = Ok self'
    /\ Forall (fun p =>
                 edge_color self' p =
                 Ok (if (snd (coordinate_of (init 4 4) (fst p))
                         =? snd (coordinate_of (init 4 4) (snd p)))%nat
                     then "blue"%string else "red"%string)
                 /\ (edge_color self' p = Ok "blue"%string
                     <-> get_measurement_type (init 4 4) p = Ok PX)
                 /\ (edge_color self' p = Ok "red"%string
                     <-> get_measurement_type (init 4 4) p = Ok PZ))
              (current_measurements self').
Proof.
  apply (recorded_pairs_have_colors insertion_order (init 4 4)
           [(1, 2); (1, 6); (5, 6)]%Z).
  constructor.
Defined.

(** ** Where the two resolvers agree *)

Lemma commutes_with_trivial (m : Stabilizer.measurement) :
  Stabilizer.commutes_with [] m = true.
Proof.
  rewrite commutes_with_even.
  assert (E : filter (anti_bit [] (Stabilizer.m_type m)) (Stabilizer.m_qubits m) = []).
  { induction (Stabilizer.m_qubits m) as [|q l IH]; [reflexivity|exact IH]. }
  rewrite E. reflexivity.
Qed.

(** X22: the prototype and the refined program resolve a measurement in
    the same way unless two or more generators fail to commute with it. *)
Theorem resolvers_agree_below_two (it : IterOrder) (self : BaconShorCode)
        (gens : pyset) (meas_stab : stabilizer) (acs : list stabilizer) :
  anti_commuting it gens meas_stab = Ok acs ->
  length acs <= 1 ->
  Initial.adjust_one it gens meas_stab = Interactive.adjust_one it self gens meas_stab
  /\ Interactive.adjust_one it self gens meas_stab = Ok (fold_left set_discard acs gens).
Proof.
  intros Ha Hlen.
  unfold Initial.adjust_one, Interactive.adjust_one, Interactive.resolve_and_discard.
  rewrite Ha. cbn [bind].
  destruct acs as [|a [|b acs]]; [| |cbn [length] in Hlen; lia].
  - cbn [Initial.resolve Initial.pop2 rev Interactive.resolve length
         Interactive.scan_pairs bind fst snd fold_left].
    split; reflexivity.
  - assert (Hn : exists e r, a = e :: r).
    { destruct (measurement_of meas_stab) as [m| |] eqn:Hm.
      2,3: unfold anti_commuting in Ha; rewrite Hm in Ha;
           destruct (iter it gens); discriminate.
      rewrite (anti_commuting_spec it gens meas_stab m Hm) in Ha.
      assert (Hin : In a (filter (fun stab => negb (Stabilizer.commutes_with stab m)
                                              && negb (Stabilizer.eq stab meas_stab))
                                 (iter it gens))).
      { injection Ha as Ha. rewrite Ha. left. reflexivity. }
      apply filter_In in Hin. destruct Hin as [_ Hin].
      apply andb_true_iff in Hin. destruct Hin as [Hin _].
      destruct a as [|e r]; [|eauto].
      rewrite commutes_with_trivial in Hin. discriminate. }
    destruct Hn as (e & r & ->).
    cbn [Initial.resolve Initial.pop2 rev app length bind fst snd fold_left].
    cbn [Interactive.resolve Interactive.scan_pairs Interactive.scan_partner
         first_value values map bind fst snd fold_left].
    split; reflexivity.
Qed.

Lemma resolvers_agree_below_two_witness :
  Initial.adjust_one insertion_order
    [[(1, PZ); (2, PZ)]; [(3, PZ); (4, PZ)]]%Z [(1, PX); (6, PX)]%Z
  = Interactive.adjust_one insertion_order (init 4 4)
      [[(1, PZ); (2, PZ)]; [(3, PZ); (4, PZ)]]%Z [(1, PX); (6, PX)]%Z
  /\ Interactive.adjust_one insertion_order (init 4 4)
       [[(1, PZ); (2, PZ)]; [(3, PZ); (4, PZ)]]%Z [(1, PX); (6, PX)]%Z
     = Ok (fold_left set_discard [[(1, PZ); (2, PZ)]]%Z
                     [[(1, PZ); (2, PZ)]; [(3, PZ); (4, PZ)]]%Z).
Proof.
  apply (resolvers_agree_below_two insertion_order (init 4 4)
           [[(1, PZ); (2, PZ)]; [(3, PZ); (4, PZ)]]%Z [(1, PX); (6, PX)]%Z
           [[(1, PZ); (2, PZ)]]%Z).
  - reflexivity.
  - cbn [length]. lia.
Defined.
